(** * citf-backend: the file-backed collection store of [server.js]

    A shallow embedding of the Express application in [src/server.js]:
    three in-memory arrays ([projects], [carouselImages], [videos]), each
    mirrored in a JSON file, and an upload directory whose files belong to
    Project and CarouselImage records.

    Route handlers are written in a small state-and-exception monad over
    the process state [World]; Express turns an exception thrown by a
    handler into a reply through the error-handling middleware at the end
    of the file.  Node built-ins and npm packages that the source calls
    ([uuidv4], [path.join], [path.extname], [new URL], [JSON.stringify],
    the message of multer's error) and the configuration ([PORT],
    [__dirname]) are the fields of the record [Env]. *)

From Stdlib Require Import Ascii.
From stdpp Require Import base option strings list gmap pretty.

Set Default Proof Using "Type".

(** ** JavaScript values used by the handlers *)

Module Js.

(** [if (x)] on a body field: [undefined] and the empty string are
    falsy.  Body fields are text fields of a multipart form or string
    members of a JSON body; [None] is [undefined]. *)
Definition truthy (x : option string) : bool :=
  match x with
  | None => false
  | Some s => negb (String.eqb s EmptyString)
  end.

(** [drop_prefix pat s] is the rest of [s] after a leading [pat]. *)
Fixpoint drop_prefix (pat s : string) : option string :=
  match pat, s with
  | EmptyString, _ => Some s
  | String _ _, EmptyString => None
  | String a pat', String b s' =>
      if Ascii.eqb a b then drop_prefix pat' s' else None
  end.

(** [s.replace(pat, '')] with a string pattern: the first occurrence of
    [pat] in [s] is removed, and [s] is returned as it is when there is
    none. *)
Fixpoint replace_first (pat s : string) : string :=
  match drop_prefix pat s with
  | Some rest => rest
  | None =>
      match s with
      | EmptyString => EmptyString
      | String c s' => String c (replace_first pat s')
      end
  end.

(** A file name: not empty, not a dot entry, no path separator. *)
Fixpoint no_separator (name : string) : bool :=
  match name with
  | EmptyString => true
  | String c rest => negb (Ascii.eqb c "/") && no_separator rest
  end.

Definition file_name (name : string) : bool :=
  no_separator name
  && negb (String.eqb name EmptyString)
  && negb (String.eqb name ".") && negb (String.eqb name "..").

(** JSON documents, as far as the replies and the stored collections
    need them. *)
#[local] Unset Elimination Schemes.
Inductive json : Type :=
| JString (s : string)
| JArray (items : list json)
| JObject (members : list (string * json)).
#[local] Set Elimination Schemes.

(** A member whose value is [undefined] is left out by
    [JSON.stringify] and [res.json]. *)
Definition member (key : string) (v : option string) : list (string * json) :=
  match v with
  | None => []
  | Some s => [(key, JString s)]
  end.

End Js.
Export Js.

(** ** Records of the three collections (field names as in the source) *)

Module Project.
Record t : Type := mk {
  id : string;
  title : option string;
  description : option string;
  imageUrls : list string
}.

Definition set_title (v : option string) (p : t) : t :=
  mk (id p) v (description p) (imageUrls p).
Definition set_description (v : option string) (p : t) : t :=
  mk (id p) (title p) v (imageUrls p).
Definition set_imageUrls (v : list string) (p : t) : t :=
  mk (id p) (title p) (description p) v.

(** The members in the order the handler of POST writes them; a record
    keeps this order for the life of the process. *)
Definition to_json (p : t) : json :=
  JObject ([("id", JString (id p))]
           ++ member "title" (title p)
           ++ member "description" (description p)
           ++ [("imageUrls", JArray (JString <$> imageUrls p))]).
End Project.

Module CarouselImage.
Record t : Type := mk {
  _id : string;
  url : string
}.

Definition to_json (c : t) : json :=
  JObject [("_id", JString (_id c)); ("url", JString (url c))].
End CarouselImage.

Module Video.
Record t : Type := mk {
  id : string;
  url : string;
  title : string
}.

Definition to_json (v : t) : json :=
  JObject [("id", JString (id v)); ("url", JString (url v));
           ("title", JString (title v))].
End Video.

(** ** The file system seen through [fs] *)

Module Fs.

Inductive errno : Type := ENOENT | EACCES.

(** A flat view of the disk: the regular files by absolute path, and
    the paths at which the operating system refuses an unlink or a write
    (permissions, a read-only mount, a directory in place of a file). *)
Record Disk : Type := mkDisk {
  files : gmap string string;
  unlink_denied : string → bool;
  write_denied : string → bool
}.

Definition with_files (d : Disk) (m : gmap string string) : Disk :=
  mkDisk m (unlink_denied d) (write_denied d).

(** What the process did to the disk, in order. *)
Inductive event : Type :=
| Unlink (path : string)
| Write (path : string) (data : string).

Definition exists_ (path : string) (d : Disk) : bool :=
  bool_decide (is_Some (files d !! path)).

Definition unlink (path : string) (d : Disk) : errno + Disk :=
  match files d !! path with
  | None => inl ENOENT
  | Some _ =>
      if unlink_denied d path then inl EACCES
      else inr (with_files d (delete path (files d)))
  end.

Definition write (path data : string) (d : Disk) : errno + Disk :=
  if write_denied d path then inl EACCES
  else inr (with_files d (<[path := data]> (files d))).

End Fs.

(** ** Process state and the handler monad *)

Record UploadedFile : Type := mkFile { filename : string }.

(** One file part of a multipart request, as the client sent it. *)
Record Part : Type := mkPart { originalname : string; content : string }.

Record World : Type := mkWorld {
  projects : list Project.t;
  carouselImages : list CarouselImage.t;
  videos : list Video.t;
  disk : Fs.Disk;
  log : list Fs.event;      (* disk effects so far, oldest first *)
  drawn : nat               (* number of calls of uuidv4() so far *)
}.

Definition set_projects (v : list Project.t) (w : World) : World :=
  mkWorld v (carouselImages w) (videos w) (disk w) (log w) (drawn w).
Definition set_carouselImages (v : list CarouselImage.t) (w : World) : World :=
  mkWorld (projects w) v (videos w) (disk w) (log w) (drawn w).
Definition set_videos (v : list Video.t) (w : World) : World :=
  mkWorld (projects w) (carouselImages w) v (disk w) (log w) (drawn w).
(** A disk effect: the new disk, and its entry in the log. *)
Definition set_disk (d : Fs.Disk) (e : Fs.event) (w : World) : World :=
  mkWorld (projects w) (carouselImages w) (videos w) d (log w ++ [e]) (drawn w).
Definition set_drawn (n : nat) (w : World) : World :=
  mkWorld (projects w) (carouselImages w) (videos w) (disk w) (log w) n.

Inductive exn : Type :=
| FsError (code : Fs.errno) (syscall path : string)
| MulterError (message : string).

Inductive outcome (A : Type) : Type :=
| Ret (a : A)
| Throw (e : exn).
Arguments Ret {A} a.
Arguments Throw {A} e.

Definition M (A : Type) : Type := World → outcome A * World.

Definition ret {A : Type} (a : A) : M A := λ w, (Ret a, w).
Definition bind {A B : Type} (m : M A) (k : A → M B) : M B := λ w,
  match m w with
  | (Ret a, w') => k a w'
  | (Throw e, w') => (Throw e, w')
  end.

Declare Scope handler_scope.
Delimit Scope handler_scope with handler.
Notation "x ← y ; z" := (bind y (λ x : _, z)) (only parsing) : handler_scope.
Notation "x ;; z" := (bind x (λ _, z)) (only parsing) : handler_scope.
Local Open Scope handler_scope.

Definition throw {A : Type} (e : exn) : M A := λ w, (Throw e, w).
Definition get : M World := λ w, (Ret w, w).
Definition modify (f : World → World) : M unit := λ w, (Ret (), f w).

(** [try { m } catch (e) { ... }]: the exception becomes a value; what
    [m] did to the state before it threw stays done. *)
Definition attempt {A : Type} (m : M A) : M (exn + A) := λ w,
  match m w with
  | (Ret a, w') => (Ret (inr a), w')
  | (Throw e, w') => (Ret (inl e), w')
  end.

(** [l.forEach(f)] *)
Fixpoint forEach {A : Type} (f : A → M unit) (l : list A) : M unit :=
  match l with
  | [] => ret ()
  | x :: l' => f x;; forEach f l'
  end.

Definition existsSync (path : string) : M bool :=
  w ← get; ret (Fs.exists_ path (disk w)).

Definition unlinkSync (path : string) : M unit := λ w,
  match Fs.unlink path (disk w) with
  | inl code => (Throw (FsError code "unlink" path), w)
  | inr d => (Ret (), set_disk d (Fs.Unlink path) w)
  end.

Definition writeFileSync (path data : string) : M unit := λ w,
  match Fs.write path data (disk w) with
  | inl code => (Throw (FsError code "open" path), w)
  | inr d => (Ret (), set_disk d (Fs.Write path data) w)
  end.

(** ** Requests and replies *)

Record Response : Type := mkResponse { status : nat; body : json }.

(** [res.status(code).json({ error: msg })] *)
Definition error_reply (code : nat) (msg : string) : Response :=
  mkResponse code (JObject [("error", JString msg)]).

(** A request as the routes of [server.js] read it: the [:id] parameter,
    the body fields they destructure, and the file parts of the multipart
    field the route's multer middleware accepts ([None] when the request
    is not multipart, so that [req.files] / [req.file] stays undefined).

    These are the requests that reach their route with [req.body] an
    object whose fields are strings or absent.  A request on which a
    middleware before the route fails (malformed JSON in
    [express.json()], a malformed multipart body), or whose [req.body] is
    left undefined so that the destructuring in the handler throws, is
    not a value of this type: what happens to it depends on the versions
    of the packages, which [server.js] does not fix. *)
Inductive Request : Type :=
| GetProjects
| PostProject (title description : option string) (images : option (list Part))
| PutProject (id : string) (title description : option string)
    (images : option (list Part))
| DeleteProject (id : string)
| GetCarouselImages
| PostCarouselImage (carouselImage : option (list Part))
| DeleteCarouselImage (id : string)
| GetVideos
| PostVideo (url title : option string)
| DeleteVideo (id : string).

(** [req.files && req.files.length > 0] *)
Definition has_files (files : option (list UploadedFile)) : bool :=
  match files with
  | Some (_ :: _) => true
  | _ => false
  end.

(** The environment the server runs in: its configuration and the
    library functions it calls. *)
Record Env : Type := mkEnv {
  (** [process.env.PORT || 10000], as the template literals print it *)
  env_PORT : string;
  (** [__dirname] *)
  env_dirname : string;
  (** [path.join(a, b)] *)
  env_path_join : string → string → string;
  (** [path.extname(name)] *)
  env_extname : string → string;
  (** [env_uuidv4 k] is what the [k]-th call of [uuidv4()] since the
      process started returns *)
  env_uuidv4 : nat → string;
  (** [env_URL_parses s] holds when [new URL(s)] does not throw *)
  env_URL_parses : string → bool;
  (** [JSON.stringify(value, null, 2)] *)
  env_JSON_stringify : json → string;
  (** the [message] of the [MulterError] that multer raises for a file it
      does not expect (code [LIMIT_UNEXPECTED_FILE]); the text differs
      between versions of multer *)
  env_LIMIT_UNEXPECTED_FILE : string
}.

(** ** A sample deployment

    Concrete stand-ins for the environment of [server.js], used to run
    the model on examples: a port, a directory, simple versions of the
    library functions, and a few process states. *)

Module Sample.

Definition PORT : string := "10000".
Definition dirname : string := "/srv/citf-backend".

(** Like Node's [path.join], the join drops an empty segment. *)
Definition path_join (a b : string) : string :=
  match b with
  | EmptyString => a
  | _ => a +:+ "/" +:+ b
  end.

(** The text from the last dot of the name on. *)
Fixpoint extname (name : string) : string :=
  match name with
  | EmptyString => EmptyString
  | String c rest =>
      match extname rest with
      | EmptyString => if Ascii.eqb c "."%char then name else EmptyString
      | ext => ext
      end
  end.

(** A generator without collisions. *)
Definition uuidv4 (k : nat) : string := "uuid-" +:+ pretty k.

Definition URL_parses (s : string) : bool :=
  String.prefix "http://" s || String.prefix "https://" s.

Definition quote : string := String "034"%char EmptyString.

(** A compact serializer (no indentation, no escapes). *)
Fixpoint JSON_stringify (j : json) : string :=
  match j with
  | JString s => quote +:+ s +:+ quote
  | JArray items =>
      "[" +:+ (fix go (l : list json) : string :=
                 match l with
                 | [] => EmptyString
                 | [x] => JSON_stringify x
                 | x :: l' => JSON_stringify x +:+ "," +:+ go l'
                 end) items +:+ "]"
  | JObject members =>
      "{" +:+ (fix go (l : list (string * json)) : string :=
                 match l with
                 | [] => EmptyString
                 | [(k, x)] => quote +:+ k +:+ quote +:+ ":" +:+ JSON_stringify x
                 | (k, x) :: l' =>
                     quote +:+ k +:+ quote +:+ ":" +:+ JSON_stringify x
                     +:+ "," +:+ go l'
                 end) members +:+ "}"
  end.

Definition LIMIT_UNEXPECTED_FILE : string := "Unexpected file field".

Definition env : Env :=
  mkEnv PORT dirname path_join extname uuidv4 URL_parses JSON_stringify
        LIMIT_UNEXPECTED_FILE.

(** A disk on which nothing is refused. *)
Definition open_disk (files : gmap string string) : Fs.Disk :=
  Fs.mkDisk files (λ _, false) (λ _, false).

(** A fresh process: empty arrays, empty upload directory. *)
Definition fresh : World := mkWorld [] [] [] (open_disk ∅) [] 0.

Definition bridge : Project.t :=
  Project.mk "p1" (Some "Bridge") (Some "Steel truss")
    ["http://localhost:10000/uploads/a.png";
     "http://localhost:10000/uploads/b.png"].

Definition bridge_files : gmap string string :=
  {[ "/srv/citf-backend/uploads/a.png" := "AA" ]}.

(** One project with two image references; the file of the first is on
    disk, the file of the second is already gone. *)
Definition one_project : World :=
  mkWorld [bridge] [] [] (open_disk bridge_files) [] 7.

(** The same, on a disk where the image file cannot be unlinked. *)
Definition locked : World :=
  mkWorld [bridge] [] []
    (Fs.mkDisk bridge_files
       (λ path, String.eqb path "/srv/citf-backend/uploads/a.png")
       (λ _, false))
    [] 7.

Definition two_files : list UploadedFile :=
  [mkFile "uuid-0.png"; mkFile "uuid-1.jpg"].

Definition session : list Request :=
  [PostVideo (Some "https://example.org/clip") (Some "Opening");
   DeleteVideo "uuid-0";
   PostVideo (Some "https://example.org/clip") (Some "Opening")].

Definition photo : Part := mkPart "photo.png" "PNG".
Definition plan : Part := mkPart "plan.v2.jpg" "JPG".

(** One project whose only image file is on disk, and nothing else in
    the upload directory. *)
Definition arch : Project.t :=
  Project.mk "p2" (Some "Arch") None ["http://localhost:10000/uploads/a.png"].

Definition tidy : World := mkWorld [arch] [] [] (open_disk bridge_files) [] 7.

(** A process that loaded a [videos.json] in which two records have the
    same identifier. *)
Definition twins : World :=
  mkWorld [] []
    [Video.mk "v1" "https://example.org/a" "A";
     Video.mk "v1" "https://example.org/b" "B"]
    (open_disk ∅) [] 0.

(** A fresh process that may not write [videos.json]. *)
Definition read_only : World :=
  mkWorld [] [] []
    (Fs.mkDisk ∅ (λ _, false)
       (λ path, String.eqb path "/srv/citf-backend/videos.json"))
    [] 0.

End Sample.

(** ** The application *)

Section Server.

Variable env : Env.

Local Abbreviation PORT := (env_PORT env).
Local Abbreviation dirname := (env_dirname env).
Local Abbreviation path_join := (env_path_join env).
Local Abbreviation extname := (env_extname env).
Local Abbreviation uuidv4 := (env_uuidv4 env).
Local Abbreviation URL_parses := (env_URL_parses env).
Local Abbreviation JSON_stringify := (env_JSON_stringify env).
Local Abbreviation LIMIT_UNEXPECTED_FILE := (env_LIMIT_UNEXPECTED_FILE env).

Definition base : string := "http://localhost:" +:+ PORT +:+ "/".

Definition uploadDir : string := path_join dirname "uploads".
Definition projectsDbPath : string := path_join dirname "projects.json".
Definition carouselDbPath : string := path_join dirname "carousel-images.json".
Definition videosDbPath : string := path_join dirname "videos.json".

(** A call of [uuidv4()]. *)
Definition uuid : M string := λ w,
  (Ret (uuidv4 (drawn w)), set_drawn (S (drawn w)) w).

(** *** multer with [diskStorage] (lines 22-40)

    The storage engine names each incoming file [uuidv4() + ext] and
    writes it into [uploadDir] before the route handler runs.  The engine
    itself is the multer package: a file beyond the route's limit, or a
    write that fails, aborts the upload, the files stored so far are
    removed again, and the error goes to the error handler. *)
Definition handleFile (part : Part) : M UploadedFile :=
  tok ← uuid;
  let name := tok +:+ extname (originalname part) in
  writeFileSync (path_join uploadDir name) (content part);;
  ret (mkFile name).

Definition removeUploaded (stored : list UploadedFile) : M unit :=
  forEach (λ f, attempt (unlinkSync (path_join uploadDir (filename f)));; ret ())
          stored.

Fixpoint receive (limit : nat) (parts : list Part) (stored : list UploadedFile)
  {struct parts} : M (list UploadedFile) :=
  match parts with
  | [] => ret stored
  | part :: rest =>
      match limit with
      | 0 => removeUploaded stored;; throw (MulterError LIMIT_UNEXPECTED_FILE)
      | S limit' =>
          r ← attempt (handleFile part);
          match r with
          | inr f => receive limit' rest (stored ++ [f])
          | inl e => removeUploaded stored;; throw e
          end
      end
  end.

(** [upload.array(field, limit)]; [upload.single(field)] is the case
    [limit = 1], with [req.file] the only element. *)
Definition upload (limit : nat) (parts : option (list Part))
  : M (option (list UploadedFile)) :=
  match parts with
  | None => ret None
  | Some ps => fs ← receive limit ps []; ret (Some fs)
  end.

(** *** save functions (lines 48-50, 58-60, 202-204) *)

Definition saveProjects : M unit :=
  w ← get;
  writeFileSync projectsDbPath
    (JSON_stringify (JArray (Project.to_json <$> projects w))).

Definition saveCarouselImages : M unit :=
  w ← get;
  writeFileSync carouselDbPath
    (JSON_stringify (JArray (CarouselImage.to_json <$> carouselImages w))).

Definition saveVideos : M unit :=
  w ← get;
  writeFileSync videosDbPath
    (JSON_stringify (JArray (Video.to_json <$> videos w))).

(** [`http://localhost:${PORT}/uploads/${file.filename}`] *)
Definition image_url (file : UploadedFile) : string :=
  base +:+ "uploads/" +:+ filename file.

(** [path.join(__dirname, url.replace(`http://localhost:${PORT}/`, ''))] *)
Definition localPath (url : string) : string :=
  path_join dirname (replace_first base url).

(** The body of the two [forEach] loops and of the carousel delete:
    [if (fs.existsSync(localPath)) fs.unlinkSync(localPath)]. *)
Definition unlink_image (url : string) : M unit :=
  ex ← existsSync (localPath url);
  if ex then unlinkSync (localPath url) else ret ().

(** The object [projects[i]] is assigned new field values. *)
Definition assign_project (i : nat) (p : Project.t) : M unit :=
  modify (λ w, set_projects (<[i := p]> (projects w)) w).

(** *** Projects routes *)

(** GET /api/projects (lines 65-67) *)
Definition get_projects : M Response :=
  w ← get; ret (mkResponse 200 (JArray (Project.to_json <$> projects w))).

(** POST /api/projects, the handler (lines 70-88) *)
Definition post_project_handler (title description : option string)
    (files : option (list UploadedFile)) : M Response :=
  if negb (has_files files) then
    ret (error_reply 400 "At least one image is required.")
  else
    let imageUrls := image_url <$> default [] files in
    id ← uuid;
    let newProject := Project.mk id title description imageUrls in
    modify (λ w, set_projects (projects w ++ [newProject]) w);;
    saveProjects;;
    ret (mkResponse 201 (Project.to_json newProject)).

(** PUT /api/projects/:id, the handler (lines 91-120).  [find] returns
    the first matching object of the array; the assignments to it are
    assignments to the element at its index. *)
Definition put_project_handler (id : string) (title description : option string)
    (files : option (list UploadedFile)) : M Response :=
  w ← get;
  match list_find (λ p, Project.id p = id) (projects w) with
  | None => ret (error_reply 404 "Project not found")
  | Some (i, project) =>
      let project :=
        if truthy title then Project.set_title title project else project in
      let project :=
        if truthy description
        then Project.set_description description project else project in
      assign_project i project;;
      project ← (if has_files files then
                   forEach unlink_image (Project.imageUrls project);;
                   let project :=
                     Project.set_imageUrls (image_url <$> default [] files)
                                           project in
                   assign_project i project;;
                   ret project
                 else ret project);
      saveProjects;;
      ret (mkResponse 200
              (JObject [("message", JString "Project updated successfully");
                        ("project", Project.to_json project)]))
  end.

(** DELETE /api/projects/:id (lines 124-144) *)
Definition delete_project_handler (id : string) : M Response :=
  w ← get;
  match list_find (λ p, Project.id p = id) (projects w) with
  | None => ret (error_reply 404 "Project not found")
  | Some (projectIndex, project) =>
      forEach unlink_image (Project.imageUrls project);;
      modify (λ w, set_projects (delete projectIndex (projects w)) w);;
      saveProjects;;
      ret (mkResponse 200
              (JObject [("message", JString "Project deleted successfully")]))
  end.

(** *** Carousel images routes *)

(** GET /api/carousel-images (lines 149-151) *)
Definition get_carousel_images : M Response :=
  w ← get;
  ret (mkResponse 200 (JArray (CarouselImage.to_json <$> carouselImages w))).

(** POST /api/carousel-images, the handler (lines 154-169) *)
Definition post_carousel_handler (file : option UploadedFile) : M Response :=
  match file with
  | None => ret (error_reply 400 "No image uploaded")
  | Some file =>
      let imageUrl := image_url file in
      _id ← uuid;
      let newImage := CarouselImage.mk _id imageUrl in
      modify (λ w, set_carouselImages (carouselImages w ++ [newImage]) w);;
      saveCarouselImages;;
      ret (mkResponse 201 (CarouselImage.to_json newImage))
  end.

(** DELETE /api/carousel-images/:id (lines 172-191) *)
Definition delete_carousel_handler (id : string) : M Response :=
  w ← get;
  match list_find (λ img, CarouselImage._id img = id) (carouselImages w) with
  | None => ret (error_reply 404 "Image not found")
  | Some (index, image) =>
      unlink_image (CarouselImage.url image);;
      modify (λ w, set_carouselImages (delete index (carouselImages w)) w);;
      saveCarouselImages;;
      ret (mkResponse 200
              (JObject [("message", JString "Image deleted successfully")]))
  end.

(** *** Videos routes *)

(** GET /api/videos (lines 207-209) *)
Definition get_videos : M Response :=
  w ← get; ret (mkResponse 200 (JArray (Video.to_json <$> videos w))).

(** POST /api/videos (lines 212-236).  Past the first guard both fields
    are non-empty strings. *)
Definition post_video_handler (url title : option string) : M Response :=
  if negb (truthy url) || negb (truthy title) then
    ret (error_reply 400 "Both url and title are required.")
  else
    let url := default EmptyString url in
    let title := default EmptyString title in
    if negb (URL_parses url) then
      ret (error_reply 400 "Invalid URL format.")
    else
      id ← uuid;
      let newVideo := Video.mk id url title in
      modify (λ w, set_videos (videos w ++ [newVideo]) w);;
      saveVideos;;
      ret (mkResponse 201 (Video.to_json newVideo)).

(** DELETE /api/videos/:id (lines 239-251) *)
Definition delete_video_handler (id : string) : M Response :=
  w ← get;
  match list_find (λ v, Video.id v = id) (videos w) with
  | None => ret (error_reply 404 "Video not found")
  | Some (index, _) =>
      modify (λ w, set_videos (delete index (videos w)) w);;
      saveVideos;;
      ret (mkResponse 200
              (JObject [("message", JString "Video deleted successfully")]))
  end.

(** *** Routing and the error handler (lines 254-260) *)

Definition error_handler (err : exn) : Response :=
  match err with
  | MulterError message => error_reply 400 message
  | _ => error_reply 500 "Internal Server Error"
  end.

(** Middleware, then handler. *)
Definition route (rq : Request) : M Response :=
  match rq with
  | GetProjects => get_projects
  | PostProject title description images =>
      files ← upload 5 images; post_project_handler title description files
  | PutProject id title description images =>
      files ← upload 5 images; put_project_handler id title description files
  | DeleteProject id => delete_project_handler id
  | GetCarouselImages => get_carousel_images
  | PostCarouselImage image =>
      files ← upload 1 image; post_carousel_handler (files ≫= head)
  | DeleteCarouselImage id => delete_carousel_handler id
  | GetVideos => get_videos
  | PostVideo url title => post_video_handler url title
  | DeleteVideo id => delete_video_handler id
  end.

(** Express runs the route and sends either its reply or, when it threw,
    the error handler's. *)
Definition express (m : M Response) (w : World) : Response * World :=
  match m w with
  | (Ret r, w') => (r, w')
  | (Throw e, w') => (error_handler e, w')
  end.

Definition handle (rq : Request) (w : World) : Response * World :=
  express (route rq) w.

(** ** Vocabulary of the specification *)

Inductive Collection : Type := Projects | CarouselImages | Videos.

(** The identifiers of a collection, in List order. *)
Definition ids (c : Collection) (w : World) : list string :=
  match c with
  | Projects => Project.id <$> projects w
  | CarouselImages => CarouselImage._id <$> carouselImages w
  | Videos => Video.id <$> videos w
  end.

(** What List returns for a collection. *)
Definition snapshot (c : Collection) (w : World) : list json :=
  match c with
  | Projects => Project.to_json <$> projects w
  | CarouselImages => CarouselImage.to_json <$> carouselImages w
  | Videos => Video.to_json <$> videos w
  end.

Definition db_path (c : Collection) : string :=
  match c with
  | Projects => projectsDbPath
  | CarouselImages => carouselDbPath
  | Videos => videosDbPath
  end.

Definition List (c : Collection) : Request :=
  match c with
  | Projects => GetProjects
  | CarouselImages => GetCarouselImages
  | Videos => GetVideos
  end.

Definition Delete (c : Collection) (id : string) : Request :=
  match c with
  | Projects => DeleteProject id
  | CarouselImages => DeleteCarouselImage id
  | Videos => DeleteVideo id
  end.

(** The request carries no file part. *)
Definition no_parts (parts : option (list Part)) : bool :=
  match parts with
  | Some (_ :: _) => false
  | _ => true
  end.

(** A Create request that the specification calls invalid: no file for
    a file-owning variant; a video without url or title, or with a url
    that is not well-formed. *)
Definition fails_validation (rq : Request) : bool :=
  match rq with
  | PostProject _ _ images => no_parts images
  | PostCarouselImage image => no_parts image
  | PostVideo url title =>
      negb (truthy url) || negb (truthy title)
      || negb (URL_parses (default EmptyString url))
  | _ => false
  end.

(** The collection a mutating request works on. *)
Definition collection_of (rq : Request) : option Collection :=
  match rq with
  | PostProject _ _ _ | PutProject _ _ _ _ | DeleteProject _ => Some Projects
  | PostCarouselImage _ | DeleteCarouselImage _ => Some CarouselImages
  | PostVideo _ _ | DeleteVideo _ => Some Videos
  | GetProjects | GetCarouselImages | GetVideos => None
  end.

Definition save (c : Collection) : M unit :=
  match c with
  | Projects => saveProjects
  | CarouselImages => saveCarouselImages
  | Videos => saveVideos
  end.

(** The JSON file of a collection holds the serialization of the array
    in memory, and writing it was the last thing done to the disk. *)
Definition persisted (c : Collection) (w : World) : Prop :=
  Fs.files (disk w) !! db_path c = Some (JSON_stringify (JArray (snapshot c w)))
  ∧ last (log w)
    = Some (Fs.Write (db_path c) (JSON_stringify (JArray (snapshot c w)))).

(** The input of Create as the handlers receive it, after the upload
    middleware: the body fields and the files already stored. *)
Inductive CreateInput : Type :=
| NewProject (title description : option string) (files : list UploadedFile)
| NewCarouselImage (file : UploadedFile)
| NewVideo (url title : string).

Definition target (ci : CreateInput) : Collection :=
  match ci with
  | NewProject _ _ _ => Projects
  | NewCarouselImage _ => CarouselImages
  | NewVideo _ _ => Videos
  end.

(** At least one file for a Project; a non-empty url and title and a
    well-formed url for a Video. *)
Definition valid_input (ci : CreateInput) : bool :=
  match ci with
  | NewProject _ _ files => negb (bool_decide (files = []))
  | NewCarouselImage _ => true
  | NewVideo url title =>
      negb (String.eqb url EmptyString) && negb (String.eqb title EmptyString)
      && URL_parses url
  end.

Definition Create (ci : CreateInput) : M Response :=
  match ci with
  | NewProject title description files =>
      post_project_handler title description (Some files)
  | NewCarouselImage file => post_carousel_handler (Some file)
  | NewVideo url title => post_video_handler (Some url) (Some title)
  end.

(** The record a Create builds in a given state. *)
Definition new_project (title description : option string)
    (files : list UploadedFile) (w : World) : Project.t :=
  Project.mk (uuidv4 (drawn w)) title description (image_url <$> files).

Definition new_record (ci : CreateInput) (w : World) : json :=
  match ci with
  | NewProject title description files =>
      Project.to_json (new_project title description files w)
  | NewCarouselImage file =>
      CarouselImage.to_json (CarouselImage.mk (uuidv4 (drawn w)) (image_url file))
  | NewVideo url title => Video.to_json (Video.mk (uuidv4 (drawn w)) url title)
  end.

(** The title and description an Update leaves in a record. *)
Definition apply_fields (title description : option string) (p : Project.t)
  : Project.t :=
  let p := if truthy title then Project.set_title title p else p in
  if truthy description then Project.set_description description p else p.

(** The reply of a successful Update. *)
Definition updated_reply (p : Project.t) : Response :=
  mkResponse 200 (JObject [("message", JString "Project updated successfully");
                           ("project", Project.to_json p)]).

(** [kept title description images p p']: an Update with these inputs
    turned [p] into [p'] without touching the identifier or any field for
    which it brought no non-empty value. *)
Definition kept (title description : option string)
    (images : option (list Part)) (p p' : Project.t) : Prop :=
  Project.id p' = Project.id p
  ∧ (truthy title = false → Project.title p' = Project.title p)
  ∧ (truthy description = false → Project.description p' = Project.description p)
  ∧ (no_parts images = true → Project.imageUrls p' = Project.imageUrls p).

(** The operations that delete files of a record, as the handlers run
    them after the upload middleware. *)
Inductive FileOp : Type :=
| UpdateProject (id : string) (title description : option string)
    (files : list UploadedFile)
| RemoveProject (id : string)
| RemoveCarouselImage (id : string).

Definition run_op (op : FileOp) : M Response :=
  match op with
  | UpdateProject id title description files =>
      put_project_handler id title description (Some files)
  | RemoveProject id => delete_project_handler id
  | RemoveCarouselImage id => delete_carousel_handler id
  end.

Definition op_collection (op : FileOp) : Collection :=
  match op with
  | UpdateProject _ _ _ _ | RemoveProject _ => Projects
  | RemoveCarouselImage _ => CarouselImages
  end.

(** The image references whose files the operation sets out to delete:
    those of the record it finds ([None] when it finds none, or when an
    Update brings no file). *)
Definition old_refs (op : FileOp) (w : World) : option (list string) :=
  match op with
  | UpdateProject id _ _ files =>
      if bool_decide (files = []) then None
      else (λ ip, Project.imageUrls ip.2)
             <$> list_find (λ p, Project.id p = id) (projects w)
  | RemoveProject id =>
      (λ ip, Project.imageUrls ip.2)
        <$> list_find (λ p, Project.id p = id) (projects w)
  | RemoveCarouselImage id =>
      (λ ic, [CarouselImage.url ic.2])
        <$> list_find (λ c, CarouselImage._id c = id) (carouselImages w)
  end.

(** One of the referenced files is on disk and the operating system
    refuses to unlink it. *)
Definition blocked (urls : list string) (w : World) : Prop :=
  ∃ url, url ∈ urls
    ∧ is_Some (Fs.files (disk w) !! localPath url)
    ∧ Fs.unlink_denied (disk w) (localPath url) = true.

(** The specification's reading of a failed cleanup: the operation
    still succeeds and the change is persisted. *)
Definition cleanup_failure_swallowed : Prop :=
  ∀ op w urls,
    old_refs op w = Some urls → blocked urls w →
    Fs.write_denied (disk w) (db_path (op_collection op)) = false →
    let out := express (run_op op) w in
    status out.1 = 200 ∧ persisted (op_collection op) out.2.

(** The identifiers given out during a session, in order: a Create
    leaves its array one record longer, the new record last; whatever is
    past the old length after a request was created by it.  Records
    deleted later stay in this list. *)
Fixpoint issued (c : Collection) (rqs : list Request) (w : World) : list string :=
  match rqs with
  | [] => []
  | rq :: rqs' =>
      let w1 := (handle rq w).2 in
      drop (length (ids c w)) (ids c w1) ++ issued c rqs' w1
  end.

(** The state after a session: the requests served one after the
    other. *)
Definition serve (rqs : list Request) (w : World) : World :=
  foldl (λ w rq, (handle rq w).2) w rqs.

(** Every identifier in memory is a token the generator has already
    returned, and no two records of a collection share one.  A process
    that starts with empty arrays is in such a state. *)
Definition well_identified (w : World) : Prop :=
  ∀ c, NoDup (ids c w) ∧ ∀ x, x ∈ ids c w → ∃ k, k < drawn w ∧ x = uuidv4 k.

(** The files that the records of the two file-owning collections
    point at. *)
Definition referenced (w : World) : list string :=
  localPath <$> ((projects w ≫= Project.imageUrls)
                 ++ (CarouselImage.url <$> carouselImages w)).

(** A path directly inside the upload directory. *)
Definition in_uploads (path : string) : Prop :=
  ∃ name, file_name name = true ∧ path = path_join uploadDir name.

(** The file invariant of the data model: every image reference has its
    file in the upload directory (no dangling reference), and every file
    of the upload directory is referenced by a record (no orphan). *)
Definition files_consistent (w : World) : Prop :=
  (∀ path, path ∈ referenced w →
     in_uploads path ∧ is_Some (Fs.files (disk w) !! path))
  ∧ (∀ path, in_uploads path → is_Some (Fs.files (disk w) !! path) →
       path ∈ referenced w).

(** The reply of Delete when no record has the identifier. *)
Definition not_found (c : Collection) : Response :=
  error_reply 404
    match c with
    | Projects => "Project not found"
    | CarouselImages => "Image not found"
    | Videos => "Video not found"
    end.

(** What a [forEach] over image references has done when it stops:
    [unlinked] are the paths it removed, in order. *)
Record swept (urls : list string) (w : World) (o : outcome unit) (w' : World)
    (unlinked : list string) : Prop := {
  swept_projects : projects w' = projects w;
  swept_carousel : carouselImages w' = carouselImages w;
  swept_videos : videos w' = videos w;
  swept_drawn : drawn w' = drawn w;
  swept_unlink_denied : Fs.unlink_denied (disk w') = Fs.unlink_denied (disk w);
  swept_write_denied : Fs.write_denied (disk w') = Fs.write_denied (disk w);
  swept_log : log w' = log w ++ (Fs.Unlink <$> unlinked);
  swept_nodup : NoDup unlinked;
  swept_sublist : sublist unlinked (localPath <$> urls);
  swept_present : ∀ path, path ∈ unlinked →
    is_Some (Fs.files (disk w) !! path)
    ∧ Fs.unlink_denied (disk w) path = false;
  swept_files : ∀ path,
    Fs.files (disk w') !! path =
      if decide (path ∈ unlinked) then None else Fs.files (disk w) !! path;
  swept_outcome :
    match o with
    | Ret _ => ∀ url, url ∈ urls → Fs.files (disk w') !! localPath url = None
    | Throw e => ∃ url, url ∈ urls
        ∧ e = FsError Fs.EACCES "unlink" (localPath url)
        ∧ is_Some (Fs.files (disk w) !! localPath url)
        ∧ Fs.unlink_denied (disk w) (localPath url) = true
    end
}.

(** [quiet w w']: from [w] to [w'] only the disk, its log and the uuid
    counter moved, and the counter did not go back. *)
Definition quiet (w w' : World) : Prop :=
  projects w' = projects w ∧ carouselImages w' = carouselImages w
  ∧ videos w' = videos w ∧ drawn w ≤ drawn w'.

Definition respects {A : Type} (m : M A) : Prop :=
  ∀ w o w', m w = (o, w') → quiet w w'.

(** One request: the uuid counter does not go back, and the identifiers
    of each array stay as they are, or lose one entry, or gain at the end
    one that the generator returned during the request. *)
Definition step_rel (w w' : World) : Prop :=
  drawn w ≤ drawn w'
  ∧ ∀ c, ids c w' = ids c w
         ∨ (∃ i, ids c w' = delete i (ids c w))
         ∨ ∃ k, drawn w ≤ k < drawn w' ∧ ids c w' = ids c w ++ [uuidv4 k].

(** *** Vocabulary for the rest of the code *)

(** The names multer's storage gives to the parts of one request, the
    generator standing at its [n]-th call: [uuidv4() + ext] for each part
    in turn. *)
Fixpoint names_from (n : nat) (parts : list Part) : list string :=
  match parts with
  | [] => []
  | part :: rest =>
      (uuidv4 n +:+ extname (originalname part)) :: names_from (S n) rest
  end.

(** Where those files go. *)
Definition upload_paths (n : nat) (parts : list Part) : list string :=
  path_join uploadDir <$> names_from n parts.

(** What the disk holds after the files of one request were stored. *)
Definition stored_files (n : nat) (parts : list Part) (m : gmap string string)
  : gmap string string :=
  foldl (λ m pc, <[pc.1 := pc.2]> m) m
        (zip (upload_paths n parts) (content <$> parts)).

(** The operating system refuses nothing. *)
Definition permissive (w : World) : Prop :=
  ∀ path, Fs.unlink_denied (disk w) path = false
          ∧ Fs.write_denied (disk w) path = false.

(** A handler seen as a triple: from a state in [P], a returned value
    and its state are in [Q], a thrown exception and its state in [E]. *)
Definition hoare {A : Type} (P : World → Prop) (m : M A)
    (Q : A → World → Prop) (E : exn → World → Prop) : Prop :=
  ∀ w o w', P w → m w = (o, w') →
    match o with
    | Ret a => Q a w'
    | Throw e => E e w'
    end.

Definition is_fs_error (e : exn) : Prop :=
  match e with
  | FsError _ _ _ => True
  | MulterError _ => False
  end.

(** The status a route answers with when all goes well. *)
Definition success_status (rq : Request) : nat :=
  match rq with
  | PostProject _ _ _ | PostCarouselImage _ | PostVideo _ _ => 201
  | _ => 200
  end.

(** The route has an upload middleware ([true]) or not. *)
Definition takes_files (rq : Request) : bool :=
  match rq with
  | PostProject _ _ _ | PutProject _ _ _ _ | PostCarouselImage _ => true
  | _ => false
  end.

(** The route validates its input (a 400 of its own is possible). *)
Definition validates (rq : Request) : bool :=
  match rq with
  | PostProject _ _ _ | PostCarouselImage _ | PostVideo _ _ => true
  | _ => false
  end.

(** The route looks a record up by identifier (a 404 is possible). *)
Definition looks_up (rq : Request) : option Collection :=
  match rq with
  | PutProject _ _ _ _ | DeleteProject _ => Some Projects
  | DeleteCarouselImage _ => Some CarouselImages
  | DeleteVideo _ => Some Videos
  | _ => None
  end.

(** The request brings more file parts than its route accepts. *)
Definition over_limit (rq : Request) : bool :=
  match rq with
  | PostProject _ _ (Some parts) | PutProject _ _ _ (Some parts) =>
      bool_decide (5 < length parts)
  | PostCarouselImage (Some parts) => bool_decide (1 < length parts)
  | _ => false
  end.

(** On a disk that refuses nothing the computation keeps it so, returns
    only values in [Q], and throws nothing that comes from the file
    system. *)
Definition calm {A : Type} (m : M A) (Q : A → Prop) : Prop :=
  hoare permissive m (λ a w, permissive w ∧ Q a)
        (λ e w, permissive w ∧ ¬ is_fs_error e).

(** Whatever the state, the computation returns only values in [Q] and
    throws only exceptions in [Ex]. *)
Definition shaped {A : Type} (m : M A) (Q : A → Prop) (Ex : exn → Prop) : Prop :=
  hoare (λ _, True) m (λ a _, Q a) (λ e _, Ex e).

(** What multer throws when a route gets more files than it accepts. *)
Definition unexpected_file : exn := MulterError LIMIT_UNEXPECTED_FILE.

(** The replies a handler itself sends for a request: the success reply
    of the route, a 400 where the route validates, a 404 where it looks a
    record up. *)
Definition own_reply (rq : Request) (r : Response) : Prop :=
  status r = success_status rq
  ∨ (validates rq = true ∧ ∃ msg, r = error_reply 400 msg)
  ∨ (∃ c, looks_up rq = Some c ∧ r = not_found c).

(** The disk and the log after a successful operation that removed the
    files of [urls] and saved collection [c]. *)
Definition cleaned (c : Collection) (urls : list string) (w w' : World) : Prop :=
  (∀ path, path ≠ db_path c →
     Fs.files (disk w') !! path
     = if decide (path ∈ localPath <$> urls) then None
       else Fs.files (disk w) !! path)
  ∧ persisted c w'
  ∧ ∃ unlinked,
      log w' = log w ++ (Fs.Unlink <$> unlinked)
                 ++ [Fs.Write (db_path c) (JSON_stringify (JArray (snapshot c w')))]
      ∧ ∀ path, path ∈ unlinked
          ↔ path ∈ localPath <$> urls ∧ is_Some (Fs.files (disk w) !! path).

(** Array [c] is the same in both states. *)
Definition same_array (c : Collection) (w w' : World) : Prop :=
  match c with
  | Projects => projects w' = projects w
  | CarouselImages => carouselImages w' = carouselImages w
  | Videos => videos w' = videos w
  end.

(** Only array [c] may differ between the two states. *)
Definition only (c : Collection) (w w' : World) : Prop :=
  ∀ c', c' ≠ c → same_array c' w w'.

Definition keeps (c : Collection) {A : Type} (m : M A) : Prop :=
  ∀ w o w', m w = (o, w') → only c w w'.

(** The file invariant together with: no two references lead to the
    same file. *)
Definition files_tidy (w : World) : Prop :=
  files_consistent w ∧ NoDup (referenced w).

(** The file parts a request brings. *)
Definition parts_of (rq : Request) : list Part :=
  match rq with
  | PostProject _ _ images | PutProject _ _ _ images => default [] images
  | PostCarouselImage image => default [] image
  | _ => []
  end.

(** The image references of the record that a request addresses: those
    of the first record with the identifier, for an Update or a Delete of
    a project or a Delete of a carousel image. *)
Definition target_refs (rq : Request) (w : World) : list string :=
  match rq with
  | PutProject id _ _ _ | DeleteProject id =>
      from_option (λ ip, Project.imageUrls ip.2) []
                  (list_find (λ p, Project.id p = id) (projects w))
  | DeleteCarouselImage id =>
      from_option (λ ic, [CarouselImage.url ic.2]) []
                  (list_find (λ img, CarouselImage._id img = id)
                             (carouselImages w))
  | _ => []
  end.

(** The path of a stored file. *)
Definition stored_path (f : UploadedFile) : string :=
  path_join uploadDir (filename f).

(** What the upload middleware does on disk with [parts], the generator
    standing at its [n]-th call: it writes the files of the first [k]
    parts, in order, and, when it gives up, unlinks some of those. *)
Definition upload_events (n : nat) (parts : list Part) (evs : list Fs.event)
  : Prop :=
  ∃ k unlinked,
    evs = zip_with Fs.Write (take k (upload_paths n parts))
                            (take k (content <$> parts))
          ++ (Fs.Unlink <$> unlinked)
    ∧ sublist unlinked (take k (upload_paths n parts)).

(** What a handler of collection [c] does on disk when the record it
    addresses holds the references [urls]: it writes the JSON file of
    [c], and unlinks files that [urls] lead to. *)
Definition handler_event (c : Collection) (urls : list string) (ev : Fs.event)
  : Prop :=
  match ev with
  | Fs.Write path _ => path = db_path c
  | Fs.Unlink path => path ∈ localPath <$> urls
  end.

(** [w] is a state of such a handler that started in [W]. *)
Definition within (c : Collection) (urls : list string) (W w : World) : Prop :=
  ∃ evs, log w = log W ++ evs ∧ Forall (handler_event c urls) evs.

Definition stays (c : Collection) (urls : list string) (W : World) {A : Type}
    (m : M A) : Prop :=
  hoare (within c urls W) m (λ _ w, within c urls W w)
        (λ _ w, within c urls W w).

(** *** Vocabulary for requests that succeed *)

(** The record a request addresses by identifier. *)
Definition addressed (rq : Request) : option (Collection * string) :=
  match rq with
  | PutProject id _ _ _ | DeleteProject id => Some (Projects, id)
  | DeleteCarouselImage id => Some (CarouselImages, id)
  | DeleteVideo id => Some (Videos, id)
  | _ => None
  end.

(** A request the handlers have no reason to refuse: its input passes
    the validation of its route, it brings no more files than the route
    accepts, and the record it addresses exists. *)
Definition admissible (rq : Request) (w : World) : Prop :=
  fails_validation rq = false
  ∧ over_limit rq = false
  ∧ ∀ c id, addressed rq = Some (c, id) → id ∈ ids c w.

(** On a disk that refuses nothing the computation returns a value in
    [Q] and leaves the disk so. *)
Definition sure {A : Type} (m : M A) (Q : A → Prop) : Prop :=
  ∀ w, permissive w → ∃ a w', m w = (Ret a, w') ∧ permissive w' ∧ Q a.

(** At most one entry of [l] is [id]. *)
Definition sole (id : string) (l : list string) : Prop :=
  ∀ i j, l !! i = Some id → l !! j = Some id → i = j.

(** The specification's reading of Delete: whenever it succeeds the
    identifier is gone and a second Delete answers not-found. *)
Definition delete_effect_idempotent : Prop :=
  ∀ c id w r w',
    handle (Delete c id) w = (r, w') → status r = 200 →
    (id ∉ ids c w') ∧ handle (Delete c id) w' = (not_found c, w').

(** The specification's reading of write-through: whenever a request has
    changed a collection, the JSON file holds the serialization of the
    collection as it is in memory. *)
Definition write_through_always : Prop :=
  ∀ rq c w,
    collection_of rq = Some c →
    snapshot c (handle rq w).2 ≠ snapshot c w →
    Fs.files (disk (handle rq w).2) !! db_path c
    = Some (JSON_stringify (JArray (snapshot c (handle rq w).2))).

(** ** Running handlers *)

Lemma bind_Ret {A B : Type} (m : M A) (k : A → M B) (w w' : World) (a : A) :
  m w = (Ret a, w') → bind m k w = k a w'.
Proof. unfold bind. by intros ->. Qed.

Lemma bind_Throw {A B : Type} (m : M A) (k : A → M B) (w w' : World) (e : exn) :
  m w = (Throw e, w') → bind m k w = (Throw e, w').
Proof. unfold bind. by intros ->. Qed.

Lemma bind_inv_Ret {A B : Type} (m : M A) (k : A → M B) (w w' : World) (b : B) :
  bind m k w = (Ret b, w') → ∃ a w1, m w = (Ret a, w1) ∧ k a w1 = (Ret b, w').
Proof.
  unfold bind. destruct (m w) as [[a|e] w1]; [eauto|done].
Qed.

(** A reply with a success status was sent by the route itself, not by
    the error handler. *)
Lemma express_success (m : M Response) (w w' : World) (r : Response) :
  express m w = (r, w') → status r = 200 ∨ status r = 201 →
  m w = (Ret r, w').
Proof.
  unfold express. destruct (m w) as [[r0|e] w0]; intros [= <- <-]; [done|].
  by destruct e; intros [?|?].
Qed.

(** *** From an image reference back to its file *)

Lemma drop_prefix_app (pat s : string) : drop_prefix pat (pat +:+ s) = Some s.
Proof.
  induction pat as [|a pat IH]; [by destruct s|].
  change (String a pat +:+ s) with (String a (pat +:+ s)).
  cbn [drop_prefix]. by rewrite Ascii.eqb_refl.
Qed.

Lemma replace_first_app (pat s : string) : replace_first pat (pat +:+ s) = s.
Proof.
  destruct (pat +:+ s) eqn:Heq; cbn [replace_first];
    by rewrite <- Heq, drop_prefix_app.
Qed.

(** The path Update and Delete compute from a reference that Create
    built is [uploads/<filename>] under [__dirname]. *)
Lemma localPath_image_url (file : UploadedFile) :
  localPath (image_url file) = path_join dirname ("uploads/" +:+ filename file).
Proof. unfold localPath, image_url. by rewrite replace_first_app. Qed.

Lemma upload_no_parts (limit : nat) (parts : option (list Part)) (w : World) :
  no_parts parts = true →
  ∃ files, upload limit parts w = (Ret files, w) ∧ has_files files = false
           ∧ files ≫= head = None.
Proof.
  destruct parts as [[|part rest]|]; intros Hno; try done.
  - by exists (Some []).
  - by exists None.
Qed.

(** *** Disk primitives *)

Lemma existsSync_run (path : string) (w : World) :
  existsSync path w = (Ret (bool_decide (is_Some (Fs.files (disk w) !! path))), w).
Proof. done. Qed.

Lemma writeFileSync_ok (path data : string) (w : World) :
  Fs.write_denied (disk w) path = false →
  writeFileSync path data w =
    (Ret (), set_disk (Fs.with_files (disk w) (<[path := data]> (Fs.files (disk w))))
                      (Fs.Write path data) w).
Proof. unfold writeFileSync, Fs.write. by intros ->. Qed.

Lemma writeFileSync_denied (path data : string) (w : World) :
  Fs.write_denied (disk w) path = true →
  writeFileSync path data w = (Throw (FsError Fs.EACCES "open" path), w).
Proof. unfold writeFileSync, Fs.write. by intros ->. Qed.

Lemma writeFileSync_inv (path data : string) (w w' : World) (o : outcome unit) :
  writeFileSync path data w = (o, w') →
  (o = Ret () ∧ Fs.write_denied (disk w) path = false
   ∧ w' = set_disk (Fs.with_files (disk w) (<[path := data]> (Fs.files (disk w))))
                   (Fs.Write path data) w)
  ∨ (∃ e, o = Throw e ∧ w' = w).
Proof.
  destruct (Fs.write_denied (disk w) path) eqn:Hd.
  - rewrite writeFileSync_denied by done. intros [= <- <-]. right. by eexists.
  - rewrite writeFileSync_ok by done. intros [= <- <-]. by left.
Qed.

(** The three cases of [if (fs.existsSync(p)) fs.unlinkSync(p)]. *)
Lemma unlink_image_run (url : string) (w : World) :
  unlink_image url w =
    match Fs.files (disk w) !! localPath url with
    | None => (Ret (), w)
    | Some _ =>
        if Fs.unlink_denied (disk w) (localPath url)
        then (Throw (FsError Fs.EACCES "unlink" (localPath url)), w)
        else (Ret (), set_disk (Fs.with_files (disk w)
                                  (delete (localPath url) (Fs.files (disk w))))
                               (Fs.Unlink (localPath url)) w)
    end.
Proof.
  unfold unlink_image, bind. rewrite existsSync_run.
  unfold unlinkSync, Fs.unlink.
  destruct (Fs.files (disk w) !! localPath url) as [data|] eqn:Hf.
  - rewrite bool_decide_eq_true_2 by eauto. cbn. rewrite Hf.
    by destruct (Fs.unlink_denied (disk w) (localPath url)).
  - rewrite bool_decide_eq_false_2; [done|]. by intros [? ?].
Qed.

Lemma forEach_unlink_image (urls : list string) (w w' : World) (o : outcome unit) :
  forEach unlink_image urls w = (o, w') → ∃ unlinked, swept urls w o w' unlinked.
Proof.
  revert w. induction urls as [|url urls IH]; intros w; cbn [forEach].
  - intros [= <- <-]. exists []. split; try done.
    + by rewrite app_nil_r.
    + constructor.
    + by intros path ?%elem_of_nil.
    + by intros url ?%elem_of_nil.
  - unfold bind at 1. rewrite unlink_image_run.
    destruct (Fs.files (disk w) !! localPath url) as [data|] eqn:Hf.
    + destruct (Fs.unlink_denied (disk w) (localPath url)) eqn:Hd.
      * intros [= <- <-]. exists []. split; try done.
        -- by rewrite app_nil_r.
        -- constructor.
        -- apply sublist_nil_l.
        -- by intros path ?%elem_of_nil.
        -- exists url. rewrite elem_of_cons. split_and!; eauto.
      * intros Hrest. apply IH in Hrest as [unlinked Hsw].
        destruct Hsw as [? ? ? ? ? ? Hlog Hnd Hsub Hpres Hfiles Hout];
          cbn in *.
        assert (localPath url ∉ unlinked) as Hfresh.
        { intros [Hsome _]%Hpres. rewrite lookup_delete_eq in Hsome.
          by destruct Hsome. }
        exists (localPath url :: unlinked). split; try done.
        -- by rewrite Hlog, <- app_assoc.
        -- by constructor.
        -- by apply sublist_skip.
        -- intros path [->|Hin]%elem_of_cons; [eauto|].
           apply Hpres in Hin as [Hsome ?]. split; [|done].
           destruct (decide (localPath url = path)) as [<-|Hne]; [eauto|].
           by rewrite lookup_delete_ne in Hsome.
        -- intros path. rewrite Hfiles.
           destruct (decide (localPath url = path)) as [<-|Hne].
           ++ rewrite lookup_delete_eq.
              destruct (decide (localPath url ∈ localPath url :: unlinked))
                as [_|Hn]; [by case_decide|].
              destruct Hn. apply elem_of_cons; auto.
           ++ rewrite lookup_delete_ne by done.
              destruct (decide (path ∈ unlinked)) as [Hin|Hnin].
              ** rewrite decide_True; [done|]. apply elem_of_cons; auto.
              ** rewrite decide_False; [done|].
                 intros [?|?]%elem_of_cons; congruence.
        -- destruct o as [[]|e].
           ++ intros url' [->|Hin]%elem_of_cons; [|by apply Hout].
              rewrite Hfiles, lookup_delete_eq. by case_decide.
           ++ destruct Hout as (url' & Hin & -> & Hsome & Hden).
              exists url'. rewrite elem_of_cons. split_and!; [auto|done| |done].
              destruct (decide (localPath url = localPath url')) as [<-|Hne];
                [eauto|]. by rewrite lookup_delete_ne in Hsome.
    + intros Hrest. apply IH in Hrest as [unlinked Hsw].
      destruct Hsw as [? ? ? ? ? ? Hlog Hnd Hsub Hpres Hfiles Hout].
      exists unlinked. split; try done.
      * by apply sublist_cons.
      * destruct o as [[]|e].
        -- intros url' [->|Hin]%elem_of_cons; [|by apply Hout].
           rewrite Hfiles, Hf. by case_decide.
        -- destruct Hout as (url' & Hin & -> & Hsome & Hden).
           exists url'. rewrite elem_of_cons. split_and!; auto.
Qed.

(** ** C3: a Create that fails validation *)

(** C3. A Create request that fails validation (no file for a Project or
    a CarouselImage; a Video whose url or title is missing or whose url
    does not parse) is answered with status 400, and the whole process
    state (the three arrays, the disk, the generator) is as before. *)
Theorem create_validation_failure (rq : Request) (w : World) :
  fails_validation rq = true →
  ∃ msg, handle rq w = (error_reply 400 msg, w).
Proof.
  destruct rq as [|t d images|?|?| |image|?| |url title|?]; try done;
    cbn [fails_validation]; intros Hbad.
  - destruct (upload_no_parts 5 images w Hbad) as (files & Hup & Hnone & _).
    eexists. unfold handle, express, route.
    rewrite (bind_Ret _ _ _ _ _ Hup). unfold post_project_handler.
    by rewrite Hnone.
  - destruct (upload_no_parts 1 image w Hbad) as (files & Hup & _ & Hhead).
    eexists. unfold handle, express, route.
    rewrite (bind_Ret _ _ _ _ _ Hup). by rewrite Hhead.
  - unfold handle, express, route, post_video_handler.
    destruct (negb (truthy url) || negb (truthy title)) eqn:Hreq.
    + by eexists.
    + cbn in Hbad. rewrite Hbad. by eexists.
Qed.


(** ** C6: Delete by identifier *)

Lemma list_find_absent {A : Type} (key : A → string) (l : list A) (id : string) :
  id ∉ key <$> l → list_find (λ x, key x = id) l = None.
Proof.
  intros Hnot. apply list_find_None, Forall_forall. intros x Hx <-.
  apply Hnot, list_elem_of_fmap. eauto.
Qed.

Lemma save_inv (c : Collection) (w w' : World) (o : outcome unit) :
  save c w = (o, w') →
  (o = Ret () ∧ Fs.write_denied (disk w) (db_path c) = false
   ∧ w' = set_disk
           (Fs.with_files (disk w)
              (<[db_path c := JSON_stringify (JArray (snapshot c w))]>
                 (Fs.files (disk w))))
           (Fs.Write (db_path c) (JSON_stringify (JArray (snapshot c w)))) w)
  ∨ (∃ e, o = Throw e ∧ w' = w).
Proof. destruct c; apply writeFileSync_inv. Qed.

Lemma save_ok (c : Collection) (w : World) :
  Fs.write_denied (disk w) (db_path c) = false →
  save c w =
    (Ret (), set_disk
               (Fs.with_files (disk w)
                  (<[db_path c := JSON_stringify (JArray (snapshot c w))]>
                     (Fs.files (disk w))))
               (Fs.Write (db_path c) (JSON_stringify (JArray (snapshot c w)))) w).
Proof. destruct c; apply writeFileSync_ok. Qed.

(** The in-memory effect of a successful Delete on each collection. *)
Lemma delete_project_ok (id : string) (w w' : World) (r : Response) :
  handle (DeleteProject id) w = (r, w') → status r = 200 →
  ∃ i p, list_find (λ p, Project.id p = id) (projects w) = Some (i, p)
         ∧ projects w' = delete i (projects w)
         ∧ carouselImages w' = carouselImages w ∧ videos w' = videos w.
Proof.
  intros Hrun Hst. apply express_success in Hrun; [|auto]. revert Hrun.
  unfold route, delete_project_handler, bind at 1, get.
  destruct (list_find _ (projects w)) as [[i p]|] eqn:Hfind;
    [|intros [= <- <-]; done].
  intros ([] & w1 & [unlinked Hsw]%forEach_unlink_image & Hrun)%bind_inv_Ret.
  apply bind_inv_Ret in Hrun as ([] & w2 & [= <-] & Hrun).
  apply bind_inv_Ret in Hrun as ([] & w3 & Hsave & [= <- <-]).
  apply (save_inv Projects) in Hsave as [(_ & _ & ->)|(e & [=] & _)].
  exists i, p. cbn.
  by rewrite (swept_projects _ _ _ _ _ Hsw), (swept_carousel _ _ _ _ _ Hsw),
    (swept_videos _ _ _ _ _ Hsw).
Qed.

Lemma unlink_image_swept (url : string) (w w' : World) (o : outcome unit) :
  unlink_image url w = (o, w') → ∃ unlinked, swept [url] w o w' unlinked.
Proof.
  intros Hrun. apply forEach_unlink_image. cbn [forEach]. unfold bind.
  rewrite Hrun. by destruct o as [[]|e].
Qed.

Lemma delete_carousel_ok (id : string) (w w' : World) (r : Response) :
  handle (DeleteCarouselImage id) w = (r, w') → status r = 200 →
  ∃ i img,
    list_find (λ img, CarouselImage._id img = id) (carouselImages w) = Some (i, img)
    ∧ carouselImages w' = delete i (carouselImages w)
    ∧ projects w' = projects w ∧ videos w' = videos w.
Proof.
  intros Hrun Hst. apply express_success in Hrun; [|auto]. revert Hrun.
  unfold route, delete_carousel_handler, bind at 1, get.
  destruct (list_find _ (carouselImages w)) as [[i img]|] eqn:Hfind;
    [|intros [= <- <-]; done].
  intros ([] & w1 & [unlinked Hsw]%unlink_image_swept & Hrun)%bind_inv_Ret.
  apply bind_inv_Ret in Hrun as ([] & w2 & [= <-] & Hrun).
  apply bind_inv_Ret in Hrun as ([] & w3 & Hsave & [= <- <-]).
  apply (save_inv CarouselImages) in Hsave as [(_ & _ & ->)|(e & [=] & _)].
  exists i, img. cbn.
  by rewrite (swept_projects _ _ _ _ _ Hsw), (swept_carousel _ _ _ _ _ Hsw),
    (swept_videos _ _ _ _ _ Hsw).
Qed.

Lemma delete_video_ok (id : string) (w w' : World) (r : Response) :
  handle (DeleteVideo id) w = (r, w') → status r = 200 →
  ∃ i v, list_find (λ v, Video.id v = id) (videos w) = Some (i, v)
         ∧ videos w' = delete i (videos w)
         ∧ projects w' = projects w ∧ carouselImages w' = carouselImages w.
Proof.
  intros Hrun Hst. apply express_success in Hrun; [|auto]. revert Hrun.
  unfold route, delete_video_handler, bind at 1, get.
  destruct (list_find _ (videos w)) as [[i v]|] eqn:Hfind;
    [|intros [= <- <-]; done].
  intros ([] & w2 & [= <-] & Hrun)%bind_inv_Ret.
  apply bind_inv_Ret in Hrun as ([] & w3 & Hsave & [= <- <-]).
  apply (save_inv Videos) in Hsave as [(_ & _ & ->)|(e & [=] & _)].
  by exists i, v.
Qed.

Lemma delete_absent (c : Collection) (id : string) (w : World) :
  id ∉ ids c w → handle (Delete c id) w = (not_found c, w).
Proof.
  destruct c; cbn [ids Delete]; intros Hnot;
    unfold handle, express, route, delete_project_handler,
      delete_carousel_handler, delete_video_handler, bind, get;
    by rewrite (list_find_absent _ _ _ Hnot).
Qed.


(** ** C8: write-through persistence *)

Lemma save_reply (c : Collection) (r0 r : Response) (w w' : World) :
  bind (save c) (λ _, ret r0) w = (Ret r, w') →
  r = r0 ∧ persisted c w'
  ∧ projects w' = projects w ∧ carouselImages w' = carouselImages w
  ∧ videos w' = videos w ∧ drawn w' = drawn w.
Proof.
  intros ([] & w1 & Hsave & [= <- <-])%bind_inv_Ret.
  apply save_inv in Hsave as [(_ & _ & ->)|(e & [=] & _)].
  split_and!; try done. split; cbn.
  - destruct c; apply lookup_insert_eq.
  - destruct c; apply last_snoc.
Qed.


(** ** C7, C10: Create *)

Lemma post_project_run (title description : option string)
    (files : list UploadedFile) (w : World) :
  files ≠ [] →
  Fs.write_denied (disk w) projectsDbPath = false →
  ∃ w', post_project_handler title description (Some files) w
        = (Ret (mkResponse 201
                  (Project.to_json (new_project title description files w))), w')
    ∧ projects w' = projects w ++ [new_project title description files w]
    ∧ carouselImages w' = carouselImages w ∧ videos w' = videos w
    ∧ drawn w' = S (drawn w)
    ∧ persisted Projects w'.
Proof.
  intros Hfiles Hwr. unfold post_project_handler.
  destruct files as [|file files]; [done|]. cbn [has_files negb default].
  erewrite bind_Ret by reflexivity. cbn beta.
  erewrite bind_Ret by reflexivity. cbn beta.
  erewrite bind_Ret by (by apply (save_ok Projects)).
  eexists. split; [reflexivity|]. split_and!; try done.
  split; cbn; [apply lookup_insert_eq|apply last_snoc].
Qed.

Lemma post_carousel_run (file : UploadedFile) (w : World) :
  Fs.write_denied (disk w) carouselDbPath = false →
  ∃ w', post_carousel_handler (Some file) w
        = (Ret (mkResponse 201
                  (CarouselImage.to_json
                     (CarouselImage.mk (uuidv4 (drawn w)) (image_url file)))), w')
    ∧ carouselImages w'
      = carouselImages w ++ [CarouselImage.mk (uuidv4 (drawn w)) (image_url file)]
    ∧ projects w' = projects w ∧ videos w' = videos w
    ∧ drawn w' = S (drawn w)
    ∧ persisted CarouselImages w'.
Proof.
  intros Hwr. unfold post_carousel_handler.
  erewrite bind_Ret by reflexivity. cbn beta.
  erewrite bind_Ret by reflexivity. cbn beta.
  erewrite bind_Ret by (by apply (save_ok CarouselImages)).
  eexists. split; [reflexivity|]. split_and!; try done.
  split; cbn; [apply lookup_insert_eq|apply last_snoc].
Qed.

Lemma post_video_run (url title : string) (w : World) :
  url ≠ EmptyString → title ≠ EmptyString → URL_parses url = true →
  Fs.write_denied (disk w) videosDbPath = false →
  ∃ w', post_video_handler (Some url) (Some title) w
        = (Ret (mkResponse 201
                  (Video.to_json (Video.mk (uuidv4 (drawn w)) url title))), w')
    ∧ videos w' = videos w ++ [Video.mk (uuidv4 (drawn w)) url title]
    ∧ projects w' = projects w ∧ carouselImages w' = carouselImages w
    ∧ drawn w' = S (drawn w)
    ∧ persisted Videos w'.
Proof.
  intros Hurl Htitle Hparse Hwr. unfold post_video_handler, truthy.
  apply String.eqb_neq in Hurl, Htitle. rewrite Hurl, Htitle.
  cbn [negb orb default from_option id]. rewrite Hparse. cbn [negb].
  erewrite bind_Ret by reflexivity. cbn beta.
  erewrite bind_Ret by reflexivity. cbn beta.
  erewrite bind_Ret by (by apply (save_ok Videos)).
  eexists. split; [reflexivity|]. split_and!; try done.
  split; cbn; [apply lookup_insert_eq|apply last_snoc].
Qed.

Lemma list_run (c : Collection) (w : World) :
  handle (List c) w = (mkResponse 200 (JArray (snapshot c w)), w).
Proof. by destruct c. Qed.

(** C7. For a valid Create input on any of the three collections, with
    the collection's JSON file writable, Create answers 201 with the new
    record; a List that follows returns what List returned before with
    that same record appended at the end, and List changes nothing. *)
Theorem create_list_roundtrip (ci : CreateInput) (w : World) :
  valid_input ci = true →
  Fs.write_denied (disk w) (db_path (target ci)) = false →
  ∃ w', Create ci w = (Ret (mkResponse 201 (new_record ci w)), w')
    ∧ handle (List (target ci)) w
      = (mkResponse 200 (JArray (snapshot (target ci) w)), w)
    ∧ handle (List (target ci)) w'
      = (mkResponse 200 (JArray (snapshot (target ci) w ++ [new_record ci w])), w').
Proof.
  intros Hvalid Hwr.
  destruct ci as [title description files|file|url title];
    cbn [target db_path valid_input Create new_record] in *.
  - apply negb_true_iff, bool_decide_eq_false in Hvalid.
    destruct (post_project_run title description files w Hvalid Hwr)
      as (w' & Hrun & Hmem & _).
    exists w'. split_and!; [done|apply list_run|].
    rewrite (list_run Projects). cbn [snapshot]. by rewrite Hmem, fmap_app.
  - destruct (post_carousel_run file w Hwr) as (w' & Hrun & Hmem & _).
    exists w'. split_and!; [done|apply list_run|].
    rewrite (list_run CarouselImages). cbn [snapshot]. by rewrite Hmem, fmap_app.
  - apply andb_true_iff in Hvalid as [[Hurl Htitle]%andb_true_iff Hparse].
    apply negb_true_iff, String.eqb_neq in Hurl, Htitle.
    destruct (post_video_run url title w Hurl Htitle Hparse Hwr)
      as (w' & Hrun & Hmem & _).
    exists w'. split_and!; [done|apply list_run|].
    rewrite (list_run Videos). cbn [snapshot]. by rewrite Hmem, fmap_app.
Qed.

(** C10. Project Create does not look at title or description: with at
    least one stored file and a writable JSON file it answers 201 whatever
    the two fields are, appends a record that carries them as given
    (undefined when omitted, and then left out of the JSON), and persists
    the collection. *)
Theorem project_create_unvalidated (title description : option string)
    (files : list UploadedFile) (w : World) :
  files ≠ [] →
  Fs.write_denied (disk w) projectsDbPath = false →
  ∃ p w',
    post_project_handler title description (Some files) w
      = (Ret (mkResponse 201 (Project.to_json p)), w')
    ∧ Project.title p = title ∧ Project.description p = description
    ∧ Project.imageUrls p = image_url <$> files
    ∧ projects w' = projects w ++ [p]
    ∧ persisted Projects w'
    ∧ (title = None → description = None →
       Project.to_json p
       = JObject [("id", JString (Project.id p));
                  ("imageUrls", JArray (JString <$> Project.imageUrls p))]).
Proof.
  intros Hfiles Hwr.
  destruct (post_project_run title description files w Hfiles Hwr)
    as (w' & Hrun & Hmem & _ & _ & _ & Hdisk).
  exists (new_project title description files w), w'.
  split_and!; try done. by intros -> ->.
Qed.

(** ** C4, C5: Update *)

(** Once the record is found, title and description are assigned first;
    the rest of the handler runs in the state where they are. *)
Lemma put_project_found (id : string) (title description : option string)
    (files : option (list UploadedFile)) (w : World) (i : nat) (p : Project.t) :
  list_find (λ p, Project.id p = id) (projects w) = Some (i, p) →
  put_project_handler id title description files w =
    (project ← (if has_files files then
                  forEach unlink_image
                    (Project.imageUrls (apply_fields title description p));;
                  assign_project i
                    (Project.set_imageUrls (image_url <$> default [] files)
                       (apply_fields title description p));;
                  ret (Project.set_imageUrls (image_url <$> default [] files)
                         (apply_fields title description p))
                else ret (apply_fields title description p));
     saveProjects;; ret (updated_reply project))
      (set_projects (<[i := apply_fields title description p]> (projects w)) w).
Proof.
  intros Hfind. unfold put_project_handler, bind at 1, get. rewrite Hfind.
  unfold bind at 1, assign_project, modify. reflexivity.
Qed.

Lemma apply_fields_id (title description : option string) (p : Project.t) :
  Project.id (apply_fields title description p) = Project.id p.
Proof. unfold apply_fields. by destruct (truthy title), (truthy description). Qed.

Lemma apply_fields_imageUrls (title description : option string) (p : Project.t) :
  Project.imageUrls (apply_fields title description p) = Project.imageUrls p.
Proof. unfold apply_fields. by destruct (truthy title), (truthy description). Qed.

Lemma apply_fields_title (title description : option string) (p : Project.t) :
  Project.title (apply_fields title description p)
  = if truthy title then title else Project.title p.
Proof. unfold apply_fields. by destruct (truthy title), (truthy description). Qed.

Lemma apply_fields_description (title description : option string) (p : Project.t) :
  Project.description (apply_fields title description p)
  = if truthy description then description else Project.description p.
Proof. unfold apply_fields. by destruct (truthy title), (truthy description). Qed.

(** An Update without files: what it leaves in memory and on disk,
    whether or not the JSON file can be written. *)
Lemma put_project_no_files (id : string) (title description : option string)
    (images : option (list Part)) (w : World) (i : nat) (p : Project.t) :
  no_parts images = true →
  list_find (λ p, Project.id p = id) (projects w) = Some (i, p) →
  let out := handle (PutProject id title description images) w in
  projects out.2 = <[i := apply_fields title description p]> (projects w)
  ∧ carouselImages out.2 = carouselImages w ∧ videos out.2 = videos w
  ∧ (∀ path, path ≠ projectsDbPath →
       Fs.files (disk out.2) !! path = Fs.files (disk w) !! path)
  ∧ (Fs.write_denied (disk w) projectsDbPath = false →
       out.1 = updated_reply (apply_fields title description p)
       ∧ persisted Projects out.2).
Proof.
  intros Hno Hfind out. subst out.
  destruct (upload_no_parts 5 images w Hno) as (files & Hup & Hnone & _).
  unfold handle, express, route. rewrite (bind_Ret _ _ _ _ _ Hup).
  rewrite (put_project_found _ _ _ _ _ _ _ Hfind), Hnone.
  erewrite bind_Ret by reflexivity. cbn beta.
  set (w1 := set_projects _ w).
  destruct (Fs.write_denied (disk w) projectsDbPath) eqn:Hwr.
  - erewrite bind_Throw by (by apply writeFileSync_denied). by cbn.
  - erewrite bind_Ret by (by apply (save_ok Projects)). cbn.
    split_and!; try done.
    + intros path Hne. by rewrite lookup_insert_ne.
    + intros _. split; [done|]. split; cbn; [apply lookup_insert_eq|apply last_snoc].
Qed.

(** *** Computations that leave the three arrays alone *)

Lemma quiet_refl (w : World) : quiet w w.
Proof. by split_and!. Qed.

Lemma quiet_trans (w1 w2 w3 : World) : quiet w1 w2 → quiet w2 w3 → quiet w1 w3.
Proof.
  intros (? & ? & ? & ?) (? & ? & ? & ?). split_and!; [congruence..|lia].
Qed.

Lemma bind_inv {A B : Type} (m : M A) (k : A → M B) (w w' : World) (o : outcome B) :
  bind m k w = (o, w') →
  (∃ a w1, m w = (Ret a, w1) ∧ k a w1 = (o, w'))
  ∨ (∃ e, m w = (Throw e, w') ∧ o = Throw e).
Proof.
  unfold bind. destruct (m w) as [[a|e] w1]; [eauto|].
  intros [= <- <-]. eauto.
Qed.

Lemma respects_ret {A : Type} (a : A) : respects (ret a).
Proof. intros w o w' [= <- <-]. apply quiet_refl. Qed.

Lemma respects_throw {A : Type} (e : exn) : respects (throw (A := A) e).
Proof. intros w o w' [= <- <-]. apply quiet_refl. Qed.

Lemma respects_bind {A B : Type} (m : M A) (k : A → M B) :
  respects m → (∀ a, respects (k a)) → respects (bind m k).
Proof.
  intros Hm Hk w o w' [(a & w1 & H1 & H2)|(e & H1 & _)]%bind_inv.
  - eapply quiet_trans; [by eapply Hm|by eapply Hk].
  - by eapply Hm.
Qed.

Lemma respects_attempt {A : Type} (m : M A) : respects m → respects (attempt m).
Proof.
  intros Hm w o w'. unfold attempt.
  destruct (m w) as [[a|e] w1] eqn:Hrun; intros [= <- <-]; by eapply Hm.
Qed.

Lemma respects_forEach {A : Type} (f : A → M unit) (l : list A) :
  (∀ x, respects (f x)) → respects (forEach f l).
Proof.
  intros Hf. induction l as [|x l IH]; cbn [forEach].
  - apply respects_ret.
  - by apply respects_bind.
Qed.

Lemma respects_existsSync (path : string) : respects (existsSync path).
Proof. intros w o w' [= <- <-]. apply quiet_refl. Qed.

Lemma respects_unlinkSync (path : string) : respects (unlinkSync path).
Proof.
  intros w o w'. unfold unlinkSync.
  destruct (Fs.unlink path (disk w)); intros [= <- <-]; by split_and!.
Qed.

Lemma respects_writeFileSync (path data : string) :
  respects (writeFileSync path data).
Proof.
  intros w o w'. unfold writeFileSync.
  destruct (Fs.write path data (disk w)); intros [= <- <-]; by split_and!.
Qed.

Lemma respects_uuid : respects uuid.
Proof. intros w o w' [= <- <-]. split_and!; cbn; [done..|lia]. Qed.

Lemma respects_unlink_image (url : string) : respects (unlink_image url).
Proof.
  apply respects_bind; [apply respects_existsSync|].
  intros []; [apply respects_unlinkSync|apply respects_ret].
Qed.

Lemma respects_save (c : Collection) : respects (save c).
Proof. destruct c; (apply respects_bind; [by intros w o w' [= <- <-]; apply quiet_refl|]);
  intros w; apply respects_writeFileSync. Qed.

Lemma respects_removeUploaded (stored : list UploadedFile) :
  respects (removeUploaded stored).
Proof.
  apply respects_forEach. intros f.
  apply respects_bind; [apply respects_attempt, respects_unlinkSync|].
  intros _. apply respects_ret.
Qed.

Lemma respects_handleFile (part : Part) : respects (handleFile part).
Proof.
  apply respects_bind; [apply respects_uuid|]. intros tok.
  apply respects_bind; [apply respects_writeFileSync|]. intros _.
  apply respects_ret.
Qed.

Lemma respects_receive (limit : nat) (parts : list Part)
    (stored : list UploadedFile) :
  respects (receive limit parts stored).
Proof.
  revert limit stored. induction parts as [|part rest IH]; intros limit stored;
    cbn [receive].
  - apply respects_ret.
  - destruct limit as [|limit].
    + apply respects_bind; [apply respects_removeUploaded|].
      intros _. apply respects_throw.
    + apply respects_bind; [apply respects_attempt, respects_handleFile|].
      intros [e|f]; [|apply IH].
      apply respects_bind; [apply respects_removeUploaded|].
      intros _. apply respects_throw.
Qed.

Lemma respects_upload (limit : nat) (parts : option (list Part)) :
  respects (upload limit parts).
Proof.
  destruct parts as [ps|]; [|apply respects_ret].
  apply respects_bind; [apply respects_receive|]. intros fs. apply respects_ret.
Qed.

Lemma respects_save_reply (c : Collection) (r : Response) :
  respects (save c;; ret r).
Proof. apply respects_bind; [apply respects_save|]. intros _. apply respects_ret. Qed.

(** What the Update handler leaves in memory, whatever its outcome: the
    record found carries the new title and description, and the new image
    references only if files came with the request and the old ones could
    be removed. *)
Lemma put_project_memory (id : string) (title description : option string)
    (files : option (list UploadedFile)) (w w' : World) (o : outcome Response) :
  put_project_handler id title description files w = (o, w') →
  carouselImages w' = carouselImages w ∧ videos w' = videos w
  ∧ drawn w ≤ drawn w'
  ∧ match list_find (λ p, Project.id p = id) (projects w) with
    | None => w' = w
    | Some (i, p) =>
        projects w' = <[i := apply_fields title description p]> (projects w)
        ∨ (has_files files = true
           ∧ projects w'
             = <[i := Project.set_imageUrls (image_url <$> default [] files)
                        (apply_fields title description p)]> (projects w))
    end.
Proof.
  destruct (list_find _ (projects w)) as [[i p]|] eqn:Hfind.
  2:{ unfold put_project_handler, bind at 1, get. rewrite Hfind.
      intros [= <- <-]. split_and!; done. }
  rewrite (put_project_found _ _ _ _ _ _ _ Hfind).
  set (p1 := apply_fields title description p).
  set (w1 := set_projects _ w).
  intros [(project & w2 & Hin & Hsave)|(e & Hin & _)]%bind_inv.
  - apply (respects_save_reply Projects) in Hsave as (Hp & Hc & Hv & Hd).
    destruct (has_files files).
    + apply bind_inv_Ret in Hin as ([] & w3 & Hloop & Hin).
      apply respects_forEach in Hloop as (Hp3 & Hc3 & Hv3 & Hd3);
        [|apply respects_unlink_image].
      apply bind_inv_Ret in Hin as ([] & w4 & [= <-] & [= <- <-]).
      cbn in *. split_and!; [congruence..|lia|]. right. split; [done|].
      rewrite Hp, Hp3. apply list_insert_insert_eq.
    + injection Hin as <- <-. cbn in *. split_and!; [congruence..|lia|by left].
  - destruct (has_files files); [|done].
    apply bind_inv in Hin as [([] & w3 & _ & Hin)|(e' & Hloop & _)].
    + by apply bind_inv in Hin as [([] & w4 & _ & [=])|(e' & [=] & _)].
    + apply respects_forEach in Hloop as (Hp3 & Hc3 & Hv3 & Hd3);
        [|apply respects_unlink_image].
      cbn in *. split_and!; [congruence..|lia|by left].
Qed.

Lemma upload_has_files (limit : nat) (parts : option (list Part))
    (files : option (list UploadedFile)) (w w' : World) :
  upload limit parts w = (Ret files, w') → has_files files = true →
  no_parts parts = false.
Proof.
  intros Hup Hfiles. destruct (no_parts parts) eqn:Hno; [|done].
  destruct (upload_no_parts limit parts w Hno) as (files' & Hup' & Hnone & _).
  congruence.
Qed.

(** Memory after any Update request, related to memory before. *)
Lemma put_request_memory (id : string) (title description : option string)
    (images : option (list Part)) (w : World) :
  let w' := (handle (PutProject id title description images) w).2 in
  carouselImages w' = carouselImages w ∧ videos w' = videos w
  ∧ drawn w ≤ drawn w'
  ∧ (projects w' = projects w
     ∨ ∃ i p p', projects w !! i = Some p ∧ Project.id p = id
         ∧ projects w' = <[i := p']> (projects w)
         ∧ Project.id p' = Project.id p
         ∧ Project.title p' = (if truthy title then title else Project.title p)
         ∧ Project.description p'
           = (if truthy description then description else Project.description p)
         ∧ (Project.imageUrls p' = Project.imageUrls p ∨ no_parts images = false)).
Proof.
  unfold handle, express, route.
  destruct (bind _ _ w) as [o w'] eqn:Hrun.
  assert ((match o with Ret r => (r, w') | Throw e => (error_handler e, w') end).2
          = w') as -> by by destruct o.
  apply bind_inv in Hrun as [(files & w1 & Hup & Hrun)|(e & Hup & _)].
  2:{ apply respects_upload in Hup as (? & ? & ? & ?). split_and!; auto. }
  pose proof (respects_upload _ _ _ _ _ Hup) as (Hp1 & Hc1 & Hv1 & Hd1).
  apply put_project_memory in Hrun as (Hc & Hv & Hd & Hmem).
  split_and!; [congruence..|lia|].
  rewrite Hp1 in Hmem.
  destruct (list_find _ (projects w)) as [[i p]|] eqn:Hfind.
  2:{ subst w'. auto. }
  apply list_find_Some in Hfind as (Hi & Hid & _).
  right. exists i, p.
  destruct Hmem as [Hmem|[Hfiles Hmem]]; eexists; (split_and!; [done..|exact Hmem| | | |]).
  - apply apply_fields_id.
  - apply apply_fields_title.
  - apply apply_fields_description.
  - left. apply apply_fields_imageUrls.
  - apply apply_fields_id.
  - apply apply_fields_title.
  - apply apply_fields_description.
  - right. by eapply upload_has_files.
Qed.

Lemma kept_refl (title description : option string)
    (images : option (list Part)) (p : Project.t) :
  kept title description images p p.
Proof. by split_and!. Qed.

Lemma put_request_kept (id : string) (title description : option string)
    (images : option (list Part)) (w : World) :
  Forall2 (kept title description images) (projects w)
    (projects (handle (PutProject id title description images) w).2).
Proof.
  destruct (put_request_memory id title description images w)
    as (_ & _ & _ & [->|(i & p & p' & Hi & _ & -> & Hid & Ht & Hd & Himg)]).
  - apply Forall2_same_length_lookup_2; [done|].
    intros j x y ? ?. simplify_eq. apply kept_refl.
  - rewrite <- (list_insert_id _ _ _ Hi) at 1.
    apply Forall2_insert.
    + apply Forall2_same_length_lookup_2; [done|].
      intros j x y ? ?. simplify_eq. apply kept_refl.
    + split_and!; [done|..].
      * intros Hf. by rewrite Ht, Hf.
      * intros Hf. by rewrite Hd, Hf.
      * intros Hf. destruct Himg; congruence.
Qed.

(** C4. An Update of an existing Project that brings only a non-empty
    title (description undefined or empty, no file part) puts the new
    title in the record found and leaves its description, image
    references and identifier as they were; every other record, the other
    two collections and every file other than the projects JSON file are
    unchanged, and with that file writable the reply is 200 with the
    updated record and the collection is persisted.  For every Update
    request whatsoever, no record's identifier changes and a field for
    which the request has no non-empty value stays as it was. *)
Theorem partial_update (id t : string) (description : option string)
    (images : option (list Part)) (w : World) (i : nat) (p : Project.t) :
  t ≠ EmptyString → truthy description = false → no_parts images = true →
  list_find (λ p, Project.id p = id) (projects w) = Some (i, p) →
  let out := handle (PutProject id (Some t) description images) w in
  (∃ p', projects out.2 !! i = Some p'
     ∧ Project.title p' = Some t
     ∧ Project.description p' = Project.description p
     ∧ Project.imageUrls p' = Project.imageUrls p
     ∧ Project.id p' = Project.id p
     ∧ (Fs.write_denied (disk w) projectsDbPath = false →
          out.1 = updated_reply p' ∧ persisted Projects out.2))
  ∧ length (projects out.2) = length (projects w)
  ∧ (∀ j, j ≠ i → projects out.2 !! j = projects w !! j)
  ∧ carouselImages out.2 = carouselImages w ∧ videos out.2 = videos w
  ∧ (∀ path, path ≠ projectsDbPath →
       Fs.files (disk out.2) !! path = Fs.files (disk w) !! path)
  ∧ (∀ id' title' description' images' w0,
       Forall2 (kept title' description' images') (projects w0)
         (projects (handle (PutProject id' title' description' images') w0).2)).
Proof.
  intros Ht Hd Hno Hfind out.
  destruct (put_project_no_files id (Some t) description images w i p Hno Hfind)
    as (Hmem & Hc & Hv & Hdisk & Hok).
  fold out in Hmem, Hc, Hv, Hdisk, Hok.
  assert (apply_fields (Some t) description p = Project.set_title (Some t) p)
    as Hp.
  { unfold apply_fields. rewrite Hd. cbn [truthy].
    apply String.eqb_neq in Ht. by rewrite Ht. }
  rewrite Hp in Hmem, Hok.
  apply list_find_Some in Hfind as (Hi & _ & _).
  split_and!; try done.
  - exists (Project.set_title (Some t) p). rewrite Hmem.
    split_and!; try done. apply list_lookup_insert_eq. by eapply lookup_lt_Some.
  - by rewrite Hmem, length_insert.
  - intros j Hj. rewrite Hmem. by apply list_lookup_insert_ne.
  - intros. apply put_request_kept.
Qed.

Lemma swept_elem_of (urls : list string) (w w' : World) (o : outcome unit)
    (unlinked : list string) (path : string) :
  swept urls w o w' unlinked → path ∈ unlinked → path ∈ localPath <$> urls.
Proof.
  intros Hsw Hin. eapply elem_of_submseteq; [done|].
  apply sublist_submseteq, (swept_sublist _ _ _ _ _ Hsw).
Qed.

(** When the loop ran to its end, it removed exactly the referenced
    files that were there. *)
Lemma swept_complete (urls : list string) (w w' : World)
    (unlinked : list string) (path : string) :
  swept urls w (Ret ()) w' unlinked →
  path ∈ unlinked
  ↔ path ∈ localPath <$> urls ∧ is_Some (Fs.files (disk w) !! path).
Proof.
  intros Hsw. split.
  - intros Hin. split; [by eapply swept_elem_of|].
    by apply (swept_present _ _ _ _ _ Hsw).
  - intros [(url & -> & Hurl)%list_elem_of_fmap Hsome].
    pose proof (swept_outcome _ _ _ _ _ Hsw url Hurl) as Hgone.
    rewrite (swept_files _ _ _ _ _ Hsw) in Hgone.
    destruct (decide (localPath url ∈ unlinked)); [done|].
    rewrite Hgone in Hsome. by destruct Hsome.
Qed.

(** C5. An Update of an existing Project that comes with files, when
    the operating system refuses none of the unlinks and the JSON file is
    writable, does the following in this order and nothing else to the
    disk: (a) it unlinks the files of the record's current image
    references, each one that is on disk once and in reference order,
    skipping those that are absent; (b) it gives the record the references
    built from the new files; (c) it writes the whole collection, new
    references included, to the JSON file.  It answers 200 with the
    updated record. *)
Theorem update_replaces_images (id : string) (title description : option string)
    (files : list UploadedFile) (w : World) (i : nat) (p : Project.t) :
  files ≠ [] →
  list_find (λ p, Project.id p = id) (projects w) = Some (i, p) →
  (∀ url, url ∈ Project.imageUrls p →
     is_Some (Fs.files (disk w) !! localPath url) →
     Fs.unlink_denied (disk w) (localPath url) = false) →
  Fs.write_denied (disk w) projectsDbPath = false →
  let p' := Project.set_imageUrls (image_url <$> files)
              (apply_fields title description p) in
  ∃ w' unlinked,
    put_project_handler id title description (Some files) w
      = (Ret (updated_reply p'), w')
    ∧ projects w' = <[i := p']> (projects w)
    ∧ log w'
      = log w ++ (Fs.Unlink <$> unlinked)
          ++ [Fs.Write projectsDbPath
                (JSON_stringify (JArray (Project.to_json <$> projects w')))]
    ∧ NoDup unlinked
    ∧ sublist unlinked (localPath <$> Project.imageUrls p)
    ∧ (∀ path, path ∈ unlinked
         ↔ path ∈ localPath <$> Project.imageUrls p
           ∧ is_Some (Fs.files (disk w) !! path))
    ∧ (∀ path, path ≠ projectsDbPath →
         Fs.files (disk w') !! path
         = if decide (path ∈ localPath <$> Project.imageUrls p) then None
           else Fs.files (disk w) !! path)
    ∧ persisted Projects w'.
Proof.
  intros Hfiles Hfind Hunlink Hwr p'.
  rewrite (put_project_found _ _ _ _ _ _ _ Hfind).
  destruct files as [|file files]; [done|]. cbn [has_files].
  rewrite apply_fields_imageUrls.
  set (w1 := set_projects _ w).
  destruct (forEach unlink_image (Project.imageUrls p) w1) as [o w2] eqn:Hloop.
  destruct (forEach_unlink_image _ _ _ _ Hloop) as [unlinked Hsw].
  destruct o as [[]|e].
  2:{ destruct (swept_outcome _ _ _ _ _ Hsw) as (url & Hin & _ & Hsome & Hden).
      cbn in Hsome, Hden. by rewrite (Hunlink url Hin Hsome) in Hden. }
  pose proof (swept_write_denied _ _ _ _ _ Hsw) as Hwr2. cbn in Hwr2.
  erewrite bind_Ret; cycle 1.
  { erewrite bind_Ret by exact Hloop. cbn beta.
    erewrite bind_Ret by reflexivity. reflexivity. }
  cbn beta.
  erewrite bind_Ret; cycle 1.
  { apply (save_ok Projects). cbn. by rewrite Hwr2. }
  assert (projects w2 = <[i := apply_fields title description p]> (projects w))
    as Hp2 by apply (swept_projects _ _ _ _ _ Hsw).
  eexists _, unlinked. split; [reflexivity|]. cbn.
  rewrite Hp2, list_insert_insert_eq.
  split_and!.
  - done.
  - rewrite (swept_log _ _ _ _ _ Hsw). cbn. by rewrite <- app_assoc.
  - apply (swept_nodup _ _ _ _ _ Hsw).
  - apply (swept_sublist _ _ _ _ _ Hsw).
  - intros path. apply (swept_complete _ _ _ _ _ Hsw).
  - intros path Hne. rewrite lookup_insert_ne by done.
    rewrite (swept_files _ _ _ _ _ Hsw). cbn.
    destruct (decide (path ∈ localPath <$> Project.imageUrls p)) as [Hin|Hnot].
    + case_decide; [done|].
      apply list_elem_of_fmap in Hin as (url & -> & Hurl).
      pose proof (swept_outcome _ _ _ _ _ Hsw url Hurl) as Hgone.
      rewrite (swept_files _ _ _ _ _ Hsw) in Hgone. by rewrite decide_False in Hgone.
    + rewrite decide_False; [done|]. intros Hin. by apply Hnot, (swept_elem_of _ _ _ _ _ _ Hsw).
  - split; cbn; [apply lookup_insert_eq|apply last_snoc].
Qed.

(** ** C1: a file that cannot be unlinked *)

Lemma blocked_throws (urls : list string) (w w' : World) (o : outcome unit) :
  blocked urls w → forEach unlink_image urls w = (o, w') →
  ∃ path unlinked, o = Throw (FsError Fs.EACCES "unlink" path)
    ∧ swept urls w o w' unlinked.
Proof.
  intros (url & Hin & Hsome & Hden) Hloop.
  destruct (forEach_unlink_image _ _ _ _ Hloop) as [unlinked Hsw].
  destruct o as [[]|e].
  - pose proof (swept_outcome _ _ _ _ _ Hsw url Hin) as Hgone.
    rewrite (swept_files _ _ _ _ _ Hsw) in Hgone.
    destruct (decide (localPath url ∈ unlinked)) as [Hun|_].
    + apply (swept_present _ _ _ _ _ Hsw) in Hun as [_ Hfree]. congruence.
    + rewrite Hgone in Hsome. by destruct Hsome.
  - destruct (swept_outcome _ _ _ _ _ Hsw) as (url' & _ & -> & _). eauto.
Qed.

Lemma fmap_insert_same {A B : Type} (f : A → B) (l : list A) (i : nat) (x y : A) :
  l !! i = Some x → f y = f x → f <$> <[i := y]> l = f <$> l.
Proof.
  intros Hi Hf. rewrite list_fmap_insert, Hf. apply list_insert_id.
  by rewrite list_lookup_fmap, Hi.
Qed.

(** C1 (as the code has it). When one of the files an Update or Delete
    sets out to remove is on disk and cannot be unlinked, the exception
    of [unlinkSync] reaches the error handler: the reply is 500 Internal
    Server Error, no record is removed, no image reference is replaced,
    and the collection is not written; the disk effects are the unlinks
    done before the failure. *)
Theorem cleanup_failure_surfaces (op : FileOp) (w : World) (urls : list string) :
  old_refs op w = Some urls → blocked urls w →
  ∃ w' unlinked,
    express (run_op op) w = (error_reply 500 "Internal Server Error", w')
    ∧ ids Projects w' = ids Projects w
    ∧ Project.imageUrls <$> projects w' = Project.imageUrls <$> projects w
    ∧ carouselImages w' = carouselImages w
    ∧ videos w' = videos w
    ∧ log w' = log w ++ (Fs.Unlink <$> unlinked)
    ∧ sublist unlinked (localPath <$> urls).
Proof.
  intros Hrefs Hblocked.
  destruct op as [id title description files|id|id]; cbn [old_refs run_op] in *.
  - case_bool_decide as Hfiles; [done|].
    destruct (list_find _ (projects w)) as [[i p]|] eqn:Hfind; simplify_eq/=.
    unfold express. rewrite (put_project_found _ _ _ _ _ _ _ Hfind).
    destruct files as [|file files]; [done|]. cbn [has_files].
    rewrite apply_fields_imageUrls.
    set (w1 := set_projects _ w).
    destruct (forEach unlink_image (Project.imageUrls p) w1) as [o w2] eqn:Hloop.
    assert (blocked (Project.imageUrls p) w1) as Hblocked1 by exact Hblocked.
    destruct (blocked_throws _ _ _ _ Hblocked1 Hloop) as (path & unlinked & -> & Hsw).
    erewrite bind_Throw; cycle 1.
    { erewrite bind_Throw by exact Hloop. reflexivity. }
    apply list_find_Some in Hfind as (Hi & _ & _).
    exists w2, unlinked. split_and!; try done.
    + cbn. rewrite (swept_projects _ _ _ _ _ Hsw). cbn.
      apply (fmap_insert_same _ _ _ p); [done|apply apply_fields_id].
    + rewrite (swept_projects _ _ _ _ _ Hsw). cbn.
      apply (fmap_insert_same _ _ _ p); [done|apply apply_fields_imageUrls].
    + apply (swept_carousel _ _ _ _ _ Hsw).
    + apply (swept_videos _ _ _ _ _ Hsw).
    + apply (swept_log _ _ _ _ _ Hsw).
    + apply (swept_sublist _ _ _ _ _ Hsw).
  - destruct (list_find _ (projects w)) as [[i p]|] eqn:Hfind; simplify_eq/=.
    unfold express, delete_project_handler, bind at 1, get. rewrite Hfind.
    destruct (forEach unlink_image (Project.imageUrls p) w) as [o w2] eqn:Hloop.
    destruct (blocked_throws _ _ _ _ Hblocked Hloop) as (path & unlinked & -> & Hsw).
    erewrite bind_Throw by exact Hloop.
    exists w2, unlinked. split_and!; try done.
    + cbn. by rewrite (swept_projects _ _ _ _ _ Hsw).
    + by rewrite (swept_projects _ _ _ _ _ Hsw).
    + apply (swept_carousel _ _ _ _ _ Hsw).
    + apply (swept_videos _ _ _ _ _ Hsw).
    + apply (swept_log _ _ _ _ _ Hsw).
    + apply (swept_sublist _ _ _ _ _ Hsw).
  - destruct (list_find _ (carouselImages w)) as [[i c]|] eqn:Hfind; simplify_eq/=.
    unfold express, delete_carousel_handler, bind at 1, get. rewrite Hfind.
    destruct (forEach unlink_image [CarouselImage.url c] w) as [o w2] eqn:Hloop.
    destruct (blocked_throws _ _ _ _ Hblocked Hloop) as (path & unlinked & -> & Hsw).
    assert (unlink_image (CarouselImage.url c) w
            = (Throw (FsError Fs.EACCES "unlink" path), w2)) as Hone.
    { revert Hloop. cbn [forEach]. unfold bind.
      by destruct (unlink_image _ w) as [[[]|e] w3]; intros [= <- <-]. }
    erewrite bind_Throw by exact Hone.
    exists w2, unlinked. split_and!; try done.
    + cbn. by rewrite (swept_projects _ _ _ _ _ Hsw).
    + by rewrite (swept_projects _ _ _ _ _ Hsw).
    + apply (swept_carousel _ _ _ _ _ Hsw).
    + apply (swept_videos _ _ _ _ _ Hsw).
    + apply (swept_log _ _ _ _ _ Hsw).
    + apply (swept_sublist _ _ _ _ _ Hsw).
Qed.

(** ** C9: identifiers *)

Lemma quiet_ids (c : Collection) (w w' : World) : quiet w w' → ids c w' = ids c w.
Proof. intros (Hp & Hc & Hv & _). destruct c; cbn; congruence. Qed.

Lemma quiet_step (w w' : World) : quiet w w' → step_rel w w'.
Proof.
  intros Hq. split; [apply Hq|]. intros c. left. by rewrite (quiet_ids c w w').
Qed.

Lemma quiet_step_trans (w w1 w' : World) :
  quiet w w1 → step_rel w1 w' → step_rel w w'.
Proof.
  intros Hq [Hd Hstep]. pose proof Hq as (_ & _ & _ & Hd1).
  split; [lia|]. intros c. rewrite <- (quiet_ids c w w1 Hq).
  destruct (Hstep c) as [?|[?|(k & ? & ?)]]; [by left|by right; left|].
  right; right. exists k. split; [lia|done].
Qed.

Lemma step_quiet_trans (w w1 w' : World) :
  step_rel w w1 → quiet w1 w' → step_rel w w'.
Proof.
  intros [Hd Hstep] Hq. pose proof Hq as (_ & _ & _ & Hd1).
  split; [lia|]. intros c. rewrite (quiet_ids c w1 w' Hq).
  destruct (Hstep c) as [?|[?|(k & ? & ?)]]; [by left|by right; left|].
  right; right. exists k. split; [lia|done].
Qed.

Lemma post_project_step (title description : option string)
    (files : option (list UploadedFile)) (w w' : World) (o : outcome Response) :
  post_project_handler title description files w = (o, w') → step_rel w w'.
Proof.
  unfold post_project_handler. destruct (negb (has_files files)).
  { intros [= <- <-]. apply quiet_step, quiet_refl. }
  unfold bind at 1, uuid. unfold bind at 1, modify.
  intros Hsave%(respects_save_reply Projects).
  eapply step_quiet_trans; [|exact Hsave].
  split; cbn; [lia|]. intros [| |]; cbn; [|by left..].
  right; right. exists (drawn w). split; [lia|]. by rewrite fmap_app.
Qed.

Lemma post_carousel_step (file : option UploadedFile) (w w' : World)
    (o : outcome Response) :
  post_carousel_handler file w = (o, w') → step_rel w w'.
Proof.
  unfold post_carousel_handler. destruct file as [file|].
  2:{ intros [= <- <-]. apply quiet_step, quiet_refl. }
  unfold bind at 1, uuid. unfold bind at 1, modify.
  intros Hsave%(respects_save_reply CarouselImages).
  eapply step_quiet_trans; [|exact Hsave].
  split; cbn; [lia|]. intros [| |]; cbn; [by left| |by left].
  right; right. exists (drawn w). split; [lia|]. by rewrite fmap_app.
Qed.

Lemma post_video_step (url title : option string) (w w' : World)
    (o : outcome Response) :
  post_video_handler url title w = (o, w') → step_rel w w'.
Proof.
  unfold post_video_handler. destruct (negb (truthy url) || negb (truthy title)).
  { intros [= <- <-]. apply quiet_step, quiet_refl. }
  destruct (negb (URL_parses _)).
  { intros [= <- <-]. apply quiet_step, quiet_refl. }
  unfold bind at 1, uuid. unfold bind at 1, modify.
  intros Hsave%(respects_save_reply Videos).
  eapply step_quiet_trans; [|exact Hsave].
  split; cbn; [lia|]. intros [| |]; cbn; [by left..|].
  right; right. exists (drawn w). split; [lia|]. by rewrite fmap_app.
Qed.

Lemma put_project_step (id : string) (title description : option string)
    (files : option (list UploadedFile)) (w w' : World) (o : outcome Response) :
  put_project_handler id title description files w = (o, w') → step_rel w w'.
Proof.
  intros (Hc & Hv & Hd & Hmem)%put_project_memory. split; [done|].
  intros c. left. destruct c; cbn; [|by rewrite Hc|by rewrite Hv].
  destruct (list_find _ (projects w)) as [[i p]|] eqn:Hfind; [|by subst].
  apply list_find_Some in Hfind as (Hi & _ & _).
  destruct Hmem as [->|[_ ->]]; apply (fmap_insert_same _ _ _ p); try done;
    cbn; apply apply_fields_id.
Qed.

Lemma delete_project_step (id : string) (w w' : World) (o : outcome Response) :
  delete_project_handler id w = (o, w') → step_rel w w'.
Proof.
  unfold delete_project_handler, bind at 1, get.
  destruct (list_find _ (projects w)) as [[i p]|].
  2:{ intros [= <- <-]. apply quiet_step, quiet_refl. }
  intros [([] & w1 & Hloop & Hrun)|(e & Hloop & _)]%bind_inv;
    apply respects_forEach in Hloop; try apply respects_unlink_image.
  2:{ by apply quiet_step. }
  eapply quiet_step_trans; [exact Hloop|].
  revert Hrun. unfold bind at 1, modify.
  intros Hsave%(respects_save_reply Projects).
  eapply step_quiet_trans; [|exact Hsave].
  split; cbn; [lia|]. intros c.
  destruct c; cbn; [|by left..]. right; left. exists i. apply list_fmap_delete.
Qed.

Lemma delete_carousel_step (id : string) (w w' : World) (o : outcome Response) :
  delete_carousel_handler id w = (o, w') → step_rel w w'.
Proof.
  unfold delete_carousel_handler, bind at 1, get.
  destruct (list_find _ (carouselImages w)) as [[i p]|].
  2:{ intros [= <- <-]. apply quiet_step, quiet_refl. }
  intros [([] & w1 & Hloop & Hrun)|(e & Hloop & _)]%bind_inv;
    apply respects_unlink_image in Hloop.
  2:{ by apply quiet_step. }
  eapply quiet_step_trans; [exact Hloop|].
  revert Hrun. unfold bind at 1, modify.
  intros Hsave%(respects_save_reply CarouselImages).
  eapply step_quiet_trans; [|exact Hsave].
  split; cbn; [lia|]. intros c.
  destruct c; cbn; [by left| |by left]. right; left. exists i. apply list_fmap_delete.
Qed.

Lemma delete_video_step (id : string) (w w' : World) (o : outcome Response) :
  delete_video_handler id w = (o, w') → step_rel w w'.
Proof.
  unfold delete_video_handler, bind at 1, get.
  destruct (list_find _ (videos w)) as [[i p]|].
  2:{ intros [= <- <-]. apply quiet_step, quiet_refl. }
  unfold bind at 1, modify.
  intros Hsave%(respects_save_reply Videos).
  eapply step_quiet_trans; [|exact Hsave].
  split; cbn; [lia|]. intros c.
  destruct c; cbn; [by left..|]. right; left. exists i. apply list_fmap_delete.
Qed.

Lemma upload_then_step {A : Type} (limit : nat) (parts : option (list Part))
    (k : option (list UploadedFile) → M A) (w w' : World) (o : outcome A) :
  (∀ files w1 o' w2, k files w1 = (o', w2) → step_rel w1 w2) →
  bind (upload limit parts) k w = (o, w') → step_rel w w'.
Proof.
  intros Hk [(files & w1 & Hup & Hrun)|(e & Hup & _)]%bind_inv;
    apply respects_upload in Hup.
  - eapply quiet_step_trans; [exact Hup|]. by eapply Hk.
  - by apply quiet_step.
Qed.

Lemma route_step (rq : Request) (w w' : World) (o : outcome Response) :
  route rq w = (o, w') → step_rel w w'.
Proof.
  destruct rq; cbn [route].
  - intros [= <- <-]. apply quiet_step, quiet_refl.
  - apply upload_then_step. intros files ? ? ?. apply post_project_step.
  - apply upload_then_step. intros files ? ? ?. apply put_project_step.
  - apply delete_project_step.
  - intros [= <- <-]. apply quiet_step, quiet_refl.
  - apply upload_then_step. intros files ? ? ?. apply post_carousel_step.
  - apply delete_carousel_step.
  - intros [= <- <-]. apply quiet_step, quiet_refl.
  - apply post_video_step.
  - apply delete_video_step.
Qed.

Lemma handle_step (rq : Request) (w : World) : step_rel w (handle rq w).2.
Proof.
  unfold handle, express. destruct (route rq w) as [o w'] eqn:Hrun.
  apply route_step in Hrun. by destruct o.
Qed.

Lemma issued_cons (c : Collection) (rq : Request) (rqs : list Request) (w : World) :
  issued c (rq :: rqs) w = issued c rqs (handle rq w).2
  ∨ ∃ k, drawn w ≤ k < drawn (handle rq w).2
      ∧ issued c (rq :: rqs) w = uuidv4 k :: issued c rqs (handle rq w).2.
Proof.
  cbn [issued]. destruct (handle_step rq w) as [_ Hstep].
  destruct (Hstep c) as [->|[[i ->]|(k & Hk & ->)]].
  - left. by rewrite drop_all.
  - left. rewrite drop_ge; [done|].
    clear. revert i. induction (ids c w) as [|x l IH]; intros [|i]; cbn; [lia..|].
    apply le_n_S, IH.
  - right. exists k. split; [done|]. by rewrite drop_app_length.
Qed.

(** Every identifier given out in a session is a token the generator
    returned during that session. *)
Lemma issued_drawn (c : Collection) (rqs : list Request) (w : World) (x : string) :
  x ∈ issued c rqs w → ∃ k, drawn w ≤ k ∧ x = uuidv4 k.
Proof.
  revert w. induction rqs as [|rq rqs IH]; intros w.
  { by intros ?%elem_of_nil. }
  pose proof (handle_step rq w) as [Hd _].
  destruct (issued_cons c rq rqs w) as [->|(k & Hk & ->)].
  - intros (k & ? & ->)%IH. exists k. split; [lia|done].
  - intros [->|(k' & ? & ->)%IH]%elem_of_cons.
    + exists k. split; [lia|done].
    + exists k'. split; [lia|done].
Qed.

Lemma delete_sublist {A : Type} (l : list A) (i : nat) : sublist (delete i l) l.
Proof.
  revert i. induction l as [|x l IH]; intros [|i]; cbn; [done| |by constructor..].
  constructor.
Qed.

Lemma step_well_identified (w w' : World) :
  Inj (=) (=) uuidv4 → step_rel w w' → well_identified w → well_identified w'.
Proof.
  intros Hinj [Hd Hstep] Hw c. destruct (Hw c) as [Hnd Hold].
  destruct (Hstep c) as [->|[[i ->]|(k & Hk & ->)]].
  - split; [done|]. intros x (k & ? & ->)%Hold. exists k. split; [lia|done].
  - pose proof (delete_sublist (ids c w) i) as Hsub. split.
    + by eapply sublist_NoDup.
    + intros x Hx.
      assert (x ∈ ids c w) as (k & ? & ->)%Hold.
      { eapply elem_of_submseteq; [done|by apply sublist_submseteq]. }
      exists k. split; [lia|done].
  - split.
    + apply NoDup_app. split_and!; [done| |apply NoDup_singleton].
      intros x (k' & Hk' & ->)%Hold Heq%list_elem_of_singleton.
      apply Hinj in Heq. lia.
    + intros x [(k' & ? & ->)%Hold|Heq%list_elem_of_singleton]%elem_of_app.
      * exists k'. split; [lia|done].
      * exists k. split; [lia|done].
Qed.

Lemma serve_well_identified (rqs : list Request) (w : World) :
  Inj (=) (=) uuidv4 → well_identified w → well_identified (serve rqs w).
Proof.
  intros Hinj. revert w. induction rqs as [|rq rqs IH]; intros w Hw; [done|].
  apply IH. eapply step_well_identified; [done|apply handle_step|done].
Qed.

(** C9. If the generator behind [uuidv4] never returns the same token
    twice, then in any session from any state the identifiers given out in
    one collection are pairwise distinct, records deleted since included
    (so a Create after a Delete gets a new identifier whatever its
    content); no request ever changes the identifier of a record: the
    identifiers of a collection stay as they are, lose one entry, or gain
    a new one at the end; and a collection whose identifiers were
    distinct tokens of the generator when the session began (an empty one,
    say) has pairwise distinct identifiers after it. *)
Theorem identifiers_unique (c : Collection) (rqs : list Request) (w : World) :
  Inj (=) (=) uuidv4 →
  NoDup (issued c rqs w)
  ∧ (∀ rq w0, step_rel w0 (handle rq w0).2)
  ∧ (well_identified w → NoDup (ids c (serve rqs w))).
Proof.
  intros Hinj. split_and!.
  - revert w. induction rqs as [|rq rqs IH]; intros w; [constructor|].
    destruct (issued_cons c rq rqs w) as [->|(k & Hk & ->)]; [apply IH|].
    constructor; [|apply IH].
    intros (k' & Hk' & Heq)%issued_drawn. apply Hinj in Heq. lia.
  - intros. apply handle_step.
  - intros Hw. by apply (serve_well_identified rqs w Hinj Hw c).
Qed.

(** ** C2: files and records *)

(** C2 (where the code departs from it). An Update whose identifier
    matches no record, sent with one file: multer has stored the file in
    the upload directory before the handler runs, the handler answers 404
    and returns, and nothing removes the file.  The arrays are unchanged,
    so if no record referenced that path before, the upload directory now
    holds a file that no record references: the file invariant does not
    hold after the operation. *)
Theorem update_unknown_id_leaves_orphan (id : string)
    (title description : option string) (part : Part) (w : World) :
  let name := uuidv4 (drawn w) +:+ extname (originalname part) in
  let stored := path_join uploadDir name in
  (id ∉ ids Projects w) →
  file_name name = true →
  Fs.write_denied (disk w) stored = false →
  (stored ∉ referenced w) →
  let out := handle (PutProject id title description (Some [part])) w in
  out.1 = error_reply 404 "Project not found"
  ∧ projects out.2 = projects w
  ∧ carouselImages out.2 = carouselImages w
  ∧ Fs.files (disk out.2) !! stored = Some (content part)
  ∧ in_uploads stored
  ∧ (stored ∉ referenced out.2)
  ∧ ¬ files_consistent out.2.
Proof.
  intros name stored Hid Hname Hwr Hfresh out.
  assert (handle (PutProject id title description (Some [part])) w
          = (error_reply 404 "Project not found",
             set_disk (Fs.with_files (disk w)
                         (<[stored := content part]> (Fs.files (disk w))))
                      (Fs.Write stored (content part))
                      (set_drawn (S (drawn w)) w))) as Hrun.
  { unfold handle, express, route, upload. cbn [receive].
    erewrite bind_Ret; cycle 1.
    { erewrite bind_Ret; cycle 1.
      { erewrite bind_Ret; cycle 1.
        { unfold attempt, handleFile. erewrite bind_Ret by reflexivity. cbn beta.
          erewrite bind_Ret by (by apply writeFileSync_ok). reflexivity. }
        reflexivity. }
      reflexivity. }
    unfold put_project_handler, bind at 1, get. cbn [projects set_disk set_drawn].
    by rewrite (list_find_absent _ _ _ Hid). }
  subst out. rewrite Hrun. cbn [fst snd].
  assert (in_uploads stored) as Hin by by exists name.
  split_and!; try done.
  - cbn. apply lookup_insert_eq.
  - intros [_ Horphan]. apply Hfresh. apply (Horphan stored); [done|].
    cbn. rewrite lookup_insert_eq. eauto.
Qed.


(** ** Beyond the claims: the upload middleware *)

Lemma handleFile_ok (part : Part) (w : World) :
  Fs.write_denied (disk w)
    (path_join uploadDir (uuidv4 (drawn w) +:+ extname (originalname part)))
  = false →
  handleFile part w =
    (Ret (mkFile (uuidv4 (drawn w) +:+ extname (originalname part))),
     set_disk
       (Fs.with_files (disk w)
          (<[path_join uploadDir
               (uuidv4 (drawn w) +:+ extname (originalname part))
             := content part]> (Fs.files (disk w))))
       (Fs.Write
          (path_join uploadDir (uuidv4 (drawn w) +:+ extname (originalname part)))
          (content part))
       (set_drawn (S (drawn w)) w)).
Proof.
  intros Hwr. unfold handleFile.
  erewrite bind_Ret by reflexivity. cbn beta.
  by erewrite bind_Ret by (by apply writeFileSync_ok).
Qed.

Lemma receive_ok (parts : list Part) (limit : nat) (stored : list UploadedFile)
    (w : World) :
  length parts ≤ limit →
  (∀ path, path ∈ upload_paths (drawn w) parts →
     Fs.write_denied (disk w) path = false) →
  ∃ w', receive limit parts stored w
        = (Ret (stored ++ (mkFile <$> names_from (drawn w) parts)), w')
    ∧ projects w' = projects w ∧ carouselImages w' = carouselImages w
    ∧ videos w' = videos w
    ∧ drawn w' = drawn w + length parts
    ∧ Fs.unlink_denied (disk w') = Fs.unlink_denied (disk w)
    ∧ Fs.write_denied (disk w') = Fs.write_denied (disk w)
    ∧ log w'
      = log w ++ zip_with Fs.Write (upload_paths (drawn w) parts) (content <$> parts)
    ∧ Fs.files (disk w') = stored_files (drawn w) parts (Fs.files (disk w)).
Proof.
  revert limit stored w.
  induction parts as [|part rest IH]; intros limit stored w Hlen Hwr.
  { exists w. cbn. rewrite !app_nil_r. split_and!; first [done|lia]. }
  destruct limit as [|limit]; [cbn in Hlen; lia|].
  cbn [receive].
  assert (Fs.write_denied (disk w)
            (path_join uploadDir (uuidv4 (drawn w) +:+ extname (originalname part)))
          = false) as Hwr0.
  { apply Hwr. unfold upload_paths. cbn. apply elem_of_cons. auto. }
  erewrite bind_Ret; cycle 1.
  { unfold attempt. by rewrite (handleFile_ok part w Hwr0). }
  cbn beta iota.
  set (w1 := set_disk _ _ _).
  destruct (IH limit (stored ++ [mkFile (uuidv4 (drawn w)
                                         +:+ extname (originalname part))]) w1)
    as (w' & Hrun & Hp & Hc & Hv & Hd & Hud & Hwd & Hlog & Hfiles).
  { cbn in Hlen. lia. }
  { intros path Hin. apply Hwr. unfold upload_paths in *. cbn.
    apply elem_of_cons. auto. }
  exists w'. rewrite Hrun. cbn in *.
  split_and!; try done.
  - by rewrite <- app_assoc.
  - lia.
  - by rewrite Hlog, <- app_assoc.
Qed.

Lemma stored_files_other (n : nat) (parts : list Part) (m : gmap string string)
    (path : string) :
  path ∉ upload_paths n parts → stored_files n parts m !! path = m !! path.
Proof.
  unfold stored_files, upload_paths. revert n m.
  induction parts as [|part rest IH]; intros n m Hnot; [done|].
  cbn in *. rewrite IH.
  - apply lookup_insert_ne. intros <-. apply Hnot, elem_of_cons. auto.
  - intros Hin. apply Hnot, elem_of_cons. auto.
Qed.

Lemma stored_files_lookup (n : nat) (parts : list Part) (m : gmap string string)
    (k : nat) (part : Part) (path : string) :
  NoDup (upload_paths n parts) →
  upload_paths n parts !! k = Some path → parts !! k = Some part →
  stored_files n parts m !! path = Some (content part).
Proof.
  revert n m k. induction parts as [|part0 rest IH]; intros n m k Hnd Hk Hpart;
    [done|].
  apply NoDup_cons in Hnd as [Hfresh Hnd].
  destruct k as [|k]; cbn in Hk, Hpart; simplify_eq.
  - change (stored_files (S n) rest
              (<[path_join uploadDir (uuidv4 n +:+ extname (originalname part))
                 := content part]> m)
            !! path_join uploadDir (uuidv4 n +:+ extname (originalname part))
            = Some (content part)).
    rewrite stored_files_other by done. apply lookup_insert_eq.
  - by apply (IH (S n) _ k).
Qed.

(** X1. Whatever the generated file name, the path that Update and
    Delete compute from the reference Create built for it is
    [uploads/<filename>] under [__dirname]: [replace] cuts exactly the
    base address off the front. *)
Theorem reference_leads_back (file : UploadedFile) :
  replace_first base (image_url file) = "uploads/" +:+ filename file
  ∧ localPath (image_url file)
    = path_join dirname ("uploads/" +:+ filename file).
Proof.
  unfold localPath, image_url. by rewrite replace_first_app.
Qed.

(** X2. An upload within the route's limit whose writes are not
    refused stores the parts in order, each under the next token of the
    generator followed by the extension of its original name, inside the
    upload directory; it hands those names to the handler, draws one
    token per part, touches no other file and none of the arrays, and
    when the generated paths are distinct each holds its part's
    content. *)
Theorem upload_stores_files (limit : nat) (parts : list Part) (w : World) :
  length parts ≤ limit →
  (∀ path, path ∈ upload_paths (drawn w) parts →
     Fs.write_denied (disk w) path = false) →
  ∃ w', upload limit (Some parts) w
        = (Ret (Some (mkFile <$> names_from (drawn w) parts)), w')
    ∧ projects w' = projects w ∧ carouselImages w' = carouselImages w
    ∧ videos w' = videos w
    ∧ drawn w' = drawn w + length parts
    ∧ log w'
      = log w ++ zip_with Fs.Write (upload_paths (drawn w) parts) (content <$> parts)
    ∧ (∀ path, path ∉ upload_paths (drawn w) parts →
         Fs.files (disk w') !! path = Fs.files (disk w) !! path)
    ∧ (NoDup (upload_paths (drawn w) parts) →
       ∀ k path part,
         upload_paths (drawn w) parts !! k = Some path → parts !! k = Some part →
         Fs.files (disk w') !! path = Some (content part)).
Proof.
  intros Hlen Hwr.
  destruct (receive_ok parts limit [] w Hlen Hwr)
    as (w' & Hrun & Hp & Hc & Hv & Hd & _ & _ & Hlog & Hfiles).
  exists w'. unfold upload. erewrite bind_Ret by exact Hrun.
  split_and!; try done.
  - intros path Hnot. rewrite Hfiles. by apply stored_files_other.
  - intros Hnd k path part Hk Hpart. rewrite Hfiles.
    by eapply stored_files_lookup.
Qed.

Lemma post_project_state (title description : option string)
    (files : list UploadedFile) (w : World) :
  files ≠ [] →
  Fs.write_denied (disk w) projectsDbPath = false →
  post_project_handler title description (Some files) w
  = (Ret (mkResponse 201
            (Project.to_json (new_project title description files w))),
     set_disk
       (Fs.with_files (disk w)
          (<[projectsDbPath :=
               JSON_stringify
                 (JArray (Project.to_json
                            <$> projects w
                                ++ [new_project title description files w]))]>
             (Fs.files (disk w))))
       (Fs.Write projectsDbPath
          (JSON_stringify
             (JArray (Project.to_json
                        <$> projects w
                            ++ [new_project title description files w]))))
       (set_projects (projects w ++ [new_project title description files w])
          (set_drawn (S (drawn w)) w))).
Proof.
  intros Hfiles Hwr. unfold post_project_handler.
  destruct files as [|file files]; [done|]. cbn [has_files negb default].
  erewrite bind_Ret by reflexivity. cbn beta.
  erewrite bind_Ret by reflexivity. cbn beta.
  by erewrite bind_Ret by (by apply (save_ok Projects)).
Qed.

Lemma names_from_length (n : nat) (parts : list Part) :
  length (names_from n parts) = length parts.
Proof. revert n. induction parts; intros n; cbn; [done|]. by rewrite IHparts. Qed.

(** X3. From request to disk and back: a Create of a project with one
    to five parts, on a disk that refuses none of the writes and where the
    generated paths are distinct from each other and from the JSON file,
    answers 201 with a record that has one image reference per part, in
    order; and the path Update and Delete will compute from the [k]-th
    reference holds the content of the [k]-th part (given that, for the
    names generated in this request, [path.join] treats [uploads/<name>]
    under [__dirname] as [<name>] under the upload directory; Node's
    [path.join] does so for every name that is not empty). *)
Theorem create_project_end_to_end (title description : option string)
    (parts : list Part) (w : World) :
  parts ≠ [] → length parts ≤ 5 →
  (∀ path, path ∈ upload_paths (drawn w) parts →
     Fs.write_denied (disk w) path = false) →
  Fs.write_denied (disk w) projectsDbPath = false →
  NoDup (upload_paths (drawn w) parts) →
  (projectsDbPath ∉ upload_paths (drawn w) parts) →
  (∀ name, name ∈ names_from (drawn w) parts →
     path_join dirname ("uploads/" +:+ name) = path_join uploadDir name) →
  let p := Project.mk (uuidv4 (drawn w + length parts)) title description
             (image_url <$> (mkFile <$> names_from (drawn w) parts)) in
  ∃ w',
    handle (PostProject title description (Some parts)) w
      = (mkResponse 201 (Project.to_json p), w')
    ∧ projects w' = projects w ++ [p]
    ∧ length (Project.imageUrls p) = length parts
    ∧ persisted Projects w'
    ∧ ∀ k part, parts !! k = Some part →
        ∃ url, Project.imageUrls p !! k = Some url
          ∧ Fs.files (disk w') !! localPath url = Some (content part).
Proof.
  intros Hne Hlen Hwr Hdb Hnd Hdbfresh Hjoin p.
  destruct (receive_ok parts 5 [] w Hlen Hwr)
    as (w1 & Hrun & Hp & Hc & Hv & Hd & _ & Hwd & Hlog & Hfiles).
  unfold handle, express, route, upload.
  erewrite bind_Ret; cycle 1.
  { erewrite bind_Ret by exact Hrun. reflexivity. }
  cbn [app].
  assert (mkFile <$> names_from (drawn w) parts ≠ []) as Hfiles_ne.
  { destruct parts; [done|]. by cbn. }
  rewrite post_project_state; [|done|by rewrite Hwd].
  assert (new_project title description
            (mkFile <$> names_from (drawn w) parts) w1 = p) as ->.
  { unfold new_project, p. by rewrite Hd. }
  eexists. split; [reflexivity|]. cbn [projects set_disk set_projects].
  rewrite Hp. split_and!.
  - done.
  - cbn. by rewrite !length_fmap, names_from_length.
  - split; cbn; rewrite ?Hp; [apply lookup_insert_eq|apply last_snoc].
  - intros k part Hk.
    assert (∃ name, names_from (drawn w) parts !! k = Some name) as [name Hname].
    { apply lookup_lt_is_Some. rewrite names_from_length.
      by eapply lookup_lt_Some. }
    exists (image_url (mkFile name)). split.
    { cbn. by rewrite !list_lookup_fmap, Hname. }
    rewrite localPath_image_url, Hjoin by by eapply list_elem_of_lookup_2.
    cbn [filename disk set_disk Fs.files Fs.with_files].
    assert (upload_paths (drawn w) parts !! k = Some (path_join uploadDir name))
      as Hpath.
    { unfold upload_paths. by rewrite list_lookup_fmap, Hname. }
    rewrite lookup_insert_ne.
    + rewrite Hfiles. by eapply stored_files_lookup.
    + intros Heq. apply Hdbfresh. rewrite Heq.
      by eapply list_elem_of_lookup_2.
Qed.

(** ** Beyond the claims: replies and failures *)

Lemma hoare_ret {A : Type} (P : World → Prop) (a : A) (Q : A → World → Prop)
    (E : exn → World → Prop) :
  (∀ w, P w → Q a w) → hoare P (ret a) Q E.
Proof. intros HQ w o w' HP [= <- <-]. by apply HQ. Qed.

Lemma hoare_throw {A : Type} (P : World → Prop) (e : exn)
    (Q : A → World → Prop) (E : exn → World → Prop) :
  (∀ w, P w → E e w) → hoare P (throw e) Q E.
Proof. intros HE w o w' HP [= <- <-]. by apply HE. Qed.

Lemma hoare_bind {A B : Type} (P : World → Prop) (m : M A) (k : A → M B)
    (R : A → World → Prop) (Q : B → World → Prop) (E : exn → World → Prop) :
  hoare P m R E → (∀ a, hoare (R a) (k a) Q E) → hoare P (bind m k) Q E.
Proof.
  intros Hm Hk w o w' HP Hrun.
  apply bind_inv in Hrun as [(a & w1 & H1 & H2)|(e & H1 & Ho)].
  - apply (Hk a w1 o w'); [|done]. apply (Hm w (Ret a) w1 HP H1).
  - subst o. apply (Hm w (Throw e) w' HP H1).
Qed.

Lemma hoare_attempt {A : Type} (P : World → Prop) (m : M A)
    (Q : exn + A → World → Prop) (E E' : exn → World → Prop) :
  hoare P m (λ a, Q (inr a)) (λ e, Q (inl e)) → hoare P (attempt m) Q E'.
Proof.
  intros Hm w o w' HP. unfold attempt.
  destruct (m w) as [[a|e] w1] eqn:Hrun; intros [= <- <-].
  - apply (Hm w (Ret a) w1 HP Hrun).
  - apply (Hm w (Throw e) w1 HP Hrun).
Qed.

Lemma hoare_forEach {A : Type} (I : World → Prop) (f : A → M unit) (l : list A)
    (E : exn → World → Prop) :
  (∀ x, hoare I (f x) (λ _, I) E) → hoare I (forEach f l) (λ _, I) E.
Proof.
  intros Hf. induction l as [|x l IH]; cbn [forEach].
  - by apply hoare_ret.
  - eapply hoare_bind; [apply Hf|]. intros []. apply IH.
Qed.

Lemma hoare_mono {A : Type} (P P' : World → Prop) (m : M A)
    (Q Q' : A → World → Prop) (E E' : exn → World → Prop) :
  hoare P m Q E → (∀ w, P' w → P w) → (∀ a w, Q a w → Q' a w) →
  (∀ e w, E e w → E' e w) → hoare P' m Q' E'.
Proof.
  intros Hm HP HQ HE w o w' HP' Hrun.
  specialize (Hm w o w' (HP w HP') Hrun). destruct o; auto.
Qed.

(** *** On a disk that refuses nothing *)

Lemma calm_ret {A : Type} (a : A) (Q : A → Prop) : Q a → calm (ret a) Q.
Proof. intros HQ. by apply hoare_ret. Qed.

Lemma calm_bind {A B : Type} (m : M A) (k : A → M B) (Q' : A → Prop)
    (Q : B → Prop) :
  calm m Q' → (∀ a, Q' a → calm (k a) Q) → calm (bind m k) Q.
Proof.
  intros Hm Hk. eapply hoare_bind; [exact Hm|].
  intros a w o w' [HP HQ]. by apply Hk.
Qed.

Lemma calm_mono {A : Type} (m : M A) (Q Q' : A → Prop) :
  calm m Q → (∀ a, Q a → Q' a) → calm m Q'.
Proof.
  intros Hm HQ. eapply hoare_mono; [exact Hm|done| |done].
  intros a w [? ?]. auto.
Qed.

Lemma calm_get : calm get (λ _, True).
Proof. by intros w o w' HP [= <- <-]. Qed.

Lemma calm_modify (f : World → World) :
  (∀ w, disk (f w) = disk w) → calm (modify f) (λ _, True).
Proof.
  intros Hf w o w' HP [= <- <-]. split; [|done].
  intros path. rewrite Hf. apply HP.
Qed.

Lemma calm_uuid : calm uuid (λ _, True).
Proof. by intros w o w' HP [= <- <-]. Qed.

Lemma calm_existsSync (path : string) : calm (existsSync path) (λ _, True).
Proof. by intros w o w' HP [= <- <-]. Qed.

Lemma calm_writeFileSync (path data : string) :
  calm (writeFileSync path data) (λ _, True).
Proof.
  intros w o w' HP. rewrite writeFileSync_ok by apply HP.
  by intros [= <- <-].
Qed.

Lemma calm_unlink_image (url : string) : calm (unlink_image url) (λ _, True).
Proof.
  intros w o w' HP. rewrite unlink_image_run.
  destruct (Fs.files (disk w) !! localPath url); [|by intros [= <- <-]].
  rewrite (proj1 (HP _)). by intros [= <- <-].
Qed.

Lemma calm_forEach {A : Type} (f : A → M unit) (l : list A) :
  (∀ x, calm (f x) (λ _, True)) → calm (forEach f l) (λ _, True).
Proof.
  intros Hf. induction l as [|x l IH]; cbn [forEach].
  - by apply calm_ret.
  - eapply calm_bind; [apply Hf|]. intros _ _. apply IH.
Qed.

Lemma calm_save (c : Collection) : calm (save c) (λ _, True).
Proof.
  destruct c; (eapply calm_bind; [apply calm_get|]); intros w0 _;
    apply calm_writeFileSync.
Qed.

Lemma calm_removeUploaded (stored : list UploadedFile) :
  calm (removeUploaded stored) (λ _, True).
Proof.
  apply calm_forEach. intros f.
  eapply calm_bind with (Q' := λ _, True); [|by intros _ _; apply calm_ret].
  intros w o w' HP. unfold attempt, unlinkSync, Fs.unlink.
  destruct (Fs.files (disk w) !! _); [|by intros [= <- <-]].
  destruct (Fs.unlink_denied (disk w) _); by intros [= <- <-].
Qed.

Lemma calm_handleFile (part : Part) : calm (handleFile part) (λ _, True).
Proof.
  eapply calm_bind; [apply calm_uuid|]. intros tok _.
  eapply calm_bind; [apply calm_writeFileSync|]. intros _ _.
  by apply calm_ret.
Qed.

Lemma calm_receive (limit : nat) (parts : list Part) (stored : list UploadedFile) :
  calm (receive limit parts stored) (λ _, True).
Proof.
  revert limit stored. induction parts as [|part rest IH]; intros limit stored;
    cbn [receive].
  - by apply calm_ret.
  - destruct limit as [|limit].
    + eapply calm_bind; [apply calm_removeUploaded|]. intros _ _.
      apply hoare_throw. intros w HP. split; [done|]. by intros [].
    + eapply calm_bind
        with (Q' := λ r, match r with inl e => ¬ is_fs_error e | inr _ => True end).
      * intros w o w' HP. unfold attempt.
        destruct (handleFile part w) as [[f|e] w1] eqn:Hrun; intros [= <- <-];
          apply (calm_handleFile part w _ _ HP Hrun).
      * intros [e|f] He; [|apply IH].
        eapply calm_bind; [apply calm_removeUploaded|]. intros _ _.
        apply hoare_throw. by intros w HP.
Qed.

Lemma calm_upload (limit : nat) (parts : option (list Part)) :
  calm (upload limit parts) (λ _, True).
Proof.
  destruct parts as [ps|]; [|by apply calm_ret].
  eapply calm_bind; [apply calm_receive|]. intros fs _. by apply calm_ret.
Qed.

Lemma calm_save_reply (c : Collection) (r : Response) (Q : Response → Prop) :
  Q r → calm (save c;; ret r) Q.
Proof.
  intros HQ. eapply calm_bind; [apply calm_save|]. intros _ _. by apply calm_ret.
Qed.

Lemma calm_route (rq : Request) : calm (route rq) (λ r, status r ≠ 500).
Proof.
  destruct rq as [|t d images|id t d images|id| |image|id| |url t|id];
    cbn [route].
  - eapply calm_bind; [apply calm_get|]. intros w0 _. by apply calm_ret.
  - eapply calm_bind; [apply calm_upload|]. intros files _.
    unfold post_project_handler. destruct (negb (has_files files)).
    { by apply calm_ret. }
    eapply calm_bind; [apply calm_uuid|]. intros newid _.
    eapply calm_bind; [by apply calm_modify|]. intros _ _.
    by apply (calm_save_reply Projects).
  - eapply calm_bind; [apply calm_upload|]. intros files _.
    unfold put_project_handler.
    eapply calm_bind; [apply calm_get|]. intros w0 _.
    destruct (list_find _ (projects w0)) as [[i p]|]; [|by apply calm_ret].
    eapply calm_bind; [by apply calm_modify|]. intros _ _.
    eapply calm_bind with (Q' := λ _, True).
    + destruct (has_files files); [|by apply calm_ret].
      eapply calm_bind; [apply calm_forEach, calm_unlink_image|]. intros _ _.
      eapply calm_bind; [by apply calm_modify|]. intros _ _. by apply calm_ret.
    + intros project _. by apply (calm_save_reply Projects).
  - unfold delete_project_handler.
    eapply calm_bind; [apply calm_get|]. intros w0 _.
    destruct (list_find _ (projects w0)) as [[i p]|]; [|by apply calm_ret].
    eapply calm_bind; [apply calm_forEach, calm_unlink_image|]. intros _ _.
    eapply calm_bind; [by apply calm_modify|]. intros _ _.
    by apply (calm_save_reply Projects).
  - eapply calm_bind; [apply calm_get|]. intros w0 _. by apply calm_ret.
  - eapply calm_bind; [apply calm_upload|]. intros files _.
    unfold post_carousel_handler. destruct (files ≫= head) as [file|];
      [|by apply calm_ret].
    eapply calm_bind; [apply calm_uuid|]. intros newid _.
    eapply calm_bind; [by apply calm_modify|]. intros _ _.
    by apply (calm_save_reply CarouselImages).
  - unfold delete_carousel_handler.
    eapply calm_bind; [apply calm_get|]. intros w0 _.
    destruct (list_find _ (carouselImages w0)) as [[i p]|]; [|by apply calm_ret].
    eapply calm_bind; [apply calm_unlink_image|]. intros _ _.
    eapply calm_bind; [by apply calm_modify|]. intros _ _.
    by apply (calm_save_reply CarouselImages).
  - eapply calm_bind; [apply calm_get|]. intros w0 _. by apply calm_ret.
  - unfold post_video_handler.
    destruct (negb (truthy url) || negb (truthy t)); [by apply calm_ret|].
    destruct (negb (URL_parses _)); [by apply calm_ret|].
    eapply calm_bind; [apply calm_uuid|]. intros newid _.
    eapply calm_bind; [by apply calm_modify|]. intros _ _.
    by apply (calm_save_reply Videos).
  - unfold delete_video_handler.
    eapply calm_bind; [apply calm_get|]. intros w0 _.
    destruct (list_find _ (videos w0)) as [[i p]|]; [|by apply calm_ret].
    eapply calm_bind; [by apply calm_modify|]. intros _ _.
    by apply (calm_save_reply Videos).
Qed.




(** *** The replies a client can get *)

Lemma shaped_ret {A : Type} (a : A) (Q : A → Prop) (Ex : exn → Prop) :
  Q a → shaped (ret a) Q Ex.
Proof. intros HQ. by apply hoare_ret. Qed.

Lemma shaped_bind {A B : Type} (m : M A) (k : A → M B) (Q' : A → Prop)
    (Q : B → Prop) (Ex : exn → Prop) :
  shaped m Q' Ex → (∀ a, Q' a → shaped (k a) Q Ex) → shaped (bind m k) Q Ex.
Proof.
  intros Hm Hk. eapply hoare_bind; [exact Hm|].
  intros a w o w' HQ. by apply Hk.
Qed.

Lemma shaped_quiet {A : Type} (m : M A) (Ex : exn → Prop) :
  (∀ w, ∃ a w', m w = (Ret a, w')) → shaped m (λ _, True) Ex.
Proof.
  intros Hm w o w' _ Hrun. destruct (Hm w) as (a & w1 & Heq).
  rewrite Heq in Hrun. by injection Hrun as <- <-.
Qed.

Lemma shaped_get (Ex : exn → Prop) : shaped get (λ _, True) Ex.
Proof. apply shaped_quiet. intros w. by eexists _, _. Qed.

Lemma shaped_modify (f : World → World) (Ex : exn → Prop) :
  shaped (modify f) (λ _, True) Ex.
Proof. apply shaped_quiet. intros w. by eexists _, _. Qed.

Lemma shaped_uuid (Ex : exn → Prop) : shaped uuid (λ _, True) Ex.
Proof. apply shaped_quiet. intros w. by eexists _, _. Qed.

Lemma shaped_writeFileSync (path data : string) (Ex : exn → Prop) :
  (∀ e, is_fs_error e → Ex e) → shaped (writeFileSync path data) (λ _, True) Ex.
Proof.
  intros HEx w o w' _. unfold writeFileSync.
  destruct (Fs.write path data (disk w)); intros [= <- <-]; [by apply HEx|done].
Qed.

Lemma shaped_unlink_image (url : string) (Ex : exn → Prop) :
  (∀ e, is_fs_error e → Ex e) → shaped (unlink_image url) (λ _, True) Ex.
Proof.
  intros HEx w o w' _. rewrite unlink_image_run.
  destruct (Fs.files (disk w) !! localPath url); [|by intros [= <- <-]].
  destruct (Fs.unlink_denied (disk w) _); intros [= <- <-]; [by apply HEx|done].
Qed.

Lemma shaped_forEach {A : Type} (f : A → M unit) (l : list A) (Ex : exn → Prop) :
  (∀ x, shaped (f x) (λ _, True) Ex) → shaped (forEach f l) (λ _, True) Ex.
Proof.
  intros Hf. induction l as [|x l IH]; cbn [forEach].
  - by apply shaped_ret.
  - eapply shaped_bind; [apply Hf|]. intros _ _. apply IH.
Qed.

Lemma shaped_save_reply (c : Collection) (r : Response) (Q : Response → Prop)
    (Ex : exn → Prop) :
  (∀ e, is_fs_error e → Ex e) → Q r → shaped (save c;; ret r) Q Ex.
Proof.
  intros HEx HQ. eapply shaped_bind with (Q' := λ _, True).
  - destruct c; (eapply shaped_bind; [apply shaped_get|]); intros w0 _;
      by apply shaped_writeFileSync.
  - intros _ _. by apply shaped_ret.
Qed.

Lemma shaped_removeUploaded (stored : list UploadedFile) (Ex : exn → Prop) :
  shaped (removeUploaded stored) (λ _, True) Ex.
Proof.
  apply shaped_forEach. intros f. apply shaped_quiet. intros w.
  unfold bind, attempt. destruct (unlinkSync _ w) as [[[]|e] w']; by eexists _, _.
Qed.

Lemma shaped_receive (limit : nat) (parts : list Part)
    (stored : list UploadedFile) (Ex : exn → Prop) :
  (∀ e, is_fs_error e → Ex e) → Ex unexpected_file →
  shaped (receive limit parts stored) (λ _, True) Ex.
Proof.
  intros Hfs Hmulter. revert limit stored.
  induction parts as [|part rest IH]; intros limit stored; cbn [receive].
  - by apply shaped_ret.
  - destruct limit as [|limit].
    + eapply shaped_bind; [apply shaped_removeUploaded|]. intros _ _.
      by apply hoare_throw.
    + eapply shaped_bind
        with (Q' := λ r, match r with inl e => is_fs_error e | inr _ => True end).
      * intros w o w' _. unfold attempt, handleFile.
        erewrite bind_Ret by reflexivity. cbn beta.
        unfold bind, writeFileSync.
        destruct (Fs.write _ _ _); by intros [= <- <-].
      * intros [e|f] He; [|apply IH].
        eapply shaped_bind; [apply shaped_removeUploaded|]. intros _ _.
        apply hoare_throw. intros _ _. by apply Hfs.
Qed.

Lemma shaped_upload (limit : nat) (parts : option (list Part)) (Ex : exn → Prop) :
  (∀ e, is_fs_error e → Ex e) → Ex unexpected_file →
  shaped (upload limit parts) (λ _, True) Ex.
Proof.
  intros Hfs Hmulter. destruct parts as [ps|]; [|by apply shaped_ret].
  eapply shaped_bind; [by apply shaped_receive|]. intros fs _. by apply shaped_ret.
Qed.

Lemma own_success (rq : Request) (r : Response) :
  status r = success_status rq → own_reply rq r.
Proof. by left. Qed.

Lemma shaped_route (rq : Request) :
  shaped (route rq) (own_reply rq)
    (λ e, (is_fs_error e ∧ collection_of rq ≠ None)
          ∨ (e = unexpected_file ∧ takes_files rq = true)).
Proof.
  destruct rq as [|t d images|id t d images|id| |image|id| |url t|id];
    cbn [route].
  - eapply shaped_bind; [apply shaped_get|]. intros w0 _.
    by apply shaped_ret, own_success.
  - eapply shaped_bind; [apply shaped_upload; auto|]. intros files _.
    unfold post_project_handler. destruct (negb (has_files files)).
    { apply shaped_ret. right; left. split; [done|]. by eexists. }
    eapply shaped_bind; [apply shaped_uuid|]. intros newid _.
    eapply shaped_bind; [apply shaped_modify|]. intros _ _.
    apply (shaped_save_reply Projects); [auto|by apply own_success].
  - eapply shaped_bind; [apply shaped_upload; auto|]. intros files _.
    unfold put_project_handler.
    eapply shaped_bind; [apply shaped_get|]. intros w0 _.
    destruct (list_find _ (projects w0)) as [[i p]|].
    2:{ apply shaped_ret. right; right. by exists Projects. }
    eapply shaped_bind; [apply shaped_modify|]. intros _ _.
    eapply shaped_bind with (Q' := λ _, True).
    + destruct (has_files files); [|by apply shaped_ret].
      eapply shaped_bind.
      { apply shaped_forEach. intros url. apply shaped_unlink_image. auto. }
      intros _ _.
      eapply shaped_bind; [apply shaped_modify|]. intros _ _. by apply shaped_ret.
    + intros project _.
      apply (shaped_save_reply Projects); [auto|by apply own_success].
  - unfold delete_project_handler.
    eapply shaped_bind; [apply shaped_get|]. intros w0 _.
    destruct (list_find _ (projects w0)) as [[i p]|].
    2:{ apply shaped_ret. right; right. by exists Projects. }
    eapply shaped_bind.
    { apply shaped_forEach. intros url. apply shaped_unlink_image. auto. }
    intros _ _.
    eapply shaped_bind; [apply shaped_modify|]. intros _ _.
    apply (shaped_save_reply Projects); [auto|by apply own_success].
  - eapply shaped_bind; [apply shaped_get|]. intros w0 _.
    by apply shaped_ret, own_success.
  - eapply shaped_bind; [apply shaped_upload; auto|]. intros files _.
    unfold post_carousel_handler. destruct (files ≫= head) as [file|].
    2:{ apply shaped_ret. right; left. split; [done|]. by eexists. }
    eapply shaped_bind; [apply shaped_uuid|]. intros newid _.
    eapply shaped_bind; [apply shaped_modify|]. intros _ _.
    apply (shaped_save_reply CarouselImages); [auto|by apply own_success].
  - unfold delete_carousel_handler.
    eapply shaped_bind; [apply shaped_get|]. intros w0 _.
    destruct (list_find _ (carouselImages w0)) as [[i p]|].
    2:{ apply shaped_ret. right; right. by exists CarouselImages. }
    eapply shaped_bind; [apply shaped_unlink_image; auto|]. intros _ _.
    eapply shaped_bind; [apply shaped_modify|]. intros _ _.
    apply (shaped_save_reply CarouselImages); [auto|by apply own_success].
  - eapply shaped_bind; [apply shaped_get|]. intros w0 _.
    by apply shaped_ret, own_success.
  - unfold post_video_handler.
    destruct (negb (truthy url) || negb (truthy t)).
    { apply shaped_ret. right; left. split; [done|]. by eexists. }
    destruct (negb (URL_parses _)).
    { apply shaped_ret. right; left. split; [done|]. by eexists. }
    eapply shaped_bind; [apply shaped_uuid|]. intros newid _.
    eapply shaped_bind; [apply shaped_modify|]. intros _ _.
    apply (shaped_save_reply Videos); [auto|by apply own_success].
  - unfold delete_video_handler.
    eapply shaped_bind; [apply shaped_get|]. intros w0 _.
    destruct (list_find _ (videos w0)) as [[i p]|].
    2:{ apply shaped_ret. right; right. by exists Videos. }
    eapply shaped_bind; [apply shaped_modify|]. intros _ _.
    apply (shaped_save_reply Videos); [auto|by apply own_success].
Qed.

(** X5. The reply to a request that reaches its route with a parsed
    body (a value of [Request]) is one of: the success reply of the route
    (201 for the three POST routes, 200 otherwise); a body [{error: msg}]
    with 400 on a route that validates its input; the route's not-found
    reply with 404 on a route that looks a record up; 400 with the
    [message] of multer's error for an unexpected file, whatever its text
    in the installed version, on a route with an upload middleware; 500
    "Internal Server Error" on a route that writes. *)
Theorem reply_shape (rq : Request) (w : World) :
  let r := (handle rq w).1 in
  own_reply rq r
  ∨ (takes_files rq = true ∧ r = error_reply 400 LIMIT_UNEXPECTED_FILE)
  ∨ (collection_of rq ≠ None ∧ r = error_reply 500 "Internal Server Error").
Proof.
  unfold handle, express. destruct (route rq w) as [[r|e] w'] eqn:Hrun; cbn.
  - left. by apply (shaped_route rq w _ _ I Hrun).
  - right.
    destruct (shaped_route rq w _ _ I Hrun) as [[Hfs Hc]| [-> Hup]].
    + right. split; [done|]. by destruct e.
    + by left.
Qed.

(** ** Beyond the claims: what Update and Delete do to the disk *)

Lemma swept_files_ret (urls : list string) (w w' : World) (unlinked : list string)
    (path : string) :
  swept urls w (Ret ()) w' unlinked →
  Fs.files (disk w') !! path
  = if decide (path ∈ localPath <$> urls) then None else Fs.files (disk w) !! path.
Proof.
  intros Hsw. rewrite (swept_files _ _ _ _ _ Hsw).
  destruct (decide (path ∈ localPath <$> urls)) as [Hin|Hnot].
  - case_decide; [done|].
    apply list_elem_of_fmap in Hin as (url & -> & Hurl).
    pose proof (swept_outcome _ _ _ _ _ Hsw url Hurl) as Hgone.
    rewrite (swept_files _ _ _ _ _ Hsw) in Hgone. by rewrite decide_False in Hgone.
  - rewrite decide_False; [done|].
    intros Hin. by apply Hnot, (swept_elem_of _ _ _ _ _ _ Hsw).
Qed.

Lemma swept_then_saved (c : Collection) (urls : list string) (w w1 w2 w' : World)
    (unlinked : list string) (r0 r : Response) :
  swept urls w (Ret ()) w1 unlinked →
  disk w2 = disk w1 → log w2 = log w1 →
  bind (save c) (λ _, ret r0) w2 = (Ret r, w') →
  r = r0 ∧ cleaned c urls w w'
  ∧ projects w' = projects w2 ∧ carouselImages w' = carouselImages w2
  ∧ videos w' = videos w2.
Proof.
  intros Hsw Hdisk Hlog ([] & w3 & Hsave & [= <- <-])%bind_inv_Ret.
  apply save_inv in Hsave as [(_ & _ & ->)|(e & [=] & _)].
  split_and!; try done. split_and!.
  - intros path Hne. cbn. rewrite lookup_insert_ne by done.
    rewrite Hdisk. by apply swept_files_ret with unlinked.
  - split; cbn; [apply lookup_insert_eq|apply last_snoc].
  - exists unlinked. split.
    + cbn. rewrite Hlog, (swept_log _ _ _ _ _ Hsw). by rewrite <- app_assoc.
    + intros path. apply (swept_complete _ _ _ _ _ Hsw).
Qed.

Lemma delete_project_inv (id : string) (w w' : World) (r : Response) :
  handle (DeleteProject id) w = (r, w') → status r = 200 →
  ∃ i p, list_find (λ p, Project.id p = id) (projects w) = Some (i, p)
    ∧ projects w' = delete i (projects w)
    ∧ carouselImages w' = carouselImages w ∧ videos w' = videos w
    ∧ cleaned Projects (Project.imageUrls p) w w'.
Proof.
  intros Hrun Hst. apply express_success in Hrun; [|auto]. revert Hrun.
  unfold route, delete_project_handler, bind at 1, get.
  destruct (list_find _ (projects w)) as [[i p]|] eqn:Hfind;
    [|intros [= <- <-]; done].
  intros ([] & w1 & [unlinked Hsw]%forEach_unlink_image & Hrun)%bind_inv_Ret.
  apply bind_inv_Ret in Hrun as ([] & w2 & [= <-] & Hrun).
  eapply (swept_then_saved Projects) in Hrun as (_ & Hclean & Hp & Hc & Hv);
    [|done..].
  exists i, p. cbn in *.
  rewrite (swept_projects _ _ _ _ _ Hsw) in Hp.
  rewrite (swept_carousel _ _ _ _ _ Hsw) in Hc.
  rewrite (swept_videos _ _ _ _ _ Hsw) in Hv. done.
Qed.

Lemma delete_carousel_inv (id : string) (w w' : World) (r : Response) :
  handle (DeleteCarouselImage id) w = (r, w') → status r = 200 →
  ∃ i img,
    list_find (λ img, CarouselImage._id img = id) (carouselImages w) = Some (i, img)
    ∧ carouselImages w' = delete i (carouselImages w)
    ∧ projects w' = projects w ∧ videos w' = videos w
    ∧ cleaned CarouselImages [CarouselImage.url img] w w'.
Proof.
  intros Hrun Hst. apply express_success in Hrun; [|auto]. revert Hrun.
  unfold route, delete_carousel_handler, bind at 1, get.
  destruct (list_find _ (carouselImages w)) as [[i img]|] eqn:Hfind;
    [|intros [= <- <-]; done].
  intros ([] & w1 & [unlinked Hsw]%unlink_image_swept & Hrun)%bind_inv_Ret.
  apply bind_inv_Ret in Hrun as ([] & w2 & [= <-] & Hrun).
  eapply (swept_then_saved CarouselImages) in Hrun as (_ & Hclean & Hp & Hc & Hv);
    [|done..].
  exists i, img. cbn in *.
  rewrite (swept_projects _ _ _ _ _ Hsw) in Hp.
  rewrite (swept_carousel _ _ _ _ _ Hsw) in Hc.
  rewrite (swept_videos _ _ _ _ _ Hsw) in Hv. done.
Qed.

Lemma put_project_inv (id : string) (title description : option string)
    (files : list UploadedFile) (w w' : World) (r : Response) :
  files ≠ [] →
  express (put_project_handler id title description (Some files)) w = (r, w') →
  status r = 200 →
  ∃ i p, list_find (λ p, Project.id p = id) (projects w) = Some (i, p)
    ∧ projects w'
      = <[i := Project.set_imageUrls (image_url <$> files)
                 (apply_fields title description p)]> (projects w)
    ∧ carouselImages w' = carouselImages w ∧ videos w' = videos w
    ∧ cleaned Projects (Project.imageUrls p) w w'.
Proof.
  intros Hfiles Hrun Hst. apply express_success in Hrun; [|auto].
  destruct (list_find (λ p, Project.id p = id) (projects w)) as [[i p]|] eqn:Hfind.
  2:{ revert Hrun. unfold put_project_handler, bind at 1, get. rewrite Hfind.
      by intros [= <- <-]. }
  rewrite (put_project_found _ _ _ _ _ _ _ Hfind) in Hrun.
  destruct files as [|file files]; [done|]. cbn [has_files] in Hrun.
  rewrite apply_fields_imageUrls in Hrun.
  apply bind_inv_Ret in Hrun as (project & w3 & Hin & Hrun).
  apply bind_inv_Ret in Hin as ([] & w1 & [unlinked Hsw]%forEach_unlink_image & Hin).
  apply bind_inv_Ret in Hin as ([] & w2 & [= <-] & [= <- <-]).
  eapply (swept_then_saved Projects) in Hrun as (_ & Hclean & Hp & Hc & Hv);
    [|exact Hsw|done..].
  exists i, p. cbn [projects carouselImages videos set_projects] in Hp, Hc, Hv.
  rewrite (swept_projects _ _ _ _ _ Hsw) in Hp. cbn in Hp.
  rewrite list_insert_insert_eq in Hp.
  rewrite (swept_carousel _ _ _ _ _ Hsw) in Hc.
  rewrite (swept_videos _ _ _ _ _ Hsw) in Hv. done.
Qed.

(** X6. A successful Delete, on any of the three collections, removes
    exactly one record: the first one in List order whose identifier is
    the one asked for.  The records before and after it keep their order,
    and the other two collections are as they were. *)
Theorem delete_removes_first_match (c : Collection) (id : string) (w w' : World)
    (r : Response) :
  handle (Delete c id) w = (r, w') → status r = 200 →
  ∃ i, ids c w !! i = Some id
    ∧ (∀ j, j < i → ids c w !! j ≠ Some id)
    ∧ snapshot c w' = delete i (snapshot c w)
    ∧ ids c w' = delete i (ids c w)
    ∧ ∀ c', c' ≠ c → snapshot c' w' = snapshot c' w.
Proof.
  intros Hrun Hst.
  assert (∀ {A : Type} (key : A → string) (l : list A) i x,
            list_find (λ y, key y = id) l = Some (i, x) →
            (key <$> l) !! i = Some id
            ∧ ∀ j, j < i → (key <$> l) !! j ≠ Some id) as Hfirst.
  { intros A key l i x (Hi & Hkey & Hleast)%list_find_Some. split.
    - by rewrite list_lookup_fmap, Hi; cbn; rewrite Hkey.
    - intros j Hj. rewrite list_lookup_fmap.
      destruct (l !! j) as [y|] eqn:Hy; [|done]. cbn. intros [= Heq].
      by apply (Hleast j y). }
  destruct c; cbn [Delete ids snapshot] in *.
  - destruct (delete_project_ok _ _ _ _ Hrun Hst) as (i & p & Hfind & Hp & Hc & Hv).
    exists i. destruct (Hfirst _ _ _ _ _ Hfind). rewrite Hp, !list_fmap_delete.
    split_and!; try done. intros [| |] ?; cbn; congruence.
  - destruct (delete_carousel_ok _ _ _ _ Hrun Hst) as (i & p & Hfind & Hc & Hp & Hv).
    exists i. destruct (Hfirst _ _ _ _ _ Hfind). rewrite Hc, !list_fmap_delete.
    split_and!; try done. intros [| |] ?; cbn; congruence.
  - destruct (delete_video_ok _ _ _ _ Hrun Hst) as (i & p & Hfind & Hv & Hp & Hc).
    exists i. destruct (Hfirst _ _ _ _ _ Hfind). rewrite Hv, !list_fmap_delete.
    split_and!; try done. intros [| |] ?; cbn; congruence.
Qed.

(** X7. When an Update with files or a Delete of a project or carousel
    image succeeds, the disk differs from before in exactly this: every
    file the record's (old) references led to is gone, the collection's
    JSON file holds the new serialization, and every other file is
    untouched; the log shows one unlink per such file that existed, then
    the write. *)
Theorem file_op_disk_effect (op : FileOp) (w w' : World) (r : Response)
    (urls : list string) :
  old_refs op w = Some urls →
  express (run_op op) w = (r, w') → status r = 200 →
  cleaned (op_collection op) urls w w'.
Proof.
  intros Hrefs Hrun Hst.
  destruct op as [id title description files|id|id]; cbn [old_refs run_op op_collection] in *.
  - case_bool_decide as Hfiles; [done|].
    destruct (put_project_inv _ _ _ _ _ _ _ Hfiles Hrun Hst)
      as (i & p & Hfind & _ & _ & _ & Hclean).
    rewrite Hfind in Hrefs. by simplify_eq/=.
  - destruct (delete_project_inv _ _ _ _ Hrun Hst)
      as (i & p & Hfind & _ & _ & _ & Hclean).
    rewrite Hfind in Hrefs. by simplify_eq/=.
  - destruct (delete_carousel_inv _ _ _ _ Hrun Hst)
      as (i & p & Hfind & _ & _ & _ & Hclean).
    rewrite Hfind in Hrefs. by simplify_eq/=.
Qed.

(** ** Beyond the claims: when the disk refuses *)

Lemma save_denied (c : Collection) (w : World) :
  Fs.write_denied (disk w) (db_path c) = true →
  save c w = (Throw (FsError Fs.EACCES "open" (db_path c)), w).
Proof. destruct c; apply writeFileSync_denied. Qed.

(** X8. There is no rollback: when the JSON file cannot be written, a
    Create with valid input answers 500, yet the new record is in the
    array.  The disk is exactly as before, and a List that follows returns
    the record that the file does not hold. *)
Theorem create_write_failure (ci : CreateInput) (w : World) :
  valid_input ci = true →
  Fs.write_denied (disk w) (db_path (target ci)) = true →
  ∃ w', express (Create ci) w = (error_reply 500 "Internal Server Error", w')
    ∧ snapshot (target ci) w' = snapshot (target ci) w ++ [new_record ci w]
    ∧ disk w' = disk w ∧ log w' = log w
    ∧ handle (List (target ci)) w'
      = (mkResponse 200 (JArray (snapshot (target ci) w ++ [new_record ci w])), w').
Proof.
  intros Hvalid Hwr.
  destruct ci as [title description files|file|url title];
    cbn [target db_path valid_input Create new_record] in *.
  - apply negb_true_iff, bool_decide_eq_false in Hvalid.
    unfold express, post_project_handler.
    destruct files as [|file files]; [done|]. cbn [has_files negb default].
    erewrite bind_Ret by reflexivity. cbn beta.
    erewrite bind_Ret by reflexivity. cbn beta.
    erewrite bind_Throw by (by apply (save_denied Projects)).
    eexists. split; [reflexivity|]. rewrite (list_run Projects). cbn.
    by rewrite fmap_app.
  - unfold express, post_carousel_handler.
    erewrite bind_Ret by reflexivity. cbn beta.
    erewrite bind_Ret by reflexivity. cbn beta.
    erewrite bind_Throw by (by apply (save_denied CarouselImages)).
    eexists. split; [reflexivity|]. rewrite (list_run CarouselImages). cbn.
    by rewrite fmap_app.
  - apply andb_true_iff in Hvalid as [[Hurl Htitle]%andb_true_iff Hparse].
    apply negb_true_iff in Hurl, Htitle.
    unfold express, post_video_handler, truthy. rewrite Hurl, Htitle.
    cbn [negb orb default from_option id]. rewrite Hparse. cbn [negb].
    erewrite bind_Ret by reflexivity. cbn beta.
    erewrite bind_Ret by reflexivity. cbn beta.
    erewrite bind_Throw by (by apply (save_denied Videos)).
    eexists. split; [reflexivity|]. rewrite (list_run Videos). cbn.
    by rewrite fmap_app.
Qed.

(** X9. An Update assigns title and description before it touches the
    old files: when it comes with files and one of the old files cannot
    be unlinked, the reply is 500 and nothing is written, but the record
    in memory already carries the new title and description (its image
    references are the old ones), and a List that follows shows them. *)
Theorem update_failure_keeps_new_fields (id : string)
    (title description : option string) (files : list UploadedFile) (w : World)
    (i : nat) (p : Project.t) :
  files ≠ [] →
  list_find (λ p, Project.id p = id) (projects w) = Some (i, p) →
  blocked (Project.imageUrls p) w →
  ∃ w' unlinked,
    express (put_project_handler id title description (Some files)) w
      = (error_reply 500 "Internal Server Error", w')
    ∧ projects w' = <[i := apply_fields title description p]> (projects w)
    ∧ log w' = log w ++ (Fs.Unlink <$> unlinked)
    ∧ Fs.files (disk w') !! projectsDbPath
      = (if decide (projectsDbPath ∈ unlinked) then None
         else Fs.files (disk w) !! projectsDbPath)
    ∧ handle GetProjects w'
      = (mkResponse 200
           (JArray (Project.to_json
                      <$> <[i := apply_fields title description p]> (projects w))),
         w').
Proof.
  intros Hfiles Hfind Hblocked.
  unfold express. rewrite (put_project_found _ _ _ _ _ _ _ Hfind).
  destruct files as [|file files]; [done|]. cbn [has_files].
  rewrite apply_fields_imageUrls.
  set (w1 := set_projects _ w).
  destruct (forEach unlink_image (Project.imageUrls p) w1) as [o w2] eqn:Hloop.
  assert (blocked (Project.imageUrls p) w1) as Hblocked1 by exact Hblocked.
  destruct (blocked_throws _ _ _ _ Hblocked1 Hloop) as (path & unlinked & -> & Hsw).
  erewrite bind_Throw; cycle 1.
  { erewrite bind_Throw by exact Hloop. reflexivity. }
  exists w2, unlinked.
  pose proof (swept_projects _ _ _ _ _ Hsw) as Hp. cbn in Hp.
  split_and!; try done.
  - apply (swept_log _ _ _ _ _ Hsw).
  - apply (swept_files _ _ _ _ _ Hsw).
  - rewrite (list_run Projects). cbn. by rewrite Hp.
Qed.

Lemma receive_over (parts : list Part) (limit : nat) (stored : list UploadedFile)
    (w : World) :
  limit < length parts →
  ∃ e w', receive limit parts stored w = (Throw e, w')
    ∧ (e = unexpected_file ∨ is_fs_error e).
Proof.
  revert limit stored w.
  induction parts as [|part rest IH]; intros limit stored w Hlen;
    [cbn in Hlen; lia|].
  cbn [receive]. destruct limit as [|limit].
  - destruct (removeUploaded stored w) as [o w1] eqn:Hrm.
    pose proof (shaped_removeUploaded stored (λ _, False) w o w1 I Hrm) as Ho.
    destruct o as [[]|e]; [|done].
    erewrite bind_Ret by exact Hrm. eexists _, _. split; [reflexivity|by left].
  - unfold bind at 1, attempt.
    destruct (handleFile part w) as [[f|e] w1] eqn:Hstore.
    + apply IH. cbn in Hlen. lia.
    + assert (is_fs_error e) as He.
      { revert Hstore. unfold handleFile. erewrite bind_Ret by reflexivity.
        cbn beta. unfold bind, writeFileSync.
        destruct (Fs.write _ _ _); by intros [= <- <-]. }
      destruct (removeUploaded stored w1) as [o w2] eqn:Hrm.
      pose proof (shaped_removeUploaded stored (λ _, False) w1 o w2 I Hrm) as Ho.
      destruct o as [[]|e']; [|done].
      erewrite bind_Ret by exact Hrm. eexists _, _. split; [reflexivity|by right].
Qed.

(** X10. A request with more file parts than its route accepts (five on
    the two project routes, one on the carousel route) never reaches the
    handler: no record is created or changed, and the reply is 400 with
    the [message] of multer's error for an unexpected file (the error
    handler sends [err.message], whatever its text in the installed
    version of multer), or 500 if a write failed before the surplus part
    arrived; on a disk that refuses nothing it is the 400. *)
Theorem surplus_files_rejected (rq : Request) (w : World) :
  over_limit rq = true →
  let out := handle rq w in
  quiet w out.2
  ∧ (out.1 = error_reply 400 LIMIT_UNEXPECTED_FILE
     ∨ out.1 = error_reply 500 "Internal Server Error")
  ∧ (permissive w → out.1 = error_reply 400 LIMIT_UNEXPECTED_FILE).
Proof.
  intros Hover out.
  assert (∃ limit parts (k : option (list UploadedFile) → M Response),
            route rq = bind (upload limit (Some parts)) k ∧ limit < length parts)
    as (limit & parts & k & Hroute & Hlen).
  { destruct rq as [|t d [parts|]|id t d [parts|]|id| |[parts|]|id| |url t|id];
      try done; cbn in Hover; apply bool_decide_eq_true in Hover;
      eexists _, parts, _; (split; [reflexivity|done]). }
  destruct (receive_over parts limit [] w Hlen) as (e & w' & Hrun & He).
  assert (route rq w = (Throw e, w')) as Hthrow.
  { rewrite Hroute. erewrite bind_Throw; [done|].
    unfold upload. by erewrite bind_Throw. }
  assert (quiet w w') as Hq.
  { apply (respects_receive limit parts [] w _ _ Hrun). }
  subst out. unfold handle, express. rewrite Hthrow. cbn [fst snd].
  split_and!; [done| |].
  - destruct He as [->|He]; [by left|]. right. by destruct e.
  - intros HP. destruct He as [->|He]; [done|].
    by destruct (calm_route rq w _ _ HP Hthrow) as [_ []].
Qed.

(** ** Beyond the claims: the collections do not interfere *)

Lemma only_refl (c : Collection) (w : World) : only c w w.
Proof. intros c' _. by destruct c'. Qed.

Lemma only_trans (c : Collection) (w1 w2 w3 : World) :
  only c w1 w2 → only c w2 w3 → only c w1 w3.
Proof.
  intros H12 H23 c' Hne. specialize (H12 c' Hne). specialize (H23 c' Hne).
  destruct c'; cbn in *; congruence.
Qed.

Lemma quiet_only (c : Collection) (w w' : World) : quiet w w' → only c w w'.
Proof. intros (? & ? & ? & _) c' _. by destruct c'. Qed.

Lemma keeps_respects (c : Collection) {A : Type} (m : M A) :
  respects m → keeps c m.
Proof. intros Hm w o w' Hrun. by eapply quiet_only, Hm. Qed.

Lemma keeps_ret (c : Collection) {A : Type} (a : A) : keeps c (ret a).
Proof. apply keeps_respects, respects_ret. Qed.

Lemma keeps_bind (c : Collection) {A B : Type} (m : M A) (k : A → M B) :
  keeps c m → (∀ a, keeps c (k a)) → keeps c (bind m k).
Proof.
  intros Hm Hk w o w' [(a & w1 & H1 & H2)|(e & H1 & _)]%bind_inv.
  - eapply only_trans; [by eapply Hm|by eapply Hk].
  - by eapply Hm.
Qed.

Lemma keeps_modify (c : Collection) (f : World → World) :
  (∀ w, only c w (f w)) → keeps c (modify f).
Proof. intros Hf w o w' [= <- <-]. apply Hf. Qed.

Lemma keeps_get (c : Collection) : keeps c get.
Proof. intros w o w' [= <- <-]. apply only_refl. Qed.

Lemma keeps_save_reply (c c' : Collection) (r : Response) :
  keeps c (save c';; ret r).
Proof. apply keeps_respects, respects_save_reply. Qed.

Lemma keeps_route (rq : Request) (c : Collection) :
  collection_of rq = Some c → keeps c (route rq).
Proof.
  intros Hc.
  destruct rq as [|t d images|id t d images|id| |image|id| |url t|id];
    cbn in Hc; simplify_eq; cbn [route].
  - apply keeps_bind; [apply keeps_respects, respects_upload|]. intros files.
    unfold post_project_handler. destruct (negb (has_files files));
      [apply keeps_ret|].
    apply keeps_bind; [apply keeps_respects, respects_uuid|]. intros newid.
    apply keeps_bind; [|intros _; apply (keeps_save_reply _ Projects)].
    apply keeps_modify. intros w [| |] Hne; done.
  - apply keeps_bind; [apply keeps_respects, respects_upload|]. intros files.
    intros w o w' (Hcar & Hv & _)%put_project_memory. by intros [| |] Hne.
  - unfold delete_project_handler.
    apply keeps_bind; [apply keeps_get|]. intros w0.
    destruct (list_find _ (projects w0)) as [[i p]|]; [|apply keeps_ret].
    apply keeps_bind.
    { apply keeps_respects, respects_forEach, respects_unlink_image. }
    intros _. apply keeps_bind; [|intros _; apply (keeps_save_reply _ Projects)].
    apply keeps_modify. intros w [| |] Hne; done.
  - apply keeps_bind; [apply keeps_respects, respects_upload|]. intros files.
    unfold post_carousel_handler. destruct (files ≫= head) as [file|];
      [|apply keeps_ret].
    apply keeps_bind; [apply keeps_respects, respects_uuid|]. intros newid.
    apply keeps_bind;
      [|intros _; apply (keeps_save_reply _ CarouselImages)].
    apply keeps_modify. intros w [| |] Hne; done.
  - unfold delete_carousel_handler.
    apply keeps_bind; [apply keeps_get|]. intros w0.
    destruct (list_find _ (carouselImages w0)) as [[i p]|]; [|apply keeps_ret].
    apply keeps_bind; [apply keeps_respects, respects_unlink_image|].
    intros _. apply keeps_bind;
      [|intros _; apply (keeps_save_reply _ CarouselImages)].
    apply keeps_modify. intros w [| |] Hne; done.
  - unfold post_video_handler.
    destruct (negb (truthy url) || negb (truthy t)); [apply keeps_ret|].
    destruct (negb (URL_parses _)); [apply keeps_ret|].
    apply keeps_bind; [apply keeps_respects, respects_uuid|]. intros newid.
    apply keeps_bind; [|intros _; apply (keeps_save_reply _ Videos)].
    apply keeps_modify. intros w [| |] Hne; done.
  - unfold delete_video_handler.
    apply keeps_bind; [apply keeps_get|]. intros w0.
    destruct (list_find _ (videos w0)) as [[i p]|]; [|apply keeps_ret].
    apply keeps_bind; [|intros _; apply (keeps_save_reply _ Videos)].
    apply keeps_modify. intros w [| |] Hne; done.
Qed.

(** X11. The three collections do not interfere: a GET changes nothing
    at all, and a request on one collection, whatever its outcome, leaves
    the arrays of the other two exactly as they were. *)
Theorem collections_independent (rq : Request) (w : World) :
  match collection_of rq with
  | None => (handle rq w).2 = w
  | Some c => only c w (handle rq w).2
  end.
Proof.
  destruct (collection_of rq) as [c|] eqn:Hc.
  - unfold handle, express. destruct (route rq w) as [o w'] eqn:Hrun.
    apply (keeps_route rq c Hc) in Hrun. by destruct o.
  - by destruct rq.
Qed.

(** ** Beyond the claims: the file invariant on the paths that succeed *)

(** References [P] are replaced by references [N] whose files are new:
    the invariant carries over. *)
Lemma tidy_replace (w w' : World) (A P N B : list string) (db : string) :
  referenced w = A ++ P ++ B →
  referenced w' = A ++ N ++ B →
  files_tidy w →
  ¬ in_uploads db →
  NoDup N →
  (∀ path, path ∈ N → in_uploads path ∧ Fs.files (disk w) !! path = None) →
  (∀ path, path ≠ db →
     (path ∈ N → is_Some (Fs.files (disk w') !! path))
     ∧ (path ∉ N →
        Fs.files (disk w') !! path
        = if decide (path ∈ P) then None else Fs.files (disk w) !! path)) →
  files_tidy w'.
Proof.
  intros HR HR' [[Hdang Horph] Hnd] Hdb HndN Hnew Hdisk.
  rewrite HR in Hdang, Horph, Hnd.
  apply NoDup_app in Hnd as (HndA & HAP & HndPB).
  apply NoDup_app in HndPB as (HndP & HPB & HndB).
  assert (∀ path, path ∈ A ∨ path ∈ B → path ∉ N) as HoldN.
  { intros path Hin HinN. destruct (Hnew path HinN) as [_ Habsent].
    destruct (Hdang path) as [_ [data Hdata]]; [|congruence].
    rewrite !elem_of_app. tauto. }
  assert (∀ path, path ∈ A ∨ path ∈ B → path ∉ P) as HoldP.
  { intros path [HinA|HinB] HinP.
    - apply (HAP path HinA). apply elem_of_app; auto.
    - by apply (HPB path HinP). }
  assert (∀ path, in_uploads path → path ≠ db) as Hnedb.
  { intros path Hin ->. by apply Hdb. }
  split; [split|].
  - rewrite HR'. intros path [HinA|[HinN|HinB]%elem_of_app]%elem_of_app.
    + destruct (Hdang path) as [Hup Hsome]; [rewrite !elem_of_app; tauto|].
      split; [done|].
      rewrite (proj2 (Hdisk path (Hnedb _ Hup))) by (apply HoldN; auto).
      rewrite decide_False by (apply HoldP; auto). done.
    + destruct (Hnew path HinN) as [Hup _]. split; [done|].
      by apply (Hdisk path (Hnedb _ Hup)).
    + destruct (Hdang path) as [Hup Hsome]; [rewrite !elem_of_app; tauto|].
      split; [done|].
      rewrite (proj2 (Hdisk path (Hnedb _ Hup))) by (apply HoldN; auto).
      rewrite decide_False by (apply HoldP; auto). done.
  - rewrite HR'. intros path Hup Hsome. rewrite !elem_of_app.
    destruct (decide (path ∈ N)) as [HinN|HnotN]; [tauto|].
    rewrite (proj2 (Hdisk path (Hnedb _ Hup))) in Hsome by done.
    destruct (decide (path ∈ P)) as [HinP|HnotP].
    { by destruct Hsome. }
    specialize (Horph path Hup Hsome). rewrite !elem_of_app in Horph. tauto.
  - rewrite HR'. apply NoDup_app. split_and!; [done| |].
    + intros path HinA [HinN|HinB]%elem_of_app.
      * apply (HoldN path); auto.
      * apply (HAP path HinA). rewrite elem_of_app. auto.
    + apply NoDup_app. split_and!; [done| |done].
      intros path HinN HinB. apply (HoldN path); auto.
Qed.

Lemma referenced_projects_middle (w : World) (i : nat) (p : Project.t) :
  projects w !! i = Some p →
  referenced w
  = (localPath <$> (take i (projects w) ≫= Project.imageUrls))
      ++ (localPath <$> Project.imageUrls p)
      ++ (localPath <$> ((drop (S i) (projects w) ≫= Project.imageUrls)
                         ++ (CarouselImage.url <$> carouselImages w))).
Proof.
  intros Hi. unfold referenced.
  rewrite <- (take_drop_middle _ _ _ Hi) at 1.
  rewrite bind_app, bind_cons, !fmap_app. by rewrite <- !app_assoc.
Qed.

Lemma referenced_carousel_middle (w : World) (i : nat) (img : CarouselImage.t) :
  carouselImages w !! i = Some img →
  referenced w
  = (localPath <$> ((projects w ≫= Project.imageUrls)
                    ++ (CarouselImage.url <$> take i (carouselImages w))))
      ++ [localPath (CarouselImage.url img)]
      ++ (localPath <$> (CarouselImage.url <$> drop (S i) (carouselImages w))).
Proof.
  intros Hi. unfold referenced.
  rewrite <- (take_drop_middle _ _ _ Hi) at 1.
  rewrite !fmap_app, !fmap_cons. by rewrite <- !app_assoc.
Qed.

Lemma delete_video_inv (id : string) (w w' : World) (r : Response) :
  handle (DeleteVideo id) w = (r, w') → status r = 200 →
  projects w' = projects w ∧ carouselImages w' = carouselImages w
  ∧ ∀ path, path ≠ videosDbPath →
      Fs.files (disk w') !! path = Fs.files (disk w) !! path.
Proof.
  intros Hrun Hst. apply express_success in Hrun; [|auto]. revert Hrun.
  unfold route, delete_video_handler, bind at 1, get.
  destruct (list_find _ (videos w)) as [[i v]|] eqn:Hfind;
    [|intros [= <- <-]; done].
  intros ([] & w2 & [= <-] & Hrun)%bind_inv_Ret.
  apply bind_inv_Ret in Hrun as ([] & w3 & Hsave & [= <- <-]).
  apply (save_inv Videos) in Hsave as [(_ & _ & ->)|(e & [=] & _)].
  split_and!; try done. intros path Hne. cbn. by rewrite lookup_insert_ne.
Qed.

(** X12. A successful Delete keeps the file invariant: if before it
    every image reference had its own file in the upload directory and
    every file there was referenced, the same holds after it (the JSON
    file of the collection not lying in the upload directory). *)
Theorem delete_keeps_files_tidy (c : Collection) (id : string) (w w' : World)
    (r : Response) :
  handle (Delete c id) w = (r, w') → status r = 200 →
  files_tidy w → ¬ in_uploads (db_path c) →
  files_tidy w'.
Proof.
  intros Hrun Hst Htidy Hdb. destruct c; cbn [Delete db_path] in *.
  - destruct (delete_project_inv _ _ _ _ Hrun Hst)
      as (i & p & (Hi & _ & _)%list_find_Some & Hp & Hc & Hv & Hfiles & _).
    eapply (tidy_replace w w' _ _ [] _ projectsDbPath);
      [by apply referenced_projects_middle| |done|done|constructor| |].
    + unfold referenced. rewrite Hp, Hc, delete_take_drop, bind_app, !fmap_app.
      by rewrite <- !app_assoc.
    + by intros path ?%elem_of_nil.
    + intros path Hne. split; [by intros ?%elem_of_nil|]. intros _.
      by apply Hfiles.
  - destruct (delete_carousel_inv _ _ _ _ Hrun Hst)
      as (i & img & (Hi & _ & _)%list_find_Some & Hc & Hp & Hv & Hfiles & _).
    eapply (tidy_replace w w' _ _ [] _ carouselDbPath);
      [by apply referenced_carousel_middle| |done|done|constructor| |].
    + unfold referenced. rewrite Hp, Hc, delete_take_drop, !fmap_app.
      by rewrite <- !app_assoc.
    + by intros path ?%elem_of_nil.
    + intros path Hne. split; [by intros ?%elem_of_nil|]. intros _.
      by apply Hfiles.
  - destruct (delete_video_inv _ _ _ _ Hrun Hst) as (Hp & Hc & Hfiles).
    eapply (tidy_replace w w' (referenced w) [] [] [] videosDbPath);
      [by rewrite !app_nil_r| |done|done|constructor| |].
    + unfold referenced. by rewrite Hp, Hc, !app_nil_r.
    + by intros path ?%elem_of_nil.
    + intros path Hne. split; [by intros ?%elem_of_nil|]. intros _.
      rewrite decide_False by by intros ?%elem_of_nil. by apply Hfiles.
Qed.

Lemma new_refs_paths (names : list string) :
  (∀ name, name ∈ names →
     path_join dirname ("uploads/" +:+ name) = path_join uploadDir name) →
  localPath <$> (image_url <$> (mkFile <$> names)) = path_join uploadDir <$> names.
Proof.
  intros Hjoin. rewrite <- !list_fmap_compose. apply list_fmap_ext.
  intros k name Hk. cbn. rewrite localPath_image_url.
  apply Hjoin. by eapply list_elem_of_lookup_2.
Qed.

Lemma stored_files_present (n : nat) (parts : list Part) (m : gmap string string)
    (path : string) :
  NoDup (upload_paths n parts) → path ∈ upload_paths n parts →
  is_Some (stored_files n parts m !! path).
Proof.
  intros Hnd (k & Hk)%list_elem_of_lookup.
  assert (is_Some (parts !! k)) as [part Hpart].
  { apply lookup_lt_is_Some. apply lookup_lt_Some in Hk.
    unfold upload_paths in Hk. by rewrite length_fmap, names_from_length in Hk. }
  rewrite (stored_files_lookup n parts m k part path Hnd Hk Hpart). eauto.
Qed.

Lemma upload_paths_in_uploads (n : nat) (parts : list Part) (path : string) :
  (∀ name, name ∈ names_from n parts → file_name name = true) →
  path ∈ upload_paths n parts → in_uploads path.
Proof.
  intros Hnames (name & -> & Hin)%list_elem_of_fmap. exists name. auto.
Qed.

(** X13. A Create of a project keeps the file invariant: starting from
    a state where it holds, with one to five parts whose generated names
    are plain file names, lead to distinct paths not yet on disk, are
    joined by [path.join] alike from [__dirname] and from the upload
    directory, and with no write refused, the invariant holds again after
    the request. *)
Theorem create_keeps_files_tidy (title description : option string)
    (parts : list Part) (w : World) :
  files_tidy w →
  parts ≠ [] → length parts ≤ 5 →
  (∀ path, path ∈ upload_paths (drawn w) parts →
     Fs.write_denied (disk w) path = false ∧ Fs.files (disk w) !! path = None) →
  Fs.write_denied (disk w) projectsDbPath = false →
  NoDup (upload_paths (drawn w) parts) →
  (∀ name, name ∈ names_from (drawn w) parts → file_name name = true) →
  (∀ name, name ∈ names_from (drawn w) parts →
     path_join dirname ("uploads/" +:+ name) = path_join uploadDir name) →
  ¬ in_uploads projectsDbPath →
  files_tidy (handle (PostProject title description (Some parts)) w).2.
Proof.
  intros Htidy Hne Hlen Hpaths Hdbw Hnd Hnames Hjoin Hdb.
  destruct (receive_ok parts 5 [] w Hlen (λ path Hin, proj1 (Hpaths path Hin)))
    as (w1 & Hrun & Hp & Hc & Hv & Hd & _ & Hwd & Hlog & Hfiles).
  unfold handle, express, route, upload.
  erewrite bind_Ret; cycle 1.
  { erewrite bind_Ret by exact Hrun. reflexivity. }
  cbn [app].
  assert (mkFile <$> names_from (drawn w) parts ≠ []) as Hfiles_ne.
  { destruct parts; [done|]. by cbn. }
  rewrite post_project_state; [|done|by rewrite Hwd]. cbn [snd].
  eapply (tidy_replace w _ (localPath <$> (projects w ≫= Project.imageUrls)) []
            (upload_paths (drawn w) parts)
            (localPath <$> (CarouselImage.url <$> carouselImages w))
            projectsDbPath); [| |done|done|done| |].
  - unfold referenced. by rewrite fmap_app.
  - unfold referenced.
    cbn [projects carouselImages set_disk set_projects set_drawn].
    rewrite Hp, Hc, bind_app, !fmap_app. unfold new_project.
    rewrite bind_cons. cbn [Project.imageUrls mbind list_bind].
    rewrite app_nil_r. unfold upload_paths.
    by rewrite (new_refs_paths _ Hjoin), <- app_assoc.
  - intros path Hin. split; [by eapply upload_paths_in_uploads|].
    by apply Hpaths.
  - intros path Hnedb. cbn [disk set_disk Fs.files Fs.with_files].
    rewrite lookup_insert_ne by done. rewrite Hfiles. split.
    + intros Hin. by apply stored_files_present.
    + intros Hnot. rewrite decide_False by by intros ?%elem_of_nil.
      by apply stored_files_other.
Qed.

(** X14. A successful Update with files keeps the file invariant, under
    the same conditions on the generated names: the old files are gone
    with their references, and the new references have their files. *)
Theorem update_keeps_files_tidy (id : string) (title description : option string)
    (parts : list Part) (w w' : World) (r : Response) :
  handle (PutProject id title description (Some parts)) w = (r, w') →
  status r = 200 →
  files_tidy w →
  parts ≠ [] → length parts ≤ 5 →
  (∀ path, path ∈ upload_paths (drawn w) parts →
     Fs.write_denied (disk w) path = false ∧ Fs.files (disk w) !! path = None) →
  NoDup (upload_paths (drawn w) parts) →
  (∀ name, name ∈ names_from (drawn w) parts → file_name name = true) →
  (∀ name, name ∈ names_from (drawn w) parts →
     path_join dirname ("uploads/" +:+ name) = path_join uploadDir name) →
  ¬ in_uploads projectsDbPath →
  files_tidy w'.
Proof.
  intros Hrun Hst Htidy Hne Hlen Hpaths Hnd Hnames Hjoin Hdb.
  destruct (receive_ok parts 5 [] w Hlen (λ path Hin, proj1 (Hpaths path Hin)))
    as (w1 & Hup & Hp & Hc & Hv & Hd & _ & Hwd & Hlog & Hfiles).
  assert (mkFile <$> names_from (drawn w) parts ≠ []) as Hfiles_ne.
  { destruct parts; [done|]. by cbn. }
  assert (express (put_project_handler id title description
                     (Some (mkFile <$> names_from (drawn w) parts))) w1
          = (r, w')) as Hrun1.
  { revert Hrun. unfold handle, express, route, upload.
    erewrite bind_Ret; cycle 1.
    { erewrite bind_Ret by exact Hup. reflexivity. }
    done. }
  destruct (put_project_inv _ _ _ _ _ _ _ Hfiles_ne Hrun1 Hst)
    as (i & p & Hfind & Hp' & Hc' & _ & Hclean & _).
  rewrite Hp in Hfind, Hp'. rewrite Hc in Hc'.
  apply list_find_Some in Hfind as (Hi & _ & _).
  assert (∀ path, path ∈ localPath <$> Project.imageUrls p →
            is_Some (Fs.files (disk w) !! path)) as Hold.
  { intros path Hin. destruct Htidy as [[Hdang _] _]. apply Hdang.
    rewrite (referenced_projects_middle w i p Hi), !elem_of_app. auto. }
  eapply (tidy_replace w w' _ _ (upload_paths (drawn w) parts) _ projectsDbPath);
    [by apply (referenced_projects_middle w i p)| |done|done|done| |].
  - unfold referenced. rewrite Hp', Hc'.
    rewrite insert_take_drop by by eapply lookup_lt_Some.
    rewrite bind_app, bind_cons, !fmap_app. cbn [Project.imageUrls Project.set_imageUrls].
    unfold upload_paths. rewrite (new_refs_paths _ Hjoin).
    by rewrite <- !app_assoc.
  - intros path Hin. split; [by eapply upload_paths_in_uploads|].
    by apply Hpaths.
  - intros path Hnedb. rewrite (Hclean path Hnedb), Hfiles. split.
    + intros Hin. rewrite decide_False; [by apply stored_files_present|].
      intros [data Hdata]%Hold. destruct (Hpaths path Hin). congruence.
    + intros Hnot. by rewrite stored_files_other.
Qed.

(** *** What a request touches on disk *)

Lemma removeUploaded_log (stored : list UploadedFile) (w w' : World)
    (o : outcome unit) :
  removeUploaded stored w = (o, w') →
  o = Ret ()
  ∧ ∃ unlinked, log w' = log w ++ (Fs.Unlink <$> unlinked)
      ∧ sublist unlinked (stored_path <$> stored).
Proof.
  unfold removeUploaded. revert w.
  induction stored as [|f stored IH]; intros w; cbn [forEach].
  - intros [= <- <-]. split; [done|]. exists []. split; [|constructor].
    by rewrite app_nil_r.
  - unfold bind at 1 2. unfold attempt, unlinkSync, ret.
    destruct (Fs.unlink _ (disk w)) as [code|d]; cbn beta iota.
    + intros (-> & unlinked & Hlog & Hsub)%IH. split; [done|].
      exists unlinked. split; [done|]. by apply sublist_cons.
    + intros (-> & unlinked & Hlog & Hsub)%IH. split; [done|].
      exists (stored_path f :: unlinked). cbn in *. split.
      * by rewrite Hlog, <- app_assoc.
      * by apply sublist_skip.
Qed.

Lemma handleFile_log (part : Part) (w w' : World) (o : outcome UploadedFile) :
  handleFile part w = (o, w') →
  let name := uuidv4 (drawn w) +:+ extname (originalname part) in
  drawn w' = S (drawn w)
  ∧ ((o = Ret (mkFile name)
      ∧ log w' = log w ++ [Fs.Write (path_join uploadDir name) (content part)])
     ∨ ((∃ e, o = Throw e) ∧ log w' = log w)).
Proof.
  unfold handleFile. erewrite bind_Ret by reflexivity. cbn beta.
  unfold bind, writeFileSync, ret.
  destruct (Fs.write _ _ _); intros [= <- <-]; (split; [done|]).
  - right. eauto.
  - by left.
Qed.

Lemma receive_log (parts : list Part) (limit : nat) (stored : list UploadedFile)
    (w w' : World) (o : outcome (list UploadedFile)) :
  receive limit parts stored w = (o, w') →
  ∃ k unlinked,
    log w'
    = log w ++ zip_with Fs.Write (take k (upload_paths (drawn w) parts))
                                 (take k (content <$> parts))
            ++ (Fs.Unlink <$> unlinked)
    ∧ sublist unlinked
        ((stored_path <$> stored) ++ take k (upload_paths (drawn w) parts)).
Proof.
  revert limit stored w.
  induction parts as [|part rest IH]; intros limit stored w; cbn [receive].
  { intros [= <- <-]. exists 0, []. cbn. rewrite !app_nil_r.
    split; [done|]. apply sublist_nil_l. }
  destruct limit as [|limit].
  { intros [(a & w3 & Hrm & [= _ <-])|(e' & Hrm & _)]%bind_inv;
      apply removeUploaded_log in Hrm as (? & unlinked & Hlog & Hsub);
      [|done].
    exists 0, unlinked. cbn. by rewrite app_nil_r. }
  unfold bind at 1, attempt.
  destruct (handleFile part w) as [[f|e] w1] eqn:Hstore;
    apply handleFile_log in Hstore as (Hd & [(Hf & Hlog)|((e' & He) & Hlog)]);
    try done.
  - injection Hf as ->.
    intros (k & unlinked & Hlog' & Hsub)%IH. exists (S k), unlinked.
    rewrite Hd in Hlog', Hsub. rewrite Hlog', Hlog. unfold upload_paths in *.
    cbn [names_from fmap list_fmap take zip_with]. split.
    + by rewrite <- app_assoc.
    + by rewrite fmap_app, <- app_assoc in Hsub.
  - intros [(a & w3 & Hrm & [= _ <-])|(e'' & Hrm & _)]%bind_inv;
      apply removeUploaded_log in Hrm as (? & unlinked & Hlog' & Hsub);
      [|done].
    exists 0, unlinked. cbn. rewrite app_nil_r. split; [|done].
    by rewrite Hlog', Hlog.
Qed.

Lemma upload_events_nil (n : nat) (parts : list Part) : upload_events n parts [].
Proof. exists 0, []. split; [done|]. constructor. Qed.

Lemma upload_log (limit : nat) (parts : option (list Part)) (w w' : World)
    (o : outcome (option (list UploadedFile))) :
  upload limit parts w = (o, w') →
  ∃ up, log w' = log w ++ up ∧ upload_events (drawn w) (default [] parts) up.
Proof.
  destruct parts as [ps|]; cbn [upload default].
  - intros [(fs & w1 & Hrun & [= _ <-])|(e & Hrun & _)]%bind_inv;
      apply receive_log in Hrun as (k & unlinked & Hlog & Hsub);
      (eexists; split; [exact Hlog|]); by exists k, unlinked.
  - intros [= <- <-]. exists []. rewrite app_nil_r. split; [done|].
    apply upload_events_nil.
Qed.

Lemma within_refl (c : Collection) (urls : list string) (w : World) :
  within c urls w w.
Proof. exists []. by rewrite app_nil_r. Qed.

Lemma within_event (c : Collection) (urls : list string) (W w : World)
    (d : Fs.Disk) (ev : Fs.event) :
  within c urls W w → handler_event c urls ev →
  within c urls W (set_disk d ev w).
Proof.
  intros (evs & Hlog & Hall) Hev. exists (evs ++ [ev]). cbn.
  rewrite Hlog, app_assoc. split; [done|].
  apply Forall_app. split; [done|]. by constructor.
Qed.

Lemma stays_run (c : Collection) (urls : list string) {A : Type} (m : M A)
    (w w' : World) (o : outcome A) :
  stays c urls w m → m w = (o, w') → within c urls w w'.
Proof.
  intros Hm Hrun. specialize (Hm w o w' (within_refl c urls w) Hrun).
  by destruct o.
Qed.

Lemma stays_ret (c : Collection) (urls : list string) (W : World) {A : Type}
    (a : A) :
  stays c urls W (ret a).
Proof. by apply hoare_ret. Qed.

Lemma stays_bind (c : Collection) (urls : list string) (W : World)
    {A B : Type} (m : M A) (k : A → M B) :
  stays c urls W m → (∀ a, stays c urls W (k a)) → stays c urls W (bind m k).
Proof. intros Hm Hk. eapply hoare_bind; [exact Hm|]. intros a. apply Hk. Qed.

Lemma stays_quiet_log (c : Collection) (urls : list string) (W : World)
    {A : Type} (m : M A) :
  (∀ w o w', m w = (o, w') → log w' = log w) → stays c urls W m.
Proof.
  intros Hm w o w' (evs & Hlog & Hall) Hrun.
  assert (within c urls W w') as Hin.
  { exists evs. by rewrite (Hm w o w' Hrun). }
  by destruct o.
Qed.

Lemma stays_writeFileSync (c : Collection) (urls : list string) (W : World)
    (data : string) :
  stays c urls W (writeFileSync (db_path c) data).
Proof.
  intros w o w' Hin. unfold writeFileSync.
  destruct (Fs.write _ data (disk w)); intros [= <- <-]; [done|].
  by apply within_event.
Qed.

Lemma stays_unlink_image (c : Collection) (urls : list string) (W : World)
    (url : string) :
  url ∈ urls → stays c urls W (unlink_image url).
Proof.
  intros Hurl w o w' Hin. rewrite unlink_image_run.
  destruct (Fs.files (disk w) !! localPath url); [|by intros [= <- <-]].
  destruct (Fs.unlink_denied (disk w) (localPath url)); intros [= <- <-];
    [done|].
  apply within_event; [done|]. by apply list_elem_of_fmap_2.
Qed.

Lemma stays_forEach (c : Collection) (urls : list string) (W : World)
    {A : Type} (f : A → M unit) (l : list A) :
  (∀ x, x ∈ l → stays c urls W (f x)) → stays c urls W (forEach f l).
Proof.
  induction l as [|x l IH]; intros Hf; cbn [forEach].
  - apply stays_ret.
  - apply stays_bind; [apply Hf, elem_of_cons; by left|]. intros _.
    apply IH. intros y Hy. apply Hf, elem_of_cons. by right.
Qed.

Lemma stays_modify (c : Collection) (urls : list string) (W : World)
    (f : World → World) :
  (∀ w, log (f w) = log w) → stays c urls W (modify f).
Proof. intros Hf. apply stays_quiet_log. by intros w o w' [= _ <-]. Qed.

Lemma stays_uuid (c : Collection) (urls : list string) (W : World) :
  stays c urls W uuid.
Proof. apply stays_quiet_log. by intros w o w' [= _ <-]. Qed.

Lemma stays_get (c : Collection) (urls : list string) (W : World) :
  stays c urls W get.
Proof. apply stays_quiet_log. by intros w o w' [= _ <-]. Qed.

Lemma stays_save_reply (c : Collection) (urls : list string) (W : World)
    (r : Response) :
  stays c urls W (save c;; ret r).
Proof.
  apply stays_bind; [|intros _; apply stays_ret].
  destruct c; (apply stays_bind; [apply stays_get|]); intros w0.
  - apply (stays_writeFileSync Projects).
  - apply (stays_writeFileSync CarouselImages).
  - apply (stays_writeFileSync Videos).
Qed.

Lemma post_project_stays (urls : list string) (W : World)
    (title description : option string) (files : option (list UploadedFile)) :
  stays Projects urls W (post_project_handler title description files).
Proof.
  unfold post_project_handler. destruct (negb (has_files files)).
  { apply stays_ret. }
  apply stays_bind; [apply stays_uuid|]. intros newid.
  apply stays_bind; [by apply stays_modify|]. intros _.
  apply (stays_save_reply Projects).
Qed.

Lemma post_carousel_stays (urls : list string) (W : World)
    (file : option UploadedFile) :
  stays CarouselImages urls W (post_carousel_handler file).
Proof.
  unfold post_carousel_handler. destruct file as [file|]; [|apply stays_ret].
  apply stays_bind; [apply stays_uuid|]. intros newid.
  apply stays_bind; [by apply stays_modify|]. intros _.
  apply (stays_save_reply CarouselImages).
Qed.

(** The handler of a request, started after the upload in [w], stays
    within what the record it finds in [w] allows. *)
Lemma handler_within (rq : Request) (c : Collection) (w w' : World)
    (files : option (list UploadedFile)) (o : outcome Response) :
  collection_of rq = Some c →
  match rq with
  | PostProject t d _ => post_project_handler t d files
  | PutProject id t d _ => put_project_handler id t d files
  | PostCarouselImage _ => post_carousel_handler (files ≫= head)
  | _ => route rq
  end w = (o, w') →
  within c (target_refs rq w) w w'.
Proof.
  destruct rq as [|t d images|id t d images|id| |image|id| |url t|id];
    intros [= <-]; cbn [route]; unfold target_refs.
  - apply stays_run, post_project_stays.
  - unfold put_project_handler, bind at 1, get.
    destruct (list_find _ (projects w)) as [[i p]|] eqn:Hfind;
      [|intros [= <- <-]; apply within_refl].
    apply stays_run.
    apply stays_bind; [by apply stays_modify|]. intros _.
    apply stays_bind; [|intros project; apply (stays_save_reply Projects)].
    destruct (has_files files); [|apply stays_ret].
    apply stays_bind.
    + apply stays_forEach. intros url Hurl. apply stays_unlink_image.
      by destruct (truthy t), (truthy d).
    + intros _. apply stays_bind; [by apply stays_modify|]. intros _.
      apply stays_ret.
  - unfold delete_project_handler, bind at 1, get.
    destruct (list_find _ (projects w)) as [[i p]|] eqn:Hfind;
      [|intros [= <- <-]; apply within_refl].
    apply stays_run. apply stays_bind.
    + apply stays_forEach. intros url Hurl. by apply stays_unlink_image.
    + intros _. apply stays_bind; [by apply stays_modify|]. intros _.
      apply (stays_save_reply Projects).
  - apply stays_run, post_carousel_stays.
  - unfold delete_carousel_handler, bind at 1, get.
    destruct (list_find _ (carouselImages w)) as [[i img]|] eqn:Hfind;
      [|intros [= <- <-]; apply within_refl].
    apply stays_run. apply stays_bind.
    + apply stays_unlink_image. cbn. apply elem_of_cons. by left.
    + intros _. apply stays_bind; [by apply stays_modify|]. intros _.
      apply (stays_save_reply CarouselImages).
  - apply stays_run. unfold post_video_handler.
    destruct (negb (truthy url) || negb (truthy t)); [apply stays_ret|].
    destruct (negb (URL_parses _)); [apply stays_ret|].
    apply stays_bind; [apply stays_uuid|]. intros newid.
    apply stays_bind; [by apply stays_modify|]. intros _.
    apply (stays_save_reply Videos).
  - apply stays_run. unfold delete_video_handler.
    apply stays_bind; [apply stays_get|]. intros w0.
    destruct (list_find _ (videos w0)) as [[i v]|]; [|apply stays_ret].
    apply stays_bind; [by apply stays_modify|]. intros _.
    apply (stays_save_reply Videos).
Qed.

Lemma quiet_target_refs (rq : Request) (w w' : World) :
  quiet w w' → target_refs rq w' = target_refs rq w.
Proof. intros (Hp & Hc & _). destruct rq; cbn; by rewrite ?Hp, ?Hc. Qed.

Lemma route_events (rq : Request) (c : Collection) (w w' : World)
    (o : outcome Response) :
  collection_of rq = Some c → route rq w = (o, w') →
  ∃ up evs, log w' = log w ++ up ++ evs
    ∧ upload_events (drawn w) (parts_of rq) up
    ∧ Forall (handler_event c (target_refs rq w)) evs.
Proof.
  intros Hc.
  assert (∀ limit images (k : option (list UploadedFile) → M Response),
            (∀ files w1, k files w1 = (o, w') →
                         within c (target_refs rq w1) w1 w') →
            bind (upload limit images) k w = (o, w') →
            ∃ up evs, log w' = log w ++ up ++ evs
              ∧ upload_events (drawn w) (default [] images) up
              ∧ Forall (handler_event c (target_refs rq w)) evs) as Hupload.
  { intros limit images k Hk
      [(files & w1 & Hup & Hrun)|(e & Hup & _)]%bind_inv.
    - pose proof (respects_upload _ _ _ _ _ Hup) as Hq.
      apply upload_log in Hup as (up & Hlog & Hev).
      destruct (Hk _ _ Hrun) as (evs & Hlog' & Hall).
      rewrite (quiet_target_refs rq w w1 Hq) in Hall.
      exists up, evs. by rewrite Hlog', Hlog, <- app_assoc.
    - apply upload_log in Hup as (up & Hlog & Hev).
      exists up, []. by rewrite app_nil_r. }
  assert (within c (target_refs rq w) w w' →
          ∃ up evs, log w' = log w ++ up ++ evs
            ∧ upload_events (drawn w) [] up
            ∧ Forall (handler_event c (target_refs rq w)) evs) as Hplain.
  { intros (evs & Hlog & Hall). exists [], evs.
    split_and!; [done|apply upload_events_nil|done]. }
  destruct rq as [|t d images|id t d images|id| |image|id| |url t|id];
    try discriminate Hc; cbn [route parts_of].
  - apply Hupload. intros files w1.
    apply (handler_within (PostProject t d images) c w1 w' files o Hc).
  - apply Hupload. intros files w1.
    apply (handler_within (PutProject id t d images) c w1 w' files o Hc).
  - intros Hrun. apply Hplain.
    by apply (handler_within (DeleteProject id) c w w' None o Hc).
  - apply Hupload. intros files w1.
    apply (handler_within (PostCarouselImage image) c w1 w' files o Hc).
  - intros Hrun. apply Hplain.
    by apply (handler_within (DeleteCarouselImage id) c w w' None o Hc).
  - intros Hrun. apply Hplain.
    by apply (handler_within (PostVideo url t) c w w' None o Hc).
  - intros Hrun. apply Hplain.
    by apply (handler_within (DeleteVideo id) c w w' None o Hc).
Qed.

(** X15. What a request touches on disk, whatever its outcome.  The
    events it adds to the log are, first, those of the upload: the files
    of the first [k] parts of the request written in order under their
    generated names and, when the upload is given up, unlinks of some of
    these very files; then those of the handler: writes of the JSON file
    of the request's own collection, and unlinks of files that the
    references of the record it addresses lead to (the first record with
    the identifier, as it was when the request came in).  Nothing else is
    written or removed. *)
Theorem disk_discipline (rq : Request) (c : Collection) (w : World) :
  collection_of rq = Some c →
  ∃ up evs, log (handle rq w).2 = log w ++ up ++ evs
    ∧ upload_events (drawn w) (parts_of rq) up
    ∧ Forall (handler_event c (target_refs rq w)) evs.
Proof.
  intros Hc. unfold handle, express.
  destruct (route rq w) as [[r|e] w'] eqn:Hrun;
    apply (route_events rq c w w' _ Hc Hrun).
Qed.

(** *** Requests that succeed *)

Lemma sure_ret {A : Type} (a : A) (Q : A → Prop) : Q a → sure (ret a) Q.
Proof. intros HQ w HP. by exists a, w. Qed.

Lemma sure_bind {A B : Type} (m : M A) (k : A → M B) (Q' : A → Prop)
    (Q : B → Prop) :
  sure m Q' → (∀ a, Q' a → sure (k a) Q) → sure (bind m k) Q.
Proof.
  intros Hm Hk w HP. destruct (Hm w HP) as (a & w1 & Hrun & HP1 & HQ').
  destruct (Hk a HQ' w1 HP1) as (b & w' & Hrun' & HP' & HQ).
  exists b, w'. by rewrite (bind_Ret _ _ _ _ _ Hrun).
Qed.

Lemma sure_modify (f : World → World) :
  (∀ w, disk (f w) = disk w) → sure (modify f) (λ _, True).
Proof.
  intros Hf w HP. exists (), (f w). split_and!; [done| |done].
  intros path. rewrite Hf. apply HP.
Qed.

Lemma sure_uuid : sure uuid (λ _, True).
Proof. intros w HP. by eexists _, _. Qed.

Lemma sure_unlink_image (url : string) : sure (unlink_image url) (λ _, True).
Proof.
  intros w HP. rewrite unlink_image_run.
  destruct (Fs.files (disk w) !! localPath url); [|by exists (), w].
  rewrite (proj1 (HP _)). by eexists _, _.
Qed.

Lemma sure_forEach {A : Type} (f : A → M unit) (l : list A) :
  (∀ x, sure (f x) (λ _, True)) → sure (forEach f l) (λ _, True).
Proof.
  intros Hf. induction l as [|x l IH]; cbn [forEach].
  - by apply sure_ret.
  - eapply sure_bind; [apply Hf|]. intros _ _. apply IH.
Qed.

Lemma sure_save_reply (c : Collection) (r : Response) (Q : Response → Prop) :
  Q r → sure (save c;; ret r) Q.
Proof.
  intros HQ. eapply sure_bind with (Q' := λ _, True);
    [|by intros _ _; apply sure_ret].
  intros w HP. rewrite save_ok by apply HP. by eexists _, _.
Qed.

Lemma sure_express (m : M Response) (Q : Response → Prop) (w : World) :
  sure m Q → permissive w → Q (express m w).1.
Proof.
  intros Hm HP. destruct (Hm w HP) as (r & w' & Hrun & _ & HQ).
  unfold express. by rewrite Hrun.
Qed.

Lemma express_bind {A : Type} (m : M A) (k : A → M Response) (w w1 : World)
    (a : A) :
  m w = (Ret a, w1) → express (bind m k) w = express (k a) w1.
Proof. intros Hrun. unfold express. by rewrite (bind_Ret _ _ _ _ _ Hrun). Qed.

Lemma list_find_present {A : Type} (key : A → string) (l : list A) (id : string) :
  id ∈ key <$> l → ∃ i x, list_find (λ y, key y = id) l = Some (i, x).
Proof.
  intros (x & -> & Hx)%list_elem_of_fmap.
  destruct (list_find (λ y, key y = key x) l) as [[i y]|] eqn:Hfind; [eauto|].
  apply list_find_None in Hfind.
  by destruct (proj1 (Forall_forall _ _) Hfind x Hx).
Qed.

Lemma upload_sure (limit : nat) (parts : option (list Part)) (w : World) :
  permissive w → (∀ ps, parts = Some ps → length ps ≤ limit) →
  ∃ w1, upload limit parts w
        = (Ret ((λ ps, mkFile <$> names_from (drawn w) ps) <$> parts), w1)
    ∧ permissive w1 ∧ quiet w w1.
Proof.
  intros HP Hlen. destruct parts as [ps|]; cbn [upload fmap option_fmap option_map].
  - destruct (receive_ok ps limit [] w (Hlen ps eq_refl))
      as (w1 & Hrun & Hp & Hc & Hv & Hd & Hud & Hwd & _); [intros; apply HP|].
    exists w1. rewrite (bind_Ret _ _ _ _ _ Hrun). split_and!; [done| |].
    + intros path. rewrite Hud, Hwd. apply HP.
    + split_and!; [done..|lia].
  - exists w. split_and!; [done..|apply quiet_refl].
Qed.

Lemma post_project_sure (title description : option string)
    (files : list UploadedFile) :
  files ≠ [] →
  sure (post_project_handler title description (Some files))
       (λ r, status r = 201).
Proof.
  intros Hne. unfold post_project_handler.
  destruct files as [|file files]; [done|]. cbn [has_files negb].
  eapply sure_bind; [apply sure_uuid|]. intros newid _.
  eapply sure_bind; [by apply sure_modify|]. intros _ _.
  by apply (sure_save_reply Projects).
Qed.

Lemma post_carousel_sure (file : UploadedFile) :
  sure (post_carousel_handler (Some file)) (λ r, status r = 201).
Proof.
  cbn [post_carousel_handler].
  eapply sure_bind; [apply sure_uuid|]. intros newid _.
  eapply sure_bind; [by apply sure_modify|]. intros _ _.
  by apply (sure_save_reply CarouselImages).
Qed.

Lemma put_project_succeeds (id : string) (title description : option string)
    (files : option (list UploadedFile)) (w : World) :
  permissive w → id ∈ ids Projects w →
  status (express (put_project_handler id title description files) w).1 = 200.
Proof.
  intros HP (i & p & Hfind)%list_find_present.
  unfold express. rewrite (put_project_found _ _ _ _ _ _ _ Hfind).
  apply (sure_express _ (λ r, status r = 200)); [|done].
  eapply sure_bind with (Q' := λ _, True).
  - destruct (has_files files); [|by apply sure_ret].
    eapply sure_bind; [apply sure_forEach, sure_unlink_image|]. intros _ _.
    eapply sure_bind; [by apply sure_modify|]. intros _ _. by apply sure_ret.
  - intros project _. by apply (sure_save_reply Projects).
Qed.

Lemma delete_succeeds (c : Collection) (id : string) (w : World) :
  permissive w → id ∈ ids c w → status (handle (Delete c id) w).1 = 200.
Proof.
  intros HP Hin. destruct c; cbn [ids Delete] in *;
    apply list_find_present in Hin as (i & x & Hfind);
    unfold handle, express, route, delete_project_handler,
      delete_carousel_handler, delete_video_handler, bind at 1, get;
    rewrite Hfind; apply (sure_express _ (λ r, status r = 200)); try done.
  - eapply sure_bind; [apply sure_forEach, sure_unlink_image|]. intros _ _.
    eapply sure_bind; [by apply sure_modify|]. intros _ _.
    by apply (sure_save_reply Projects).
  - eapply sure_bind; [apply sure_unlink_image|]. intros _ _.
    eapply sure_bind; [by apply sure_modify|]. intros _ _.
    by apply (sure_save_reply CarouselImages).
  - eapply sure_bind; [by apply sure_modify|]. intros _ _.
    by apply (sure_save_reply Videos).
Qed.

(** On a disk that refuses nothing every admissible request is answered
    with the success status of its route. *)
Lemma handle_succeeds (rq : Request) (w : World) :
  permissive w → admissible rq w →
  status (handle rq w).1 = success_status rq.
Proof.
  intros HP (Hval & Hlim & Hrec).
  destruct rq as [|t d images|id t d images|id| |image|id| |url t|id];
    cbn [success_status fails_validation over_limit] in *.
  - reflexivity.
  - destruct images as [[|part ps]|]; try discriminate Hval.
    apply bool_decide_eq_false in Hlim.
    destruct (upload_sure 5 (Some (part :: ps)) w HP) as (w1 & Hup & HP1 & _).
    { intros ? [= <-]. lia. }
    unfold handle, route. rewrite (express_bind _ _ _ _ _ Hup).
    apply (sure_express _ (λ r, status r = 201) w1); [|done].
    by apply post_project_sure.
  - destruct (upload_sure 5 images w HP) as (w1 & Hup & HP1 & Hq).
    { intros ps ->. apply bool_decide_eq_false in Hlim. lia. }
    unfold handle, route. rewrite (express_bind _ _ _ _ _ Hup).
    apply put_project_succeeds; [done|].
    rewrite (quiet_ids Projects w w1 Hq). by apply Hrec.
  - apply (delete_succeeds Projects); [done|]. by apply Hrec.
  - reflexivity.
  - destruct image as [[|part ps]|]; try discriminate Hval.
    apply bool_decide_eq_false in Hlim.
    destruct ps as [|? ?]; [|cbn in Hlim; lia].
    destruct (upload_sure 1 (Some [part]) w HP) as (w1 & Hup & HP1 & _).
    { intros ? [= <-]. cbn. lia. }
    unfold handle, route. rewrite (express_bind _ _ _ _ _ Hup).
    apply (sure_express _ (λ r, status r = 201) w1); [|done].
    apply post_carousel_sure.
  - apply (delete_succeeds CarouselImages); [done|]. by apply Hrec.
  - reflexivity.
  - unfold handle, route, post_video_handler.
    apply orb_false_iff in Hval as [Hfields Hurl]. rewrite Hfields, Hurl.
    apply (sure_express _ (λ r, status r = 201)); [|done].
    eapply sure_bind; [apply sure_uuid|]. intros newid _.
    eapply sure_bind; [by apply sure_modify|]. intros _ _.
    by apply (sure_save_reply Videos).
  - apply (delete_succeeds Videos); [done|]. by apply Hrec.
Qed.

Lemma success_persisted (rq : Request) (c : Collection) (w w' : World)
    (r : Response) :
  collection_of rq = Some c →
  handle rq w = (r, w') →
  status r = 200 ∨ status r = 201 →
  persisted c w'.
Proof.
  intros Hc Hrun Hst. apply express_success in Hrun; [|done].
  assert (∀ code msg, r = error_reply code msg → code = 400 ∨ code = 404 → False)
    as Herr.
  { intros code msg -> [-> | ->]; by destruct Hst. }
  destruct rq as [|t d images|id t d images|id| |image|id| |url t|id];
    cbn in Hc; simplify_eq; cbn [route] in Hrun.
  - apply bind_inv_Ret in Hrun as (files & w1 & _ & Hrun).
    unfold post_project_handler in Hrun.
    destruct (negb (has_files files)).
    { injection Hrun as <- _. edestruct Herr; eauto. }
    apply bind_inv_Ret in Hrun as (newid & w2 & _ & Hrun).
    apply bind_inv_Ret in Hrun as ([] & w3 & _ & Hrun).
    by apply (save_reply Projects) in Hrun as (_ & ? & _).
  - apply bind_inv_Ret in Hrun as (files & w1 & _ & Hrun).
    unfold put_project_handler, bind at 1, get in Hrun.
    destruct (list_find _ (projects w1)) as [[i p]|].
    2:{ injection Hrun as <- _. edestruct Herr; eauto. }
    apply bind_inv_Ret in Hrun as ([] & w2 & _ & Hrun).
    apply bind_inv_Ret in Hrun as (p' & w3 & _ & Hrun).
    by apply (save_reply Projects) in Hrun as (_ & ? & _).
  - unfold delete_project_handler, bind at 1, get in Hrun.
    destruct (list_find _ (projects w)) as [[i p]|].
    2:{ injection Hrun as <- _. edestruct Herr; eauto. }
    apply bind_inv_Ret in Hrun as ([] & w2 & _ & Hrun).
    apply bind_inv_Ret in Hrun as ([] & w3 & _ & Hrun).
    by apply (save_reply Projects) in Hrun as (_ & ? & _).
  - apply bind_inv_Ret in Hrun as (files & w1 & _ & Hrun).
    unfold post_carousel_handler in Hrun.
    destruct (files ≫= head) as [file|].
    2:{ injection Hrun as <- _. edestruct Herr; eauto. }
    apply bind_inv_Ret in Hrun as (newid & w2 & _ & Hrun).
    apply bind_inv_Ret in Hrun as ([] & w3 & _ & Hrun).
    by apply (save_reply CarouselImages) in Hrun as (_ & ? & _).
  - unfold delete_carousel_handler, bind at 1, get in Hrun.
    destruct (list_find _ (carouselImages w)) as [[i p]|].
    2:{ injection Hrun as <- _. edestruct Herr; eauto. }
    apply bind_inv_Ret in Hrun as ([] & w2 & _ & Hrun).
    apply bind_inv_Ret in Hrun as ([] & w3 & _ & Hrun).
    by apply (save_reply CarouselImages) in Hrun as (_ & ? & _).
  - unfold post_video_handler in Hrun.
    destruct (negb (truthy url) || negb (truthy t)).
    { injection Hrun as <- _. edestruct Herr; eauto. }
    destruct (negb (URL_parses _)).
    { injection Hrun as <- _. edestruct Herr; eauto. }
    apply bind_inv_Ret in Hrun as (newid & w2 & _ & Hrun).
    apply bind_inv_Ret in Hrun as ([] & w3 & _ & Hrun).
    by apply (save_reply Videos) in Hrun as (_ & ? & _).
  - unfold delete_video_handler, bind at 1, get in Hrun.
    destruct (list_find _ (videos w)) as [[i p]|].
    2:{ injection Hrun as <- _. edestruct Herr; eauto. }
    apply bind_inv_Ret in Hrun as ([] & w3 & _ & Hrun).
    by apply (save_reply Videos) in Hrun as (_ & ? & _).
Qed.

Lemma delete_first_match (c : Collection) (id : string) (w w' : World)
    (r : Response) :
  handle (Delete c id) w = (r, w') → status r = 200 →
  ∃ i, ids c w !! i = Some id ∧ ids c w' = delete i (ids c w).
Proof.
  intros Hrun Hst.
  assert (∀ {A : Type} (key : A → string) (l : list A) i x,
            list_find (λ y, key y = id) l = Some (i, x) →
            (key <$> l) !! i = Some id) as Hat.
  { intros A key l i x (Hi & Hkey & _)%list_find_Some.
    by rewrite list_lookup_fmap, Hi; cbn; rewrite Hkey. }
  destruct c; cbn [Delete ids] in *.
  - destruct (delete_project_ok _ _ _ _ Hrun Hst) as (i & p & Hfind & Hp & _).
    exists i. by rewrite Hp, list_fmap_delete, (Hat _ _ _ _ _ Hfind).
  - destruct (delete_carousel_ok _ _ _ _ Hrun Hst) as (i & p & Hfind & Hc & _).
    exists i. by rewrite Hc, list_fmap_delete, (Hat _ _ _ _ _ Hfind).
  - destruct (delete_video_ok _ _ _ _ Hrun Hst) as (i & p & Hfind & Hv & _).
    exists i. by rewrite Hv, list_fmap_delete, (Hat _ _ _ _ _ Hfind).
Qed.

Lemma sole_delete (id : string) (l : list string) (i : nat) :
  sole id l → l !! i = Some id → id ∉ delete i l.
Proof.
  intros Hsole Hi (j & Hj)%list_elem_of_lookup.
  destruct (decide (j < i)) as [Hlt|Hge].
  - rewrite list_lookup_delete_lt in Hj by done.
    pose proof (Hsole _ _ Hi Hj). lia.
  - rewrite list_lookup_delete_ge in Hj by lia.
    pose proof (Hsole _ _ Hi Hj). lia.
Qed.

(** C6. On each of the three collections: when no record has the
    identifier, Delete answers 404 and the process state (memory and disk)
    is as before; when a record has it and the file system refuses
    nothing, Delete answers 200; and when Delete is answered 200, one
    record with the identifier has been removed, List returns the
    collection as it is now, and, provided no other record carried the
    same identifier, no record carries it any more and a second Delete of
    it answers 404. *)
Theorem delete_by_id (c : Collection) (id : string) (w : World) :
  (id ∉ ids c w → handle (Delete c id) w = (not_found c, w))
  ∧ (id ∈ ids c w → permissive w → status (handle (Delete c id) w).1 = 200)
  ∧ (∀ r w', handle (Delete c id) w = (r, w') → status r = 200 →
       (∃ i, ids c w !! i = Some id ∧ ids c w' = delete i (ids c w))
       ∧ handle (List c) w' = (mkResponse 200 (JArray (snapshot c w')), w')
       ∧ (sole id (ids c w) →
          (id ∉ ids c w')
          ∧ handle (Delete c id) w' = (not_found c, w'))).
Proof.
  split_and!.
  - apply delete_absent.
  - intros Hin HP. by apply delete_succeeds.
  - intros r w' Hrun Hst.
    destruct (delete_first_match c id w w' r Hrun Hst) as (i & Hi & Hids).
    split_and!; [by exists i|by destruct c|]. intros Hsole.
    assert (id ∉ ids c w') as Hgone by (rewrite Hids; by apply sole_delete).
    split; [done|]. by apply delete_absent.
Qed.

(** C8. When a mutating request (Create, Update or Delete on any of the
    three collections) is answered with a success status, the JSON file of
    its collection holds exactly the serialization of the in-memory array
    as it is after the request, and that write is the last disk effect of
    the request: the whole array is rewritten before the reply is sent.
    On a file system that refuses nothing this is the case of every
    request whose input is valid, that brings no more files than its route
    accepts and that addresses an existing record. *)
Theorem write_through (rq : Request) (c : Collection) (w : World) :
  collection_of rq = Some c →
  (∀ r w', handle rq w = (r, w') →
     status r = 200 ∨ status r = 201 → persisted c w')
  ∧ (permissive w → admissible rq w →
     status (handle rq w).1 = success_status rq
     ∧ persisted c (handle rq w).2).
Proof.
  intros Hc. split.
  - intros r w' Hrun Hst. by apply (success_persisted rq c w w' r).
  - intros HP Hadm. pose proof (handle_succeeds rq w HP Hadm) as Hst.
    split; [done|].
    apply (success_persisted rq c w _ (handle rq w).1 Hc);
      [apply surjective_pairing|].
    rewrite Hst. destruct rq; cbn; auto.
Qed.

End Server.

(** ** The model at work on the sample deployment *)

Module Demo.
Import Sample.

Ltac by_compute := apply (bool_decide_unpack _); vm_compute; exact I.

Example replace_base :
  replace_first (base env) "http://localhost:10000/uploads/a.png" = "uploads/a.png".
Proof. reflexivity. Qed.

Example localPath_a :
  localPath env "http://localhost:10000/uploads/a.png"
  = "/srv/citf-backend/uploads/a.png".
Proof. reflexivity. Qed.

(** A reference of another deployment (other port) is not recognised:
    nothing is cut off and the path leads nowhere. *)
Example localPath_other_port :
  localPath env "http://localhost:3000/uploads/a.png"
  = "/srv/citf-backend/http://localhost:3000/uploads/a.png".
Proof. reflexivity. Qed.

(** The scenario of the specification: a project "Bridge" with two
    images. *)
Example create_bridge :
  (handle env (PostProject (Some "Bridge") (Some "Steel truss")
                 (Some [photo; plan])) fresh).1
  = mkResponse 201
      (JObject [("id", JString "uuid-2"); ("title", JString "Bridge");
                ("description", JString "Steel truss");
                ("imageUrls",
                 JArray [JString "http://localhost:10000/uploads/uuid-0.png";
                         JString "http://localhost:10000/uploads/uuid-1.jpg"])]).
Proof. reflexivity. Qed.

Example create_bridge_log :
  log (handle env (PostProject (Some "Bridge") (Some "Steel truss")
                     (Some [photo; plan])) fresh).2
  = [Fs.Write "/srv/citf-backend/uploads/uuid-0.png" "PNG";
     Fs.Write "/srv/citf-backend/uploads/uuid-1.jpg" "JPG";
     Fs.Write "/srv/citf-backend/projects.json"
       (JSON_stringify
          (JArray [Project.to_json
                     (Project.mk "uuid-2" (Some "Bridge") (Some "Steel truss")
                        ["http://localhost:10000/uploads/uuid-0.png";
                         "http://localhost:10000/uploads/uuid-1.jpg"])]))].
Proof. reflexivity. Qed.

(** Six files on a route that takes five: multer rejects the upload and
    removes what it had stored. *)
Example too_many_files :
  let out := handle env (PostProject (Some "Bridge") None
                           (Some [photo; photo; photo; photo; photo; photo]))
               fresh in
  out.1 = error_reply 400 "Unexpected file field"
  ∧ projects out.2 = [] ∧ Fs.files (disk out.2) = ∅ ∧ drawn out.2 = 5.
Proof. by vm_compute. Qed.

(** An Update whose old image cannot be unlinked: 500, the new title is
    in memory, and nothing was written to [projects.json]. *)
Example update_locked :
  let out := express (put_project_handler env "p1" (Some "Arch") None
                        (Some [mkFile "n.png"])) locked in
  out.1 = error_reply 500 "Internal Server Error"
  ∧ projects out.2 = [Project.set_title (Some "Arch") bridge]
  ∧ log out.2 = [].
Proof. by vm_compute. Qed.

Lemma uuidv4_inj : Inj (=) (=) (env_uuidv4 env).
Proof.
  intros j k Heq. cbn in Heq. unfold Sample.uuidv4 in Heq.
  cbn in Heq. simplify_eq. by apply (inj pretty).
Qed.

Lemma fresh_consistent : files_consistent env fresh.
Proof.
  split.
  - by intros path ?%elem_of_nil.
  - intros path _ [data Hdata].
    change ((∅ : gmap string string) !! path = Some data) in Hdata.
    by rewrite lookup_empty in Hdata.
Qed.

Lemma create_validation_failure_witness :
  fails_validation env (PostVideo (Some "not-a-url") (Some "x")) = true
  ∧ ∃ msg, handle env (PostVideo (Some "not-a-url") (Some "x")) fresh
           = (error_reply 400 msg, fresh).
Proof.
  split; [reflexivity|].
  apply (create_validation_failure env (PostVideo (Some "not-a-url") (Some "x")) fresh).
  reflexivity.
Defined.



Lemma create_list_roundtrip_witness :
  let ci := NewProject (Some "Bridge") (Some "Steel truss") two_files in
  valid_input env ci = true
  ∧ Fs.write_denied (disk fresh) (db_path env (target ci)) = false
  ∧ ∃ w', Create env ci fresh = (Ret (mkResponse 201 (new_record env ci fresh)), w')
      ∧ handle env (List (target ci)) fresh
        = (mkResponse 200 (JArray (snapshot (target ci) fresh)), fresh)
      ∧ handle env (List (target ci)) w'
        = (mkResponse 200
             (JArray (snapshot (target ci) fresh ++ [new_record env ci fresh])), w').
Proof.
  intros ci. split_and!; [reflexivity..|].
  apply (create_list_roundtrip env ci fresh); reflexivity.
Defined.

Lemma project_create_unvalidated_witness :
  [mkFile "uuid-0.png"] ≠ []
  ∧ Fs.write_denied (disk fresh) (projectsDbPath env) = false
  ∧ ∃ p w',
      post_project_handler env None None (Some [mkFile "uuid-0.png"]) fresh
        = (Ret (mkResponse 201 (Project.to_json p)), w')
      ∧ Project.title p = None ∧ Project.description p = None
      ∧ projects w' = [p]
      ∧ Project.to_json p
        = JObject [("id", JString (Project.id p));
                   ("imageUrls", JArray (JString <$> Project.imageUrls p))].
Proof.
  split_and!; [done|reflexivity|].
  destruct (project_create_unvalidated env None None [mkFile "uuid-0.png"] fresh)
    as (p & w' & Hrun & Ht & Hd & _ & Hmem & _ & Hjson); [done|reflexivity|].
  exists p, w'. split_and!; auto.
Defined.

Lemma partial_update_witness :
  let out := handle env (PutProject "p1" (Some "Arch") None None) one_project in
  "Arch" ≠ EmptyString
  ∧ list_find (λ p, Project.id p = "p1") (projects one_project) = Some (0, bridge)
  ∧ ∃ p', projects out.2 !! 0 = Some p'
      ∧ Project.title p' = Some "Arch"
      ∧ Project.description p' = Some "Steel truss"
      ∧ Project.imageUrls p' = Project.imageUrls bridge
      ∧ Project.id p' = "p1"
      ∧ out.1 = updated_reply p'.
Proof.
  intros out. split_and!; [done|reflexivity|].
  destruct (partial_update env "p1" "Arch" None None one_project 0 bridge)
    as ((p' & Hp' & Ht & Hd & Hi & Hid & Hok) & _); [done|reflexivity..|].
  exists p'. split_and!; try done. by apply Hok.
Defined.

Lemma update_replaces_images_witness :
  [mkFile "n.png"] ≠ []
  ∧ list_find (λ p, Project.id p = "p1") (projects one_project) = Some (0, bridge)
  ∧ Fs.write_denied (disk one_project) (projectsDbPath env) = false
  ∧ ∃ w',
      put_project_handler env "p1" None None (Some [mkFile "n.png"]) one_project
        = (Ret (updated_reply
                  (Project.set_imageUrls ["http://localhost:10000/uploads/n.png"]
                     bridge)), w')
      ∧ log w'
        = [Fs.Unlink "/srv/citf-backend/uploads/a.png";
           Fs.Write (projectsDbPath env)
             (env_JSON_stringify env (JArray (Project.to_json <$> projects w')))].
Proof.
  split_and!; [done|reflexivity|reflexivity|].
  destruct (update_replaces_images env "p1" None None [mkFile "n.png"]
              one_project 0 bridge)
    as (w' & unlinked & Hrun & _ & Hlog & _ & _ & _ & _);
    [done|reflexivity|by intros|reflexivity|].
  exists w'. split; [done|].
  injection Hrun as <-. reflexivity.
Defined.

Lemma cleanup_failure_surfaces_witness :
  old_refs (RemoveProject "p1") locked = Some (Project.imageUrls bridge)
  ∧ blocked env (Project.imageUrls bridge) locked
  ∧ ∃ w', express (run_op env (RemoveProject "p1")) locked
          = (error_reply 500 "Internal Server Error", w')
      ∧ ids Projects w' = ["p1"].
Proof.
  assert (blocked env (Project.imageUrls bridge) locked) as Hblocked.
  { exists "http://localhost:10000/uploads/a.png".
    split_and!; [by_compute|by_compute|reflexivity]. }
  split_and!; [reflexivity|done|].
  destruct (cleanup_failure_surfaces env (RemoveProject "p1") locked
              (Project.imageUrls bridge))
    as (w' & unlinked & Hrun & Hids & _); [reflexivity|done|].
  by exists w'.
Defined.

(** Deleting the project of [locked], whose first image file is on disk
    and cannot be unlinked: the reply is 500, the project is still in the
    array and nothing was written. *)
Lemma cleanup_failure_not_swallowed :
  let out := express (run_op env (RemoveProject "p1")) locked in
  old_refs (RemoveProject "p1") locked = Some (Project.imageUrls bridge)
  ∧ blocked env (Project.imageUrls bridge) locked
  ∧ Fs.write_denied (disk locked) (projectsDbPath env) = false
  ∧ status out.1 = 500
  ∧ projects out.2 = [bridge]
  ∧ log out.2 = []
  ∧ ¬ cleanup_failure_swallowed env.
Proof.
  assert (blocked env (Project.imageUrls bridge) locked) as Hblocked.
  { exists "http://localhost:10000/uploads/a.png".
    split_and!; [by_compute|by_compute|reflexivity]. }
  split_and!; [reflexivity|done|reflexivity..|].
  intros Hclaim.
  destruct (Hclaim (RemoveProject "p1") locked (Project.imageUrls bridge))
    as [Hst _]; [reflexivity|done|reflexivity|].
  vm_compute in Hst. discriminate Hst.
Qed.

Lemma fresh_well_identified : well_identified env fresh.
Proof.
  intros c. destruct c; (split; [constructor|by intros x ?%elem_of_nil]).
Qed.

Lemma identifiers_unique_witness :
  Inj (=) (=) (env_uuidv4 env)
  ∧ issued env Videos session fresh = ["uuid-0"; "uuid-1"]
  ∧ NoDup (issued env Videos session fresh)
  ∧ ids Videos (serve env session fresh) = ["uuid-1"]
  ∧ NoDup (ids Videos (serve env session fresh)).
Proof.
  destruct (identifiers_unique env Videos session fresh uuidv4_inj)
    as (Hissued & _ & Hids).
  split_and!; [apply uuidv4_inj|reflexivity|done|reflexivity|].
  apply Hids, fresh_well_identified.
Defined.

Lemma update_unknown_id_leaves_orphan_witness :
  let out := handle env (PutProject "nope" (Some "x") None (Some [photo])) fresh in
  files_consistent env fresh
  ∧ out.1 = error_reply 404 "Project not found"
  ∧ projects out.2 = [] ∧ carouselImages out.2 = []
  ∧ Fs.files (disk out.2) !! "/srv/citf-backend/uploads/uuid-0.png" = Some "PNG"
  ∧ ¬ files_consistent env out.2.
Proof.
  intros out. split; [apply fresh_consistent|].
  destruct (update_unknown_id_leaves_orphan env "nope" (Some "x") None photo fresh)
    as (Hr & Hp & Hc & Hf & _ & _ & Hbad);
    [by_compute|reflexivity|reflexivity|by_compute|].
  by split_and!.
Defined.

Lemma one_project_permissive : permissive one_project.
Proof. intros path. split; reflexivity. Qed.

Lemma delete_by_id_witness :
  let out := handle env (Delete Projects "p1") one_project in
  (("p9" ∉ ids Projects one_project)
   ∧ handle env (Delete Projects "p9") one_project
     = (not_found Projects, one_project))
  ∧ (("p1" ∈ ids Projects one_project) ∧ permissive one_project
     ∧ status out.1 = 200)
  ∧ (sole "p1" (ids Projects one_project)
     ∧ ids Projects out.2 = []
     ∧ handle env (List Projects) out.2
       = (mkResponse 200 (JArray (snapshot Projects out.2)), out.2)
     ∧ ("p1" ∉ ids Projects out.2)
     ∧ handle env (Delete Projects "p1") out.2 = (not_found Projects, out.2)).
Proof.
  intros out.
  assert ("p9" ∉ ids Projects one_project) as Hp9 by by_compute.
  assert ("p1" ∈ ids Projects one_project) as Hp1 by by_compute.
  assert (sole "p1" (ids Projects one_project)) as Hsole.
  { intros [|i] [|j] Hi Hj; done. }
  destruct (delete_by_id env Projects "p9" one_project) as (Habsent & _ & _).
  destruct (delete_by_id env Projects "p1" one_project) as (_ & Hok & Hafter).
  destruct (Hafter out.1 out.2 (surjective_pairing _)
              (Hok Hp1 one_project_permissive)) as (_ & Hlist & Hgone).
  destruct (Hgone Hsole) as (Hnot & Hagain).
  split_and!;
    [done|by apply Habsent|done|apply one_project_permissive
    |by apply Hok, one_project_permissive|done|reflexivity|done..].
Defined.

(** Two videos with the same identifier, as a hand-edited [videos.json]
    can hold them: Delete answers 200 and removes the first; the
    identifier is still listed and a second Delete answers 200 again. *)
Lemma delete_keeps_duplicate :
  let out := handle env (Delete Videos "v1") twins in
  status out.1 = 200
  ∧ ids Videos out.2 = ["v1"]
  ∧ status (handle env (Delete Videos "v1") out.2).1 = 200
  ∧ ¬ delete_effect_idempotent env.
Proof.
  intros out. split_and!; [reflexivity..|]. intros Hclaim.
  destruct (Hclaim Videos "v1" twins out.1 out.2) as [Hgone _];
    [apply surjective_pairing|reflexivity|].
  apply Hgone. by_compute.
Qed.

Lemma write_through_witness :
  let rq := PutProject "p1" (Some "Arch") None (Some [photo]) in
  collection_of rq = Some Projects
  ∧ permissive one_project
  ∧ admissible env rq one_project
  ∧ status (handle env rq one_project).1 = 200
  ∧ persisted env Projects (handle env rq one_project).2.
Proof.
  intros rq.
  assert (admissible env rq one_project) as Hadm.
  { split_and!; [reflexivity..|]. intros c id [= <- <-]. by_compute. }
  split_and!; [reflexivity|apply one_project_permissive|done|..];
    apply (write_through env rq Projects one_project eq_refl);
    by try apply one_project_permissive.
Defined.

(** A Create of a video when [videos.json] cannot be written: the reply
    is 500, the record is in the array, and there is no file. *)
Lemma write_refused_diverges :
  let rq := PostVideo (Some "https://example.org/a") (Some "A") in
  let out := handle env rq read_only in
  out.1 = error_reply 500 "Internal Server Error"
  ∧ videos read_only = []
  ∧ videos out.2 = [Video.mk "uuid-0" "https://example.org/a" "A"]
  ∧ Fs.files (disk out.2) !! videosDbPath env = None
  ∧ ¬ write_through_always env.
Proof.
  intros rq out.
  assert (Fs.files (disk out.2) !! videosDbPath env = None) as Hnone
    by by_compute.
  split_and!; [reflexivity..|done|]. intros Hclaim.
  specialize (Hclaim rq Videos read_only eq_refl).
  change (db_path env Videos) with (videosDbPath env) in Hclaim.
  fold out in Hclaim. rewrite Hnone in Hclaim.
  assert (None = Some (env_JSON_stringify env (JArray (snapshot Videos out.2))))
    as Habs; [|discriminate Habs].
  apply Hclaim. intros Heq. apply (f_equal length) in Heq.
  vm_compute in Heq. discriminate Heq.
Qed.

(** *** The rest of the code on the sample deployment *)

Lemma fresh_permissive : permissive fresh.
Proof. intros path. split; reflexivity. Qed.

(** The sample [path.join] reaches a file of the upload directory the
    same way from [__dirname] and from [uploadDir], except for the empty
    name, as Node's does. *)
Lemma sample_join (name : string) :
  name ≠ EmptyString →
  env_path_join env (env_dirname env) ("uploads/" +:+ name)
  = env_path_join env (uploadDir env) name.
Proof. by destruct name. Qed.

Example sample_join_empty :
  env_path_join env (env_dirname env) ("uploads/" +:+ EmptyString)
  ≠ env_path_join env (uploadDir env) EmptyString.
Proof. by_compute. Qed.

Lemma sample_names_join (n : nat) (parts : list Part) (name : string) :
  name ∈ names_from env n parts →
  env_path_join env (env_dirname env) ("uploads/" +:+ name)
  = env_path_join env (uploadDir env) name.
Proof.
  intros Hin. apply sample_join. intros ->. revert n Hin.
  induction parts as [|part rest IH]; intros n Hin; cbn in Hin.
  - by apply elem_of_nil in Hin.
  - apply elem_of_cons in Hin as [Heq|Hin]; [discriminate Heq|by eapply IH].
Qed.

Lemma db_outside_uploads (c : Collection) : ¬ in_uploads env (db_path env c).
Proof.
  intros ([|a name] & Hname & Heq); [discriminate Hname|].
  destruct c; vm_compute in Heq; discriminate Heq.
Qed.

Lemma tidy_is_tidy : files_tidy env tidy.
Proof.
  split; [split|].
  - intros path Hin.
    change (path ∈ ["/srv/citf-backend/uploads/a.png"]) in Hin.
    apply elem_of_cons in Hin as [-> | []%elem_of_nil].
    split; [|by_compute]. exists "a.png". split; reflexivity.
  - intros path _ [data Hdata].
    change (({[ "/srv/citf-backend/uploads/a.png" := "AA" ]} : gmap string string)
              !! path = Some data) in Hdata.
    apply lookup_singleton_Some in Hdata as [<- _].
    change ("/srv/citf-backend/uploads/a.png" ∈ ["/srv/citf-backend/uploads/a.png"]).
    apply elem_of_cons. by left.
  - by_compute.
Qed.

Lemma upload_stores_files_witness :
  length [photo; plan] ≤ 5
  ∧ ∃ w', upload env 5 (Some [photo; plan]) fresh = (Ret (Some two_files), w')
      ∧ drawn w' = 2
      ∧ Fs.files (disk w') !! "/srv/citf-backend/uploads/uuid-0.png" = Some "PNG"
      ∧ Fs.files (disk w') !! "/srv/citf-backend/uploads/uuid-1.jpg" = Some "JPG".
Proof.
  assert (length [photo; plan] ≤ 5) as Hlen by by_compute.
  assert (NoDup (upload_paths env (drawn fresh) [photo; plan])) as Hnd
    by by_compute.
  split; [done|].
  destruct (upload_stores_files env 5 [photo; plan] fresh Hlen)
    as (w' & Hrun & _ & _ & _ & Hd & _ & _ & Hfile); [by intros|].
  exists w'. split_and!; [exact Hrun|exact Hd|..].
  - by apply (Hfile Hnd 0 _ photo).
  - by apply (Hfile Hnd 1 _ plan).
Defined.

Lemma create_project_end_to_end_witness :
  let p := Project.mk "uuid-2" (Some "Bridge") None
             ["http://localhost:10000/uploads/uuid-0.png";
              "http://localhost:10000/uploads/uuid-1.jpg"] in
  [photo; plan] ≠ []
  ∧ length [photo; plan] ≤ 5
  ∧ NoDup (upload_paths env (drawn fresh) [photo; plan])
  ∧ (projectsDbPath env ∉ upload_paths env (drawn fresh) [photo; plan])
  ∧ ∃ w', handle env (PostProject (Some "Bridge") None (Some [photo; plan])) fresh
          = (mkResponse 201 (Project.to_json p), w')
      ∧ projects w' = [p]
      ∧ persisted env Projects w'
      ∧ ∃ url, Project.imageUrls p !! 1 = Some url
          ∧ Fs.files (disk w') !! localPath env url = Some "JPG".
Proof.
  intros p.
  assert (length [photo; plan] ≤ 5) as Hlen by by_compute.
  assert (NoDup (upload_paths env (drawn fresh) [photo; plan])) as Hnd
    by by_compute.
  assert (projectsDbPath env ∉ upload_paths env (drawn fresh) [photo; plan])
    as Hdb by by_compute.
  split_and!; [done..|].
  destruct (create_project_end_to_end env (Some "Bridge") None [photo; plan] fresh)
    as (w' & Hrun & Hmem & _ & Hsaved & Hfiles);
    [done|done|by intros|reflexivity|done|done|apply sample_names_join|].
  exists w'. split_and!; [exact Hrun|exact Hmem|exact Hsaved|].
  exact (Hfiles 1 plan eq_refl).
Defined.


Lemma delete_removes_first_match_witness :
  let out := handle env (Delete Projects "p1") one_project in
  status out.1 = 200
  ∧ ∃ i, ids Projects one_project !! i = Some "p1"
      ∧ snapshot Projects out.2 = delete i (snapshot Projects one_project)
      ∧ snapshot CarouselImages out.2 = snapshot CarouselImages one_project.
Proof.
  intros out. split; [reflexivity|].
  destruct (delete_removes_first_match env Projects "p1" one_project out.2 out.1)
    as (i & Hi & _ & Hsnap & _ & Hother); [apply surjective_pairing|reflexivity|].
  exists i. split_and!; [done..|]. by apply Hother.
Defined.

Lemma file_op_disk_effect_witness :
  let out := express (run_op env (RemoveProject "p1")) one_project in
  old_refs (RemoveProject "p1") one_project = Some (Project.imageUrls bridge)
  ∧ status out.1 = 200
  ∧ cleaned env Projects (Project.imageUrls bridge) one_project out.2.
Proof.
  intros out. split_and!; [reflexivity..|].
  apply (file_op_disk_effect env (RemoveProject "p1") one_project out.2 out.1).
  - reflexivity.
  - apply surjective_pairing.
  - reflexivity.
Defined.

Lemma create_write_failure_witness :
  let ci := NewVideo "https://example.org/a" "A" in
  valid_input env ci = true
  ∧ Fs.write_denied (disk read_only) (db_path env (target ci)) = true
  ∧ ∃ w', express (Create env ci) read_only
          = (error_reply 500 "Internal Server Error", w')
      ∧ snapshot Videos w' = [new_record env ci read_only]
      ∧ log w' = [].
Proof.
  intros ci. split_and!; [reflexivity..|].
  destruct (create_write_failure env ci read_only)
    as (w' & Hrun & Hmem & _ & Hlog & _); [reflexivity..|].
  by exists w'.
Defined.

Lemma update_failure_keeps_new_fields_witness :
  [mkFile "n.png"] ≠ []
  ∧ list_find (λ p, Project.id p = "p1") (projects locked) = Some (0, bridge)
  ∧ blocked env (Project.imageUrls bridge) locked
  ∧ ∃ w', express (put_project_handler env "p1" (Some "Arch") None
                     (Some [mkFile "n.png"])) locked
          = (error_reply 500 "Internal Server Error", w')
      ∧ projects w' = [Project.set_title (Some "Arch") bridge]
      ∧ handle env GetProjects w'
        = (mkResponse 200
             (JArray [Project.to_json (Project.set_title (Some "Arch") bridge)]),
           w').
Proof.
  assert (blocked env (Project.imageUrls bridge) locked) as Hblocked.
  { exists "http://localhost:10000/uploads/a.png".
    split_and!; [by_compute|by_compute|reflexivity]. }
  split_and!; [done|reflexivity|done|].
  destruct (update_failure_keeps_new_fields env "p1" (Some "Arch") None
              [mkFile "n.png"] locked 0 bridge)
    as (w' & unlinked & Hrun & Hmem & _ & _ & Hlist); [done|reflexivity|done|].
  exists w'. split_and!; [exact Hrun|exact Hmem|exact Hlist].
Defined.

Lemma surplus_files_rejected_witness :
  let rq := PostCarouselImage (Some [photo; plan]) in
  over_limit rq = true
  ∧ quiet fresh (handle env rq fresh).2
  ∧ (handle env rq fresh).1 = error_reply 400 "Unexpected file field".
Proof.
  intros rq.
  destruct (surplus_files_rejected env rq fresh) as (Hquiet & _ & Hreply);
    [reflexivity|].
  split_and!; [reflexivity|done|]. apply Hreply, fresh_permissive.
Defined.

Lemma delete_keeps_files_tidy_witness :
  let out := handle env (Delete Projects "p2") tidy in
  status out.1 = 200 ∧ files_tidy env tidy
  ∧ ¬ in_uploads env (db_path env Projects)
  ∧ files_tidy env out.2.
Proof.
  intros out. split_and!;
    [reflexivity|apply tidy_is_tidy|apply db_outside_uploads|].
  apply (delete_keeps_files_tidy env Projects "p2" tidy out.2 out.1).
  - apply surjective_pairing.
  - reflexivity.
  - apply tidy_is_tidy.
  - apply db_outside_uploads.
Defined.

Lemma tidy_upload_paths (parts : list Part) :
  length parts ≤ 2 → ∀ path, path ∈ upload_paths env (drawn tidy) parts →
  Fs.write_denied (disk tidy) path = false ∧ Fs.files (disk tidy) !! path = None.
Proof.
  intros Hlen path Hin. split; [reflexivity|].
  change (({[ "/srv/citf-backend/uploads/a.png" := "AA" ]} : gmap string string)
            !! path = None).
  apply lookup_singleton_None.
  intros <-. destruct parts as [|a [|b [|c rest]]]; cbn in Hlen; [| | |lia].
  - by apply elem_of_nil in Hin.
  - apply elem_of_cons in Hin as [Heq | []%elem_of_nil].
    vm_compute in Heq. discriminate Heq.
  - apply elem_of_cons in Hin as [Heq | Hin];
      [|apply elem_of_cons in Hin as [Heq | []%elem_of_nil]];
      vm_compute in Heq; discriminate Heq.
Qed.

Lemma create_keeps_files_tidy_witness :
  let out := handle env (PostProject (Some "Bridge") None (Some [photo; plan])) tidy in
  files_tidy env tidy
  ∧ NoDup (upload_paths env (drawn tidy) [photo; plan])
  ∧ length (projects out.2) = 2
  ∧ files_tidy env out.2.
Proof.
  intros out.
  assert (NoDup (upload_paths env (drawn tidy) [photo; plan])) as Hnd
    by by_compute.
  assert (Forall (λ name, file_name name = true)
            (names_from env (drawn tidy) [photo; plan])) as Hnames by by_compute.
  split_and!; [apply tidy_is_tidy|done|reflexivity|].
  apply (create_keeps_files_tidy env (Some "Bridge") None [photo; plan] tidy).
  - apply tidy_is_tidy.
  - done.
  - by_compute.
  - apply tidy_upload_paths. by_compute.
  - reflexivity.
  - done.
  - by apply Forall_forall.
  - apply sample_names_join.
  - apply (db_outside_uploads Projects).
Defined.

Lemma update_keeps_files_tidy_witness :
  let out := handle env (PutProject "p2" None None (Some [photo])) tidy in
  status out.1 = 200
  ∧ files_tidy env tidy
  ∧ Fs.files (disk out.2) !! "/srv/citf-backend/uploads/a.png" = None
  ∧ files_tidy env out.2.
Proof.
  intros out.
  assert (NoDup (upload_paths env (drawn tidy) [photo])) as Hnd by by_compute.
  assert (Forall (λ name, file_name name = true)
            (names_from env (drawn tidy) [photo])) as Hnames by by_compute.
  split_and!; [reflexivity|apply tidy_is_tidy|by_compute|].
  apply (update_keeps_files_tidy env "p2" None None [photo] tidy out.2 out.1).
  - apply surjective_pairing.
  - reflexivity.
  - apply tidy_is_tidy.
  - done.
  - by_compute.
  - apply tidy_upload_paths. by_compute.
  - done.
  - by apply Forall_forall.
  - apply sample_names_join.
  - apply (db_outside_uploads Projects).
Defined.

Lemma disk_discipline_witness :
  let rq := PostProject (Some "Bridge") None
              (Some [photo; photo; photo; photo; photo; plan]) in
  collection_of rq = Some Projects
  ∧ log (handle env rq fresh).2
    = ((λ path, Fs.Write path "PNG")
         <$> ["/srv/citf-backend/uploads/uuid-0.png";
              "/srv/citf-backend/uploads/uuid-1.png";
              "/srv/citf-backend/uploads/uuid-2.png";
              "/srv/citf-backend/uploads/uuid-3.png";
              "/srv/citf-backend/uploads/uuid-4.png"])
      ++ (Fs.Unlink <$> ["/srv/citf-backend/uploads/uuid-0.png";
                         "/srv/citf-backend/uploads/uuid-1.png";
                         "/srv/citf-backend/uploads/uuid-2.png";
                         "/srv/citf-backend/uploads/uuid-3.png";
                         "/srv/citf-backend/uploads/uuid-4.png"])
  ∧ ∃ up evs, log (handle env rq fresh).2 = log fresh ++ up ++ evs
      ∧ upload_events env (drawn fresh) (parts_of rq) up
      ∧ Forall (handler_event env Projects (target_refs rq fresh)) evs.
Proof.
  intros rq. split_and!; [reflexivity..|].
  by apply (disk_discipline env rq Projects fresh).
Defined.

End Demo.
